(** * database_utility.py: the movie and actor loader and its queries

    A shallow embedding of [MovieDatabaseUtility] (src/database_utility.py).

    - Text is a list of characters; a character is a code point below 256.
    - The two regular expressions are written as lists of atoms and run by
      a backtracking matcher with the priorities of Python's [re].
    - A table with an INTEGER PRIMARY KEY is a finite map from the key to
      the remaining columns.
    - Python [int] is [Z]; Python [float] and SQLite REAL are binary64
      values ([spec_float] with 53 bits of precision). Python is one that
      limits the digits of a text it converts to an [int] (3.11 and later,
      and the security releases of 3.7 to 3.10), with the limit it sets by
      default.
    - What SQLite leaves open (the order of rows that tie under ORDER BY,
      the summation behind AVG) is an interface, [SqlEngine], and the
      queries are stated over every engine that meets it.
    - SQLite runs with its defaults: foreign keys are not checked unless a
      connection asks for it, and a LIKE pattern has at most 50000 bytes.
      Limits on the size of a whole text or statement (a billion bytes by
      default) are left out.
    - What [main] prints is a list of lines; a line is its text, with a
      mark where a value is interpolated, and the values. *)

From Stdlib Require Import ZArith Ascii String List SpecFloat.
From stdpp Require Import gmap list sorting.

Local Open Scope Z_scope.

(** ** Text *)

Abbreviation text := (list ascii).

Definition T (s : string) : text := list_ascii_of_string s.

Definition code (c : ascii) : Z := Z.of_N (N_of_ascii c).

(** [\d] on code points below 256: the ten ASCII digits. *)
Definition is_digit (c : ascii) : bool := (48 <=? code c) && (code c <=? 57).

(** [[^']] *)
Definition not_quote (c : ascii) : bool := negb (Ascii.eqb c "'").

(** [\s] on code points below 256, as [str.isspace] has it. *)
Definition is_space (c : ascii) : bool :=
  ((9 <=? code c) && (code c <=? 13)) || ((28 <=? code c) && (code c <=? 32))
  || (code c =? 133) || (code c =? 160).

(** [[0-9.]] *)
Definition is_num_dot (c : ascii) : bool := is_digit c || Ascii.eqb c ".".

(** ** Regular expressions of the shape the source uses

    Both patterns are a sequence of literal text and quantified character
    classes; every capture group holds exactly one quantified class. *)

Inductive quant :=
  | Plus       (* c+  : one or more, longest first *)
  | Star       (* c*  : zero or more, longest first *)
  | StarLazy.  (* c*? : zero or more, shortest first *)

Inductive atom :=
  | Lit (l : text)
  | Rep (cls : ascii -> bool) (q : quant)
  | Group (cls : ascii -> bool) (q : quant).

Abbreviation regex := (list atom).

Fixpoint strip_prefix (l s : text) : option text :=
  match l, s with
  | [], _ => Some s
  | a :: l', b :: s' => if Ascii.eqb a b then strip_prefix l' s' else None
  | _ :: _, [] => None
  end.

(** Every way to cut [s] into a run of class characters and the rest,
    shortest run first. *)
Fixpoint splits (cls : ascii -> bool) (s : text) : list (text * text) :=
  ([], s) ::
  match s with
  | c :: s' => if cls c then map (fun wr => (c :: fst wr, snd wr)) (splits cls s') else []
  | [] => []
  end.

(** The cuts a quantifier tries, in the order it tries them. *)
Definition candidates (cls : ascii -> bool) (q : quant) (s : text) : list (text * text) :=
  match q with
  | StarLazy => splits cls s
  | Star => rev (splits cls s)
  | Plus => rev (tl (splits cls s))
  end.

Fixpoint first_match {A B} (f : A -> option B) (l : list A) : option B :=
  match l with
  | [] => None
  | x :: l' => match f x with Some y => Some y | None => first_match f l' end
  end.

(** [match_here p s]: the match of [p] anchored at the start of [s], as the
    captured groups and the text left after the match. *)
Fixpoint match_here (p : regex) (s : text) : option (list text * text) :=
  match p with
  | [] => Some ([], s)
  | Lit l :: p' =>
      match strip_prefix l s with
      | Some s' => match_here p' s'
      | None => None
      end
  | Rep cls q :: p' =>
      first_match (fun wr => match_here p' (snd wr)) (candidates cls q s)
  | Group cls q :: p' =>
      first_match
        (fun wr => match match_here p' (snd wr) with
                   | Some (gs, r) => Some (fst wr :: gs, r)
                   | None => None
                   end)
        (candidates cls q s)
  end.

(** [re.finditer]: scan left to right; after a match, go on where it ended
    ([skip] counts the characters of the last match still to pass over). *)
Fixpoint finditer_from (p : regex) (skip : nat) (s : text) : list (list text) :=
  match skip with
  | S k => match s with
           | [] => []
           | _ :: s' => finditer_from p k s'
           end
  | O =>
      match match_here p s with
      | Some (gs, r) =>
          gs :: match s with
                | [] => []
                | _ :: s' => finditer_from p (length s - length r - 1)%nat s'
                end
      | None =>
          match s with
          | [] => []
          | _ :: s' => finditer_from p 0 s'
          end
      end
  end.

Definition finditer (p : regex) (content : text) : list (list text) :=
  finditer_from p 0 content.

(** [INSERT INTO actors VALUES\((\d+),(\d+),'([^']+)','([^']+)'\)] *)
Definition actors_keyword : text := T "INSERT INTO actors VALUES(".

Definition actors_pattern : regex :=
  [ Lit actors_keyword; Group is_digit Plus; Lit (T ","); Group is_digit Plus;
    Lit (T ",'"); Group not_quote Plus; Lit (T "','"); Group not_quote Plus;
    Lit (T "')") ].

(** [INSERT INTO movies VALUES\((\d+),'([^']+)','([^']*?)','([^']*?)'\s*,
     (\d+),'([^']*?)','([^']*?)'\s*,(\d+),'([^']*?)','([^']*?)'\s*,
     ([0-9.]+),(\d+),([0-9.]+)\)] *)
Definition movies_keyword : text := T "INSERT INTO movies VALUES(".

Definition movies_pattern : regex :=
  [ Lit movies_keyword; Group is_digit Plus;
    Lit (T ",'"); Group not_quote Plus;
    Lit (T "','"); Group not_quote StarLazy;
    Lit (T "','"); Group not_quote StarLazy;
    Lit (T "'"); Rep is_space Star; Lit (T ","); Group is_digit Plus;
    Lit (T ",'"); Group not_quote StarLazy;
    Lit (T "','"); Group not_quote StarLazy;
    Lit (T "'"); Rep is_space Star; Lit (T ","); Group is_digit Plus;
    Lit (T ",'"); Group not_quote StarLazy;
    Lit (T "','"); Group not_quote StarLazy;
    Lit (T "'"); Rep is_space Star; Lit (T ","); Group is_num_dot Plus;
    Lit (T ","); Group is_digit Plus;
    Lit (T ","); Group is_num_dot Plus;
    Lit (T ")") ].

(** ** Python values *)

Inductive exn :=
  | FileNotFoundError (file : string)
  | ValueError
  | OverflowError
  | OperationalError.

Inductive outcome (A : Type) :=
  | Ok (a : A)
  | Raise (e : exn).
Arguments Ok {A} a.
Arguments Raise {A} e.

#[global] Instance outcome_ret : MRet outcome := fun A a => Ok a.

#[global] Instance outcome_bind : MBind outcome := fun A B k x =>
  match x with
  | Ok a => k a
  | Raise e => Raise e
  end.

Definition digit_value (c : ascii) : Z := code c - 48.

(** The number that a text of digits writes in base ten. *)
Definition value_of_digits (s : text) : Z :=
  fold_left (fun acc c => 10 * acc + digit_value c) s 0.

(** [sys.get_int_max_str_digits()], as Python sets it by default. *)
Definition int_max_str_digits : nat := 4300.

(** [int(s)] on a text of digits: ValueError when the text has more digits,
    leading zeros included, than the limit. *)
Definition int (s : text) : outcome Z :=
  if (length s <=? int_max_str_digits)%nat then Ok (value_of_digits s)
  else Raise ValueError.

(** A Python [int] bound to a statement parameter has to fit SQLite's
    64-bit INTEGER; otherwise [execute] raises OverflowError. *)
Definition bind_int (z : Z) : outcome Z :=
  if (- 2 ^ 63 <=? z) && (z <=? 2 ^ 63 - 1) then Ok z else Raise OverflowError.

Definition prec : Z := 53.
Definition emax : Z := 1024.

(** The binary64 value nearest to [n / 10 ^ k]. *)
Definition decimal_to_float (n : Z) (k : nat) : spec_float :=
  match n, 10 ^ Z.of_nat k with
  | Zpos m, Zpos d => SFdiv prec emax (S754_finite false m 0) (S754_finite false d 0)
  | _, _ => S754_zero false
  end.

(** The digits after the decimal point, if there is one. *)
Fixpoint after_point (s : text) : text :=
  match s with
  | [] => []
  | c :: s' => if Ascii.eqb c "." then s' else after_point s'
  end.

Definition count_if (f : ascii -> bool) (s : text) : nat :=
  length (List.filter f s).

(** [float(s)] on a text of the class [[0-9.]] (all that the pattern can
    capture): at most one point and at least one digit, else ValueError. *)
Definition float (s : text) : outcome spec_float :=
  if forallb is_num_dot s
     && (count_if (fun c => Ascii.eqb c ".") s <=? 1)%nat
     && (1 <=? count_if is_digit s)%nat
  then Ok (decimal_to_float (value_of_digits (List.filter is_digit s))
             (count_if is_digit (after_point s)))
  else Raise ValueError.

(** ** The two tables

    [id INTEGER PRIMARY KEY] is the key of the map; the record holds the
    other columns. *)

Record movie := {
  imdb_id : text;
  title : text;
  director : text;
  year : Z;
  rating : text;
  genres : text;
  runtime : Z;
  country : text;
  language : text;
  imdb_score : spec_float;
  imdb_votes : Z;
  metacritic_score : spec_float
}.

Record actor := {
  movie_id : Z;
  actor_imdb_id : text;
  name : text
}.

Record database := {
  movies : gmap Z movie;
  actors : gmap Z actor
}.

Definition empty_database : database := {| movies := ∅; actors := ∅ |}.

(** [sqlite3.IntegrityError], by the constraint that failed. *)
Inductive integrity_error :=
  | UniqueConstraintFailed (column : string)
  | ForeignKeyConstraintFailed.

(** SQLite checks foreign keys only on a connection that has run
    [PRAGMA foreign_keys = ON]; a new connection has it off. *)
Definition default_foreign_keys : bool := false.

(** [INSERT INTO movies (...) VALUES (?, ..., ?)] *)
Definition execute_insert_movie (db : database) (id : Z) (m : movie)
  : integrity_error + database :=
  match movies db !! id with
  | Some _ => inl (UniqueConstraintFailed "movies.id")
  | None => inr {| movies := <[id := m]> (movies db); actors := actors db |}
  end.

(** [INSERT INTO actors (id, movie_id, imdb_id, name) VALUES (?, ?, ?, ?)] *)
Definition execute_insert_actor (foreign_keys : bool) (db : database) (id : Z) (a : actor)
  : integrity_error + database :=
  match actors db !! id with
  | Some _ => inl (UniqueConstraintFailed "actors.id")
  | None =>
      match foreign_keys, movies db !! movie_id a with
      | true, None => inl ForeignKeyConstraintFailed
      | _, _ => inr {| movies := movies db; actors := <[id := a]> (actors db) |}
      end
  end.

(** ** The loader *)

(** What the program prints. *)
Inductive event :=
  | TablesCreated                                   (* "Database tables created successfully" *)
  | MovieWarning (movie_id : Z) (e : integrity_error)     (* "Warning: Could not insert movie {movie_id}: {e}" *)
  | ActorWarning (actor_id : text) (e : integrity_error)  (* "Warning: Could not insert actor {actor_id}: {e}" *)
  | InsertedMovies (inserted_count : nat)           (* "Inserted {inserted_count} movies" *)
  | InsertedActors (inserted_count : nat)           (* "Inserted {inserted_count} actors" *)
  | DataInserted.                                   (* "Data inserted successfully into database" *)

(** The parameter tuple of the movie insert: [movie_id = int(groups[0])],
    then the tuple is built left to right ([int] and [float] may raise
    ValueError), then [execute] binds it (an [int] out of range raises
    OverflowError). *)
Definition movie_parameters (groups : list text) : outcome (Z * movie) :=
  match groups with
  | [g0; g1; g2; g3; g4; g5; g6; g7; g8; g9; g10; g11; g12] =>
      movie_id ← int g0;
      y ← int g4;
      rt ← int g7;
      score ← float g10;
      votes ← int g11;
      metacritic ← float g12;
      id ← bind_int movie_id;
      y ← bind_int y;
      rt ← bind_int rt;
      votes ← bind_int votes;
      Ok (id, {| imdb_id := g1; title := g2; director := g3; year := y;
                 rating := g5; genres := g6; runtime := rt; country := g8;
                 language := g9; imdb_score := score; imdb_votes := votes;
                 metacritic_score := metacritic |})
  | _ => Raise ValueError
  end.

(** [actor_id, movie_id, imdb_id, name = match.groups()] and the tuple
    [(int(actor_id), int(movie_id), imdb_id, name)], which [execute] then
    binds. *)
Definition actor_parameters (groups : list text) : outcome (text * Z * actor) :=
  match groups with
  | [actor_id; movie_id; imdb_id; name] =>
      id ← int actor_id;
      mid ← int movie_id;
      id ← bind_int id;
      mid ← bind_int mid;
      Ok (actor_id, id, {| movie_id := mid; actor_imdb_id := imdb_id; name := name |})
  | _ => Raise ValueError
  end.

(** The [for match in matches] loop of [_insert_movies]. An exception other
    than IntegrityError leaves the loop; what was printed stays printed. *)
Fixpoint insert_movie_matches (matches : list (list text)) (db : database)
    (out : list event) (inserted_count : nat) : outcome (database * nat) * list event :=
  match matches with
  | [] => (Ok (db, inserted_count), out)
  | groups :: rest =>
      match movie_parameters groups with
      | Raise e => (Raise e, out)
      | Ok (movie_id, m) =>
          match execute_insert_movie db movie_id m with
          | inr db' => insert_movie_matches rest db' out (S inserted_count)
          | inl e => insert_movie_matches rest db (out ++ [MovieWarning movie_id e]) inserted_count
          end
      end
  end.

(** The [for match in matches] loop of [_insert_actors]. *)
Fixpoint insert_actor_matches (matches : list (list text)) (db : database)
    (out : list event) (inserted_count : nat) : outcome (database * nat) * list event :=
  match matches with
  | [] => (Ok (db, inserted_count), out)
  | groups :: rest =>
      match actor_parameters groups with
      | Raise e => (Raise e, out)
      | Ok (actor_id, id, a) =>
          match execute_insert_actor default_foreign_keys db id a with
          | inr db' => insert_actor_matches rest db' out (S inserted_count)
          | inl e => insert_actor_matches rest db (out ++ [ActorWarning actor_id e]) inserted_count
          end
      end
  end.

(** The directory [sql_dir] and the standard output. A source file is the
    text that reading it returns. *)
Record world := {
  actors_sql : option text;     (* sql_dir / "actors.sql", when it exists *)
  movies_sql : option text;     (* sql_dir / "movies.sql", when it exists *)
  db_file : database;           (* sql_dir / db_file *)
  stdout : list event
}.

Definition set_db (w : world) (db : database) (out : list event) : world :=
  {| actors_sql := actors_sql w; movies_sql := movies_sql w; db_file := db; stdout := out |}.

(** [open(file_path, 'r')] *)
Definition read_file (name : string) (file : option text) : outcome text :=
  match file with
  | Some content => Ok content
  | None => Raise (FileNotFoundError name)
  end.

(** DROP TABLE IF EXISTS and CREATE TABLE, each committed as it runs. *)
Definition _initialize_database (w : world) : world :=
  set_db w empty_database (stdout w ++ [TablesCreated]).

(** The inserts of one call run in one transaction: the [with] block
    commits it at the end and rolls it back when an exception leaves it. *)
Definition _insert_movies (file_path : option text) (w : world) : outcome unit * world :=
  match read_file "movies.sql" file_path with
  | Raise e => (Raise e, w)
  | Ok content =>
      let matches := finditer movies_pattern content in
      match insert_movie_matches matches (db_file w) (stdout w) 0 with
      | (Ok (db, inserted_count), out) =>
          (Ok tt, set_db w db (out ++ [InsertedMovies inserted_count]))
      | (Raise e, out) => (Raise e, set_db w (db_file w) out)
      end
  end.

Definition _insert_actors (file_path : option text) (w : world) : outcome unit * world :=
  match read_file "actors.sql" file_path with
  | Raise e => (Raise e, w)
  | Ok content =>
      let matches := finditer actors_pattern content in
      match insert_actor_matches matches (db_file w) (stdout w) 0 with
      | (Ok (db, inserted_count), out) =>
          (Ok tt, set_db w db (out ++ [InsertedActors inserted_count]))
      | (Raise e, out) => (Raise e, set_db w (db_file w) out)
      end
  end.

Definition _parse_and_insert_sql_files (w : world) : outcome unit * world :=
  match actors_sql w, movies_sql w with
  | None, _ => (Raise (FileNotFoundError "actors.sql"), w)
  | Some _, None => (Raise (FileNotFoundError "movies.sql"), w)
  | Some _, Some _ =>
      match _insert_movies (movies_sql w) w with
      | (Raise e, w1) => (Raise e, w1)
      | (Ok _, w1) =>
          match _insert_actors (actors_sql w1) w1 with
          | (Raise e, w2) => (Raise e, w2)
          | (Ok _, w2) => (Ok tt, set_db w2 (db_file w2) (stdout w2 ++ [DataInserted]))
          end
      end
  end.

(** [MovieDatabaseUtility(sql_dir, db_file)] *)
Definition __init__ (w : world) : outcome unit * world :=
  _parse_and_insert_sql_files (_initialize_database w).

(** ** What the SQL engine decides

    ORDER BY returns the rows in some order that is sorted by the key: where
    rows tie, the engine picks. AVG is NULL over no rows and a number over
    some; the summation it uses differs between SQLite versions. *)

Class SqlEngine := {
  order_by : forall {A : Type}, (A -> A -> bool) -> list A -> list A;
  order_by_permutation :
    forall (A : Type) (le : A -> A -> bool) (rows : list A),
      order_by le rows ≡ₚ rows;
  order_by_sorted :
    forall (A : Type) (le : A -> A -> bool) (rows : list A),
      (forall x y, le x y = true \/ le y x = true) ->
      (forall x y z, le x y = true -> le y z = true -> le x z = true) ->
      StronglySorted (fun x y => le x y = true) (order_by le rows);
  avg_integer : list Z -> option spec_float;
  avg_real : list spec_float -> option spec_float;
  avg_integer_nil : avg_integer [] = None;
  avg_real_nil : avg_real [] = None;
  avg_integer_cons : forall x l, is_Some (avg_integer (x :: l));
  avg_real_cons : forall x l, is_Some (avg_real (x :: l))
}.

(** The order of REAL values. NaN cannot be stored (SQLite turns it into
    NULL); it is placed first here only to make the order total. *)
Definition float_leb (x y : spec_float) : bool :=
  match SFcompare x y with
  | Some Gt => false
  | Some _ => true
  | None => match x with S754_nan => true | _ => false end
  end.

(** The order of TEXT values under the BINARY collation. *)
Fixpoint text_leb (x y : text) : bool :=
  match x, y with
  | [], _ => true
  | _ :: _, [] => false
  | a :: x', b :: y' =>
      if code a <? code b then true
      else if code b <? code a then false
      else text_leb x' y'
  end.

(** [ORDER BY key DESC] *)
Definition desc {A K : Type} (leb : K -> K -> bool) (key : A -> K) : A -> A -> bool :=
  fun x y => leb (key y) (key x).

(** [ORDER BY key] *)
Definition asc {A K : Type} (leb : K -> K -> bool) (key : A -> K) : A -> A -> bool :=
  fun x y => leb (key x) (key y).

(** [LIMIT n]: a negative [n] means no limit. *)
Definition limit {A : Type} (n : Z) (rows : list A) : list A :=
  if n <? 0 then rows else take (Z.to_nat n) rows.

Definition lower (c : ascii) : ascii :=
  if (65 <=? code c) && (code c <=? 90)
  then ascii_of_N (N_of_ascii c + 32)
  else c.

(** [%] stands for any text, [_] for any one character, and ASCII letters
    match without regard to case. *)
Fixpoint like_chars (pattern s : text) : bool :=
  match pattern with
  | [] => match s with [] => true | _ => false end
  | p :: pattern' =>
      if Ascii.eqb p "%" then
        (fix any (s : text) : bool :=
           like_chars pattern' s || match s with [] => false | _ :: s' => any s' end) s
      else
        match s with
        | [] => false
        | c :: s' =>
            (Ascii.eqb p "_" || Ascii.eqb (lower p) (lower c)) && like_chars pattern' s'
        end
  end.

Definition nul : ascii := ascii_of_N 0.

(** The text up to its first NUL character. *)
Fixpoint c_string (s : text) : text :=
  match s with
  | [] => []
  | c :: s' => if Ascii.eqb c nul then [] else c :: c_string s'
  end.

(** [s LIKE pattern] with no ESCAPE. SQLite reads both operands as C
    strings. *)
Definition like (pattern s : text) : bool :=
  like_chars (c_string pattern) (c_string s).

(** The number of bytes of the UTF-8 encoding. *)
Definition utf8_length (s : text) : Z :=
  fold_right (fun c n => (if code c <? 128 then 1 else 2) + n) 0 s.

(** SQLITE_MAX_LIKE_PATTERN_LENGTH: evaluating LIKE with a longer pattern
    fails with "LIKE or GLOB pattern too complex". *)
Definition max_like_pattern_length : Z := 50000.

(** ** The queries *)

(** A row of [SELECT m.*, COUNT(a.id) ... GROUP BY m.id]. *)
Record movie_row := {
  id : Z;
  columns : movie;
  actor_count : nat
}.

(** The rows of [actors] whose [movie_id] is [mid]. *)
Definition actors_of (db : database) (mid : Z) : list (Z * actor) :=
  List.filter (fun ia => movie_id (snd ia) =? mid) (map_to_list (actors db)).

(** [FROM movies m LEFT JOIN actors a ON m.id = a.movie_id GROUP BY m.id] *)
Definition movies_with_actor_count (db : database) : list movie_row :=
  map (fun im => {| id := fst im; columns := snd im;
                    actor_count := length (actors_of db (fst im)) |})
      (map_to_list (movies db)).

Record longest_running_movie := {
  longest_title : text;
  longest_runtime : Z;
  longest_year : Z;
  longest_director : text;
  longest_imdb_score : spec_float;
  longest_actor_count : nat;
  longest_full_details : movie_row
}.

(** A row of [SELECT id, imdb_id, name FROM actors]. *)
Record actor_row := {
  actor_id : Z;
  actor_row_imdb_id : text;
  actor_name : text
}.

Definition actor_row_of (ia : Z * actor) : actor_row :=
  {| actor_id := fst ia;
     actor_row_imdb_id := actor_imdb_id (snd ia);
     actor_name := name (snd ia) |}.

Record movie_with_most_actors := {
  most_title : text;
  most_actor_count : nat;
  most_year : Z;
  most_director : text;
  most_imdb_score : spec_float;
  most_actors : list actor_row;
  most_full_details : movie_row
}.

Record movie_summary := {
  summary_title : text;
  summary_imdb_score : spec_float;
  summary_year : Z;
  summary_director : text;
  summary_actors_count : nat
}.

(** A Python [dict] with text keys: the items in insertion order. *)
Abbreviation dict V := (list (text * V)).

Fixpoint dict_get {V} (k : text) (d : dict V) : option V :=
  match d with
  | [] => None
  | (k', v) :: d' => if decide (k' = k) then Some v else dict_get k d'
  end.

(** [d[k] = v] *)
Fixpoint dict_set {V} (k : text) (v : V) (d : dict V) : dict V :=
  match d with
  | [] => [(k, v)]
  | (k', v') :: d' => if decide (k' = k) then (k, v) :: d' else (k', v') :: dict_set k v d'
  end.

Record rating_breakdown_result := {
  total_movies_in_top : nat;
  rating_categories : dict (list movie_summary);
  rating_distribution : dict Z
}.

Definition summary_of (row : movie_row) : movie_summary :=
  {| summary_title := title (columns row);
     summary_imdb_score := imdb_score (columns row);
     summary_year := year (columns row);
     summary_director := director (columns row);
     summary_actors_count := actor_count row |}.

(** The body of [for movie in top_movies]. *)
Definition breakdown_step (acc : dict (list movie_summary) * dict Z) (row : movie_row)
  : dict (list movie_summary) * dict Z :=
  let rating := rating (columns row) in
  let '(rating_breakdown, rating_distribution) :=
    match dict_get rating (fst acc) with
    | None => (dict_set rating [] (fst acc), dict_set rating 0 (snd acc))
    | Some _ => acc
    end in
  (dict_set rating (default [] (dict_get rating rating_breakdown) ++ [summary_of row])
     rating_breakdown,
   dict_set rating (default 0 (dict_get rating rating_distribution) + 1)
     rating_distribution).

Inductive number :=
  | PyInt (z : Z)
  | PyFloat (x : spec_float).

Record stats := {
  total_movies : nat;
  total_actors : nat;
  average_runtime : number;
  average_imdb_score : number;
  stats_rating_distribution : dict nat;
  year_range_min : option Z;
  year_range_max : option Z
}.

(** The nearest integer to [a / b] for [b > 0], ties to even. *)
Definition round_half_even (a b : Z) : Z :=
  let q := a / b in
  let r := a mod b in
  if 2 * r <? b then q
  else if b <? 2 * r then q + 1
  else if Z.even q then q else q + 1.

(** [round(x, 2)]: the decimal with two places nearest to the exact value
    of [x], ties to even, read back as a float. *)
Definition round2 (x : spec_float) : spec_float :=
  match x with
  | S754_finite s m e =>
      let n := if 0 <=? e then 100 * Zpos m * 2 ^ e
               else round_half_even (100 * Zpos m) (2 ^ (- e)) in
      let r := decimal_to_float n 2 in
      if s then SFopp r else r
  | _ => x
  end.

(** [x if x else 0] followed by the rounding of [get_all_stats]. *)
Definition rounded_or_zero (x : option spec_float) : number :=
  match x with
  | None => PyInt 0
  | Some (S754_zero _) => PyInt 0
  | Some v => PyFloat (round2 v)
  end.

(** [SELECT rating, COUNT( * ) FROM movies GROUP BY rating], groups in the
    order their first row is met. *)
Fixpoint group_count (ratings : list text) (acc : dict nat) : dict nat :=
  match ratings with
  | [] => acc
  | r :: rest => group_count rest (dict_set r (S (default 0%nat (dict_get r acc))) acc)
  end.

Definition minimum (l : list Z) : option Z :=
  match l with
  | [] => None
  | x :: l' => Some (fold_left Z.min l' x)
  end.

Definition maximum (l : list Z) : option Z :=
  match l with
  | [] => None
  | x :: l' => Some (fold_left Z.max l' x)
  end.

Section Queries.
Context `{SqlEngine}.

Definition get_longest_running_movie (db : database) : option longest_running_movie :=
  match limit 1 (order_by (desc Z.leb (fun r => runtime (columns r)))
                          (movies_with_actor_count db)) with
  | [] => None
  | result :: _ =>
      Some {| longest_title := title (columns result);
              longest_runtime := runtime (columns result);
              longest_year := year (columns result);
              longest_director := director (columns result);
              longest_imdb_score := imdb_score (columns result);
              longest_actor_count := actor_count result;
              longest_full_details := result |}
  end.

(** [SELECT id, imdb_id, name FROM actors WHERE movie_id = ? ORDER BY name] *)
Definition actors_by_name (db : database) (mid : Z) : list actor_row :=
  order_by (asc text_leb actor_name) (map actor_row_of (actors_of db mid)).

Definition get_movie_with_most_actors (db : database) : option movie_with_most_actors :=
  match limit 1 (order_by (desc Nat.leb actor_count) (movies_with_actor_count db)) with
  | [] => None
  | result :: _ =>
      let actors := actors_by_name db (id result) in
      Some {| most_title := title (columns result);
              most_actor_count := actor_count result;
              most_year := year (columns result);
              most_director := director (columns result);
              most_imdb_score := imdb_score (columns result);
              most_actors := actors;
              most_full_details := result |}
  end.

Definition get_top_movies_by_rating_breakdown (db : database) (top_n : Z)
  : outcome (option rating_breakdown_result) :=
  n ← bind_int top_n;
  let top_movies :=
    limit n (order_by (desc float_leb (fun r => imdb_score (columns r)))
                      (movies_with_actor_count db)) in
  match top_movies with
  | [] => Ok None
  | _ :: _ =>
      let '(rating_breakdown, rating_distribution) :=
        fold_left breakdown_step top_movies ([], []) in
      Ok (Some {| total_movies_in_top := length top_movies;
                  rating_categories := rating_breakdown;
                  rating_distribution := rating_distribution |})
  end.

Definition get_all_stats (db : database) : stats :=
  let rows := map snd (map_to_list (movies db)) in
  let total_movies := length rows in
  let total_actors := length (map_to_list (actors db)) in
  let avg_runtime := avg_integer (map runtime rows) in
  let avg_score := avg_real (map imdb_score rows) in
  let rating_dist := order_by (asc text_leb fst) (group_count (map rating rows) []) in
  {| total_movies := total_movies;
     total_actors := total_actors;
     average_runtime := rounded_or_zero avg_runtime;
     average_imdb_score := rounded_or_zero avg_score;
     stats_rating_distribution := rating_dist;
     year_range_min := minimum (map year rows);
     year_range_max := maximum (map year rows) |}.

Definition query_movies_by_director (db : database) (director_name : text)
  : outcome (list movie_row) :=
  let pattern := T "%" ++ director_name ++ T "%" in
  let rows := movies_with_actor_count db in
  if (max_like_pattern_length <? utf8_length pattern) && (0 <? length rows)%nat
  then Raise OperationalError
  else Ok (order_by (desc float_leb (fun r => imdb_score (columns r)))
             (List.filter (fun r => like pattern (director (columns r))) rows)).

Definition query_movies_by_rating (db : database) (rating_name : text) : list movie_row :=
  order_by (desc float_leb (fun r => imdb_score (columns r)))
    (List.filter (fun r => bool_decide (rating (columns r) = rating_name))
                 (movies_with_actor_count db)).
End Queries.

(** The rows [get_top_movies_by_rating_breakdown] fetches. *)
Definition top_rows `{SqlEngine} (db : database) (n : Z) : list movie_row :=
  limit n (order_by (desc float_leb (fun r => imdb_score (columns r)))
                    (movies_with_actor_count db)).

(** ** A reference engine

    One engine that meets the interface: a merge sort for ORDER BY, and the
    running sum divided by the count for AVG. *)

Definition sort_rows {A : Type} (le : A -> A -> bool) (rows : list A) : list A :=
  @merge_sort A (fun x y => le x y = true) (fun x y => decide (le x y = true)) rows.

Definition float_of_Z (z : Z) : spec_float := binary_normalize prec emax z 0 false.

Definition sum_div_count (l : list spec_float) : option spec_float :=
  match l with
  | [] => None
  | _ :: _ =>
      Some (SFdiv prec emax (fold_left (SFadd prec emax) l (S754_zero false))
                            (float_of_Z (Z.of_nat (length l))))
  end.

(** ** Statements as they stand in the two SQL files *)

Definition newline : ascii := ascii_of_N 10.

(** One statement per line, each closed by a semicolon. *)
Definition sql_file (statements : list text) : text :=
  concat (map (fun st => st ++ T ";" ++ [newline]) statements).

(** The text of an actor statement, by the text of its four fields. *)
Record actor_statement := {
  st_actor_id : text;
  st_movie_id : text;
  st_actor_imdb_id : text;
  st_name : text
}.

Definition render_actor (st : actor_statement) : text :=
  actors_keyword ++ st_actor_id st ++ T "," ++ st_movie_id st ++ T ",'"
    ++ st_actor_imdb_id st ++ T "','" ++ st_name st ++ T "')".

Definition actor_groups (st : actor_statement) : list text :=
  [st_actor_id st; st_movie_id st; st_actor_imdb_id st; st_name st].

(** A number field: digits, at least one and no more than [int] reads,
    within SQLite's INTEGER. *)
Definition is_number (s : text) : bool :=
  forallb is_digit s && (1 <=? length s)%nat
  && (length s <=? int_max_str_digits)%nat
  && (value_of_digits s <=? 2 ^ 63 - 1).

(** A text field that the pattern takes whole: no quote inside. *)
Definition is_quoted (s : text) : bool := forallb not_quote s.

Definition is_quoted1 (s : text) : bool := forallb not_quote s && (1 <=? length s)%nat.

(** A score field: a decimal that [float] reads. *)
Definition is_score (s : text) : bool :=
  match float s with
  | Ok _ => true
  | Raise _ => false
  end.

Definition well_formed_actor (st : actor_statement) : bool :=
  is_number (st_actor_id st) && is_number (st_movie_id st)
  && is_quoted1 (st_actor_imdb_id st) && is_quoted1 (st_name st).

(** The row a well-formed actor statement stands for. *)
Definition actor_of (st : actor_statement) : Z * actor :=
  (value_of_digits (st_actor_id st),
   {| movie_id := value_of_digits (st_movie_id st);
      actor_imdb_id := st_actor_imdb_id st;
      name := st_name st |}).

(** The text of a movie statement, by the text of its thirteen fields and
    of the blanks the pattern allows before three of its commas. *)
Record movie_statement := {
  st_id : text;
  st_imdb_id : text;
  st_title : text;
  st_director : text;
  st_blank1 : text;
  st_year : text;
  st_rating : text;
  st_genres : text;
  st_blank2 : text;
  st_runtime : text;
  st_country : text;
  st_language : text;
  st_blank3 : text;
  st_imdb_score : text;
  st_imdb_votes : text;
  st_metacritic_score : text
}.

Definition render_movie (st : movie_statement) : text :=
  movies_keyword ++ st_id st ++ T ",'" ++ st_imdb_id st ++ T "','" ++ st_title st
    ++ T "','" ++ st_director st ++ T "'" ++ st_blank1 st ++ T "," ++ st_year st
    ++ T ",'" ++ st_rating st ++ T "','" ++ st_genres st ++ T "'" ++ st_blank2 st
    ++ T "," ++ st_runtime st ++ T ",'" ++ st_country st ++ T "','" ++ st_language st
    ++ T "'" ++ st_blank3 st ++ T "," ++ st_imdb_score st ++ T "," ++ st_imdb_votes st
    ++ T "," ++ st_metacritic_score st ++ T ")".

Definition movie_groups (st : movie_statement) : list text :=
  [st_id st; st_imdb_id st; st_title st; st_director st; st_year st; st_rating st;
   st_genres st; st_runtime st; st_country st; st_language st; st_imdb_score st;
   st_imdb_votes st; st_metacritic_score st].

Definition well_formed_movie (st : movie_statement) : bool :=
  is_number (st_id st) && is_quoted1 (st_imdb_id st) && is_quoted (st_title st)
  && is_quoted (st_director st) && forallb is_space (st_blank1 st)
  && is_number (st_year st) && is_quoted (st_rating st) && is_quoted (st_genres st)
  && forallb is_space (st_blank2 st) && is_number (st_runtime st)
  && is_quoted (st_country st) && is_quoted (st_language st)
  && forallb is_space (st_blank3 st) && is_score (st_imdb_score st)
  && is_number (st_imdb_votes st) && is_score (st_metacritic_score st).

Definition float_value (s : text) : spec_float :=
  match float s with
  | Ok x => x
  | Raise _ => S754_nan
  end.

(** The row a well-formed movie statement stands for. *)
Definition movie_of (st : movie_statement) : Z * movie :=
  (value_of_digits (st_id st),
   {| imdb_id := st_imdb_id st; title := st_title st; director := st_director st;
      year := value_of_digits (st_year st); rating := st_rating st; genres := st_genres st;
      runtime := value_of_digits (st_runtime st); country := st_country st;
      language := st_language st; imdb_score := float_value (st_imdb_score st);
      imdb_votes := value_of_digits (st_imdb_votes st);
      metacritic_score := float_value (st_metacritic_score st) |}).

Definition movie_key (st : movie_statement) : Z := value_of_digits (st_id st).

Definition actor_key (st : actor_statement) : Z := value_of_digits (st_actor_id st).

(** ** The report of [main] *)

(** A value that an f-string interpolates. *)
Inductive value :=
  | VText (t : text)
  | VInt (z : Z)
  | VFloat (x : spec_float)
  | VNone.

(** One call of [print]: the line, with [{}] where a value is interpolated,
    and the values. *)
Inductive line := Print (format : string) (values : list value).

(** What leaves [main]: an exception of the constructor or of a query, or
    the KeyError of a subscript on a dict without that key. *)
Inductive main_exn :=
  | Propagated (e : exn)
  | KeyError (key : string).

(** ["=" * 80] and ["-" * 80] *)
Definition rule (c : ascii) : string := string_of_list_ascii (repeat c 80).

Definition opening : list line :=
  [Print (String newline (rule "=")) [];
   Print "MOVIE DATABASE UTILITY - QUERY RESULTS" [];
   Print (rule "=") []].

Definition heading (title : string) : list line :=
  [Print (String newline title) []; Print (rule "-") []].

Definition report_longest (longest : longest_running_movie) : list line :=
  [Print "   Title: {}" [VText (longest_title longest)];
   Print "   Runtime: {} minutes" [VInt (longest_runtime longest)];
   Print "   Year: {}" [VInt (longest_year longest)];
   Print "   Director: {}" [VText (longest_director longest)];
   Print "   IMDB Score: {}" [VFloat (longest_imdb_score longest)];
   Print "   Number of Actors: {}" [VInt (Z.of_nat (longest_actor_count longest))]].

(** [for i, actor in enumerate(most_actors['actors'][:10], 1)] *)
Definition actor_lines (rows : list actor_row) : list line :=
  imap (fun i a => Print "   {}. {}" [VInt (Z.of_nat (S i)); VText (actor_name a)])
       (take 10 rows).

Definition report_most_actors (most : movie_with_most_actors) : list line :=
  [Print "   Title: {}" [VText (most_title most)];
   Print "   Number of Actors: {}" [VInt (Z.of_nat (most_actor_count most))];
   Print "   Year: {}" [VInt (most_year most)];
   Print "   Director: {}" [VText (most_director most)];
   Print "   IMDB Score: {}" [VFloat (most_imdb_score most)];
   Print (String newline "   Top 10 Actors:") []]
  ++ actor_lines (most_actors most).

Definition summary_line (m : movie_summary) : line :=
  Print "      • {} ({}) - Score: {}, Actors: {}"
    [VText (summary_title m); VInt (summary_year m); VFloat (summary_imdb_score m);
     VInt (Z.of_nat (summary_actors_count m))].

Definition report_breakdown (breakdown : rating_breakdown_result) : list line :=
  [Print (String newline "   Total Movies in Top 10: {}")
     [VInt (Z.of_nat (total_movies_in_top breakdown))];
   Print (String newline "   Rating Distribution:") []]
  ++ map (fun item => Print "   - {}: {} movie(s)" [VText (fst item); VInt (snd item)])
         (rating_distribution breakdown)
  ++ [Print (String newline "   Movies by Rating Category:") []]
  ++ concat (map (fun item => Print (String newline "   {}:") [VText (fst item)]
                              :: map summary_line (snd item))
                 (rating_categories breakdown)).

Definition value_of_number (x : number) : value :=
  match x with
  | PyInt z => VInt z
  | PyFloat v => VFloat v
  end.

Definition value_of_year (y : option Z) : value :=
  match y with
  | Some z => VInt z
  | None => VNone
  end.

(** [sorted(d.items())]: by key, the keys of a dict being distinct. *)
Definition sorted_items {V} (d : dict V) : dict V := sort_rows (asc text_leb fst) d.

Definition report_stats (st : stats) : list line :=
  [Print "   Total Movies: {}" [VInt (Z.of_nat (total_movies st))];
   Print "   Total Actors: {}" [VInt (Z.of_nat (total_actors st))];
   Print "   Average Runtime: {} minutes" [value_of_number (average_runtime st)];
   Print "   Average IMDB Score: {}" [value_of_number (average_imdb_score st)];
   Print "   Year Range: {} - {}"
     [value_of_year (year_range_min st); value_of_year (year_range_max st)];
   Print (String newline "   Rating Distribution:") []]
  ++ map (fun item => Print "   - {}: {} movie(s)"
                        [VText (fst item); VInt (Z.of_nat (snd item))])
         (sorted_items (stats_rating_distribution st)).

Definition closing : list line :=
  [Print (String newline (rule "=")) [];
   Print "SQLite Database created: database_raw_file" [];
   Print (rule "=") []].

(** [main()], on the directory it names: the exception that leaves it if
    one does, the directory afterwards, and the lines it has printed itself
    (after those of the constructor). *)
Definition main `{SqlEngine} (w : world) : option main_exn * world * list line :=
  match __init__ w with
  | (Raise e, w') => (Some (Propagated e), w', [])
  | (Ok _, w') =>
      let db := db_file w' in
      let out := opening ++ heading "1. LONGEST-RUNNING MOVIE:" in
      match get_longest_running_movie db with
      | None => (Some (KeyError "title"), w', out)
      | Some longest =>
          let out := out ++ report_longest longest
                         ++ heading "2. MOVIE WITH THE MOST ACTORS:" in
          match get_movie_with_most_actors db with
          | None => (Some (KeyError "title"), w', out)
          | Some most =>
              let out := out ++ report_most_actors most
                             ++ heading "3. TOP 10 MOVIES BY RATING - BREAKDOWN:" in
              match get_top_movies_by_rating_breakdown db 10 with
              | Raise e => (Some (Propagated e), w', out)
              | Ok None => (Some (KeyError "total_movies_in_top"), w', out)
              | Ok (Some breakdown) =>
                  (None, w',
                   out ++ report_breakdown breakdown
                       ++ heading "4. DATABASE STATISTICS:"
                       ++ report_stats (get_all_stats db)
                       ++ closing)
              end
          end
      end
  end.

(** ** Statements the patterns do not take *)

Definition is_digits (s : text) : bool := forallb is_digit s && (1 <=? length s)%nat.

(** [field] has a quote, and the character after its first quote is not one
    that [next] accepts (at the end of the field that character is the
    closing quote). *)
Fixpoint breaks (next : ascii -> bool) (field : text) : bool :=
  match field with
  | [] => false
  | c :: rest =>
      if Ascii.eqb c "'"
      then match rest with
           | [] => true
           | d :: _ => negb (next d)
           end
      else breaks next rest
  end.

Definition is_comma (c : ascii) : bool := Ascii.eqb c ",".

Definition is_close (c : ascii) : bool := Ascii.eqb c ")".

Definition is_space_or_comma (c : ascii) : bool := is_space c || Ascii.eqb c ",".

Definition is_empty (s : text) : bool :=
  match s with
  | [] => true
  | _ :: _ => false
  end.

(** An actor statement whose first offending field is an [imdb_id] or a
    [name] that is empty or breaks at a quote. *)
Definition malformed_actor (st : actor_statement) : bool :=
  is_digits (st_actor_id st) && is_digits (st_movie_id st)
  && (is_empty (st_actor_imdb_id st) || breaks is_comma (st_actor_imdb_id st)
      || (is_quoted1 (st_actor_imdb_id st)
          && (is_empty (st_name st) || breaks is_close (st_name st)))).

(** This field is the offending one, or it is fine and a later one is. *)
Definition or_later (bad good later : bool) : bool := bad || (good && later).

(** A movie statement whose first offending field is a text field that
    breaks at a quote. *)
Definition malformed_movie (st : movie_statement) : bool :=
  is_digits (st_id st)
  && or_later (breaks is_comma (st_imdb_id st)) (is_quoted1 (st_imdb_id st))
    (or_later (breaks is_comma (st_title st)) (is_quoted (st_title st))
    (or_later (breaks is_space_or_comma (st_director st))
       (is_quoted (st_director st) && forallb is_space (st_blank1 st)
        && is_digits (st_year st))
    (or_later (breaks is_comma (st_rating st)) (is_quoted (st_rating st))
    (or_later (breaks is_space_or_comma (st_genres st))
       (is_quoted (st_genres st) && forallb is_space (st_blank2 st)
        && is_digits (st_runtime st))
    (or_later (breaks is_comma (st_country st)) (is_quoted (st_country st))
       (breaks is_space_or_comma (st_language st))))))).

Definition starts_with (kw s : text) : bool :=
  match strip_prefix kw s with
  | Some _ => true
  | None => false
  end.

(** [kw] opens no text inside [s] other than [s] itself. *)
Definition keyword_only_at_start (kw s : text) : bool :=
  forallb (fun i => negb (starts_with kw (drop i s))) (seq 1 (length s - 1)).

(** An actor statement whose name holds a quote followed by a bracket. *)
Definition cut_short_actor : actor_statement :=
  {| st_actor_id := T "1"; st_movie_id := T "2";
     st_actor_imdb_id := T "nm0000001"; st_name := T "a')b" |}.

(** Every stored actor names a stored movie. *)
Definition referential_integrity (db : database) : Prop :=
  forall i a, actors db !! i = Some a -> is_Some (movies db !! movie_id a).

(** A directory whose one actor statement names a movie that no movie
    statement declares. *)
Definition orphan_actor_world : world :=
  {| actors_sql := Some (T "INSERT INTO actors VALUES(1,99,'nm0000001','Ann Lee');");
     movies_sql := Some (T "INSERT INTO movies VALUES(7,'tt0000007','Heat','Michael Mann',1995,'R','Crime',170,'USA','English',8.3,700000,76.0);");
     db_file := empty_database;
     stdout := [] |}.

(** The rows of [l] whose rating is [r]. *)
Definition rows_rated (r : text) (l : list movie_row) : list movie_row :=
  List.filter (fun row => bool_decide (rating (columns row) = r)) l.

(** [hay] contains [needle]. *)
Definition contains (needle hay : text) : Prop :=
  exists pre post, hay = pre ++ needle ++ post.

(** [hay] contains [needle] up to the case of ASCII letters. *)
Definition contains_nocase (needle hay : text) : Prop :=
  exists pre mid post, hay = pre ++ mid ++ post /\ map lower mid = map lower needle.

(** Neither of LIKE's two wildcards occurs in [s], nor a NUL character. *)
Definition plain (s : text) : bool :=
  forallb (fun c => negb (Ascii.eqb c "%") && negb (Ascii.eqb c "_")
                    && negb (Ascii.eqb c nul)) s.

Definition sample_movie (director_name rating_name : string) (minutes : Z) (score : string)
  : movie :=
  {| imdb_id := T "tt0000000"; title := T "Untitled"; director := T director_name;
     year := 2000; rating := T rating_name; genres := T "Drama"; runtime := minutes;
     country := T "USA"; language := T "English"; imdb_score := float_value (T score);
     imdb_votes := 1000; metacritic_score := float_value (T "50.0") |}.

(** One movie, directed by Christopher Nolan. *)
Definition nolan_database : database :=
  {| movies := {[ 1 := sample_movie "Christopher Nolan" "PG-13" 148 "8.8" ]};
     actors := ∅ |}.

(** ** Sample data *)

(** Three movies that run 90, 200 and 45 minutes. *)
Definition runtimes_database : database :=
  {| movies := list_to_map
       [(1, sample_movie "Ann Hui" "PG" 90 "7.0");
        (2, sample_movie "Bela Tarr" "R" 200 "8.0");
        (3, sample_movie "Carl Dreyer" "G" 45 "6.5")];
     actors := ∅ |}.

(** A movie without actors and a movie with three. *)
Definition cast_database : database :=
  {| movies := list_to_map
       [(1, sample_movie "Ann Hui" "PG" 90 "7.0");
        (2, sample_movie "Bela Tarr" "R" 200 "8.0")];
     actors := list_to_map
       [(10, {| movie_id := 2; actor_imdb_id := T "nm0000010"; name := T "Carol" |});
        (11, {| movie_id := 2; actor_imdb_id := T "nm0000011"; name := T "Alice" |});
        (12, {| movie_id := 2; actor_imdb_id := T "nm0000012"; name := T "Bob" |})] |}.

(** One movie with the two actors alice and Zed. *)
Definition mixed_case_database : database :=
  {| movies := {[ 1 := sample_movie "Ann Hui" "PG" 90 "7.0" ]};
     actors := list_to_map
       [(10, {| movie_id := 1; actor_imdb_id := T "nm0000010"; name := T "alice" |});
        (11, {| movie_id := 1; actor_imdb_id := T "nm0000011"; name := T "Zed" |})] |}.

(** Three movies with scores 9.0, 8.5, 8.5 and ratings PG, PG, R. *)
Definition scores_database : database :=
  {| movies := list_to_map
       [(1, sample_movie "Ann Hui" "PG" 90 "9.0");
        (2, sample_movie "Bela Tarr" "PG" 200 "8.5");
        (3, sample_movie "Carl Dreyer" "R" 45 "8.5")];
     actors := ∅ |}.

Definition heat : movie_statement :=
  {| st_id := T "7"; st_imdb_id := T "tt0113277"; st_title := T "Heat";
     st_director := T "Michael Mann"; st_blank1 := []; st_year := T "1995";
     st_rating := T "R"; st_genres := T "Crime, Drama"; st_blank2 := [];
     st_runtime := T "170"; st_country := T "USA"; st_language := T "English";
     st_blank3 := []; st_imdb_score := T "8.3"; st_imdb_votes := T "700000";
     st_metacritic_score := T "76.0" |}.

(** Another statement with the identifier of [heat]. *)
Definition heat_again : movie_statement :=
  {| st_id := T "07"; st_imdb_id := T "tt9999999"; st_title := T "Heat 2";
     st_director := T "Nobody"; st_blank1 := T " "; st_year := T "2030";
     st_rating := T "R"; st_genres := T ""; st_blank2 := [];
     st_runtime := T "120"; st_country := T "USA"; st_language := T "English";
     st_blank3 := []; st_imdb_score := T "5."; st_imdb_votes := T "3";
     st_metacritic_score := T ".5" |}.

Definition alien : movie_statement :=
  {| st_id := T "8"; st_imdb_id := T "tt0078748"; st_title := T "Alien";
     st_director := T "Ridley Scott"; st_blank1 := []; st_year := T "1979";
     st_rating := T "R"; st_genres := T "Horror, Sci-Fi"; st_blank2 := [];
     st_runtime := T "117"; st_country := T "UK"; st_language := T "English";
     st_blank3 := []; st_imdb_score := T "8.5"; st_imdb_votes := T "900000";
     st_metacritic_score := T "89.0" |}.

(** A title with a quote in it. *)
Definition oceans_eleven : movie_statement :=
  {| st_id := T "9"; st_imdb_id := T "tt0240772"; st_title := T "Ocean's Eleven";
     st_director := T "Steven Soderbergh"; st_blank1 := []; st_year := T "2001";
     st_rating := T "PG-13"; st_genres := T "Crime"; st_blank2 := [];
     st_runtime := T "116"; st_country := T "USA"; st_language := T "English";
     st_blank3 := []; st_imdb_score := T "7.7"; st_imdb_votes := T "600000";
     st_metacritic_score := T "74.0" |}.

Definition pacino : actor_statement :=
  {| st_actor_id := T "1"; st_movie_id := T "7";
     st_actor_imdb_id := T "nm0000199"; st_name := T "Al Pacino" |}.

Definition weaver : actor_statement :=
  {| st_actor_id := T "2"; st_movie_id := T "8";
     st_actor_imdb_id := T "nm0000244"; st_name := T "Sigourney Weaver" |}.

(** A name with a quote in it. *)
Definition obrien : actor_statement :=
  {| st_actor_id := T "3"; st_movie_id := T "7";
     st_actor_imdb_id := T "nm0639529"; st_name := T "Pat O'Brien" |}.

Definition two_movies_world : world :=
  {| actors_sql := Some (sql_file (map render_actor [pacino; weaver]));
     movies_sql := Some (sql_file (map render_movie [heat; alien]));
     db_file := nolan_database;
     stdout := [] |}.

(** A directory without actors.sql, next to a storage file of an earlier
    run. *)
Definition no_actors_world : world :=
  {| actors_sql := None;
     movies_sql := Some (sql_file (map render_movie [heat; alien]));
     db_file := nolan_database;
     stdout := [] |}.



(** An actor whose identifier is 7 written with 4301 digits. *)
Definition zero_padded_actor : actor_statement :=
  {| st_actor_id := repeat "0"%char 4300 ++ T "7"; st_movie_id := T "7";
     st_actor_imdb_id := T "nm0000134"; st_name := T "Robert De Niro" |}.

(** movies.sql names the identifier 7 twice. *)
Definition repeated_world : world :=
  {| actors_sql := Some (sql_file (map render_actor [pacino; weaver]));
     movies_sql := Some (sql_file (map render_movie [heat; heat_again; alien]));
     db_file := nolan_database;
     stdout := [] |}.



(** Both source files are there and hold nothing. *)
Definition empty_files_world : world :=
  {| actors_sql := Some []; movies_sql := Some [];
     db_file := nolan_database; stdout := [] |}.

(** The movies of [heat] and [alien], of 1995 and 1979. *)
Definition heat_alien_database : database :=
  {| movies := list_to_map (map movie_of [heat; alien]); actors := ∅ |}.

(** ** The shape of a matched statement *)

(** A score field as the pattern takes it: digits and points, at least one
    character. *)
Definition is_decimal (s : text) : bool := forallb is_num_dot s && (1 <=? length s)%nat.

(** The fields of an actor statement are of the classes of the pattern. *)
Definition syntactic_actor (st : actor_statement) : bool :=
  is_digits (st_actor_id st) && is_digits (st_movie_id st)
  && is_quoted1 (st_actor_imdb_id st) && is_quoted1 (st_name st).

(** The fields and blanks of a movie statement are of the classes of the
    pattern. *)
Definition syntactic_movie (st : movie_statement) : bool :=
  is_digits (st_id st) && is_quoted1 (st_imdb_id st) && is_quoted (st_title st)
  && is_quoted (st_director st) && forallb is_space (st_blank1 st)
  && is_digits (st_year st) && is_quoted (st_rating st) && is_quoted (st_genres st)
  && forallb is_space (st_blank2 st) && is_digits (st_runtime st)
  && is_quoted (st_country st) && is_quoted (st_language st)
  && forallb is_space (st_blank3 st) && is_decimal (st_imdb_score st)
  && is_digits (st_imdb_votes st) && is_decimal (st_metacritic_score st).

(** ** What the loader prints and stores *)

Definition is_movie_warning (e : event) : Prop :=
  exists i, e = MovieWarning i (UniqueConstraintFailed "movies.id").

Definition is_actor_warning (e : event) : Prop :=
  exists actor_id, e = ActorWarning actor_id (UniqueConstraintFailed "actors.id").

(** An actor row with a catalog id and a name, neither holding a quote. *)
Definition clean_actor (a : actor) : bool :=
  is_quoted1 (actor_imdb_id a) && is_quoted1 (name a).

(** A movie row with a catalog id and without a quote in any text column. *)
Definition clean_movie (m : movie) : bool :=
  is_quoted1 (imdb_id m) && is_quoted (title m) && is_quoted (director m)
  && is_quoted (rating m) && is_quoted (genres m) && is_quoted (country m)
  && is_quoted (language m).

(** ** Notions the properties are stated with *)

(** [r] does not go on with a character of the class. *)
Definition starts_outside (cls : ascii -> bool) (r : text) : Prop :=
  match r with
  | [] => True
  | c :: _ => cls c = false
  end.

Definition starts_inside (cls : ascii -> bool) (r : text) : Prop :=
  match r with
  | [] => False
  | c :: _ => cls c = true
  end.

(** [p] matches no text that starts with a character of the class. *)
Definition rejects (cls : ascii -> bool) (p : regex) : Prop :=
  forall s, starts_inside cls s -> match_here p s = None.

Definition with_group (w : text) (m : option (list text * text)) : option (list text * text) :=
  match m with
  | Some (gs, r) => Some (w :: gs, r)
  | None => None
  end.

(** No match starts in [u] when [u ++ v] is scanned. *)
Definition no_match_inside (p : regex) (u v : text) : Prop :=
  forall i, (i < length u)%nat -> match_here p (drop i u ++ v) = None.

Definition leb_total {K} (leb : K -> K -> bool) : Prop :=
  forall x y, leb x y = true \/ leb y x = true.

Definition leb_transitive {K} (leb : K -> K -> bool) : Prop :=
  forall x y z, leb x y = true -> leb y z = true -> leb x z = true.

(** What the two dictionaries hold once the loop has passed over [l]. *)
Definition breakdown_of (l : list movie_row)
    (acc : dict (list movie_summary) * dict Z) : Prop :=
  forall r,
    dict_get r (fst acc) =
      match rows_rated r l with
      | [] => None
      | _ :: _ => Some (map summary_of (rows_rated r l))
      end
    /\ dict_get r (snd acc) =
      match rows_rated r l with
      | [] => None
      | _ :: _ => Some (Z.of_nat (length (rows_rated r l)))
      end.

(** The stored actors whose [movie_id] is [mid]. *)
Definition cast_of (db : database) (mid : Z) : gmap Z actor :=
  filter (fun ja => movie_id (snd ja) = mid) (actors db).

(** The order of a dictionary: that of the texts with their ASCII letters
    in lower case. *)
Definition alphabetical_leb (x y : text) : bool :=
  text_leb (map lower x) (map lower y).

(** The number of stored movies whose rating is [r]. *)
Definition rated (r : text) (db : database) : nat :=
  length (List.filter (fun im => bool_decide (rating (snd im) = r))
                      (map_to_list (movies db))).

(** The number of stored actors that name a stored movie. *)
Definition cast_actors (db : database) : nat :=
  length (List.filter (fun ia => bool_decide (is_Some (movies db !! movie_id (snd ia))))
                      (map_to_list (actors db))).

(** The reference engine meets the interface. *)
Definition reference_engine : SqlEngine.
Proof.
  refine {| order_by := @sort_rows;
            avg_integer := fun l => sum_div_count (map float_of_Z l);
            avg_real := sum_div_count |}.
  - intros A le rows. apply merge_sort_Permutation.
  - intros A le rows Htotal Htrans.
    apply (@StronglySorted_merge_sort A (fun x y => le x y = true) _ Htrans Htotal).
  - reflexivity.
  - reflexivity.
  - intros x l. simpl. eauto.
  - intros x l. simpl. eauto.
Defined.

(** * Properties *)

(** ** The matcher on a run that the next literal closes *)

Lemma strip_prefix_app (l s : text) : strip_prefix l (l ++ s) = Some s.
Proof.
  induction l as [|a l IH]; simpl; [reflexivity|].
  rewrite Ascii.eqb_refl. exact IH.
Qed.

Lemma strip_prefix_Some (l s s' : text) : strip_prefix l s = Some s' -> s = l ++ s'.
Proof.
  revert s. induction l as [|a l IH]; intros s Hs; simpl in *.
  - congruence.
  - destruct s as [|b s]; [discriminate|].
    destruct (Ascii.eqb a b) eqn:E; [|discriminate].
    apply Ascii.eqb_eq in E. subst b. f_equal. auto.
Qed.

Lemma match_here_lit (l : text) (p : regex) (s : text) :
  match_here (Lit l :: p) (l ++ s) = match_here p s.
Proof. simpl. rewrite strip_prefix_app. reflexivity. Qed.

Lemma match_here_lit_mismatch (c x : ascii) (l : text) (p : regex) (s : text) :
  c <> x -> match_here (Lit (c :: l) :: p) (x :: s) = None.
Proof.
  intros Hne. simpl. destruct (Ascii.eqb c x) eqn:E; [|reflexivity].
  apply Ascii.eqb_eq in E. contradiction.
Qed.

Lemma match_here_lit_nil (c : ascii) (l : text) (p : regex) :
  match_here (Lit (c :: l) :: p) [] = None.
Proof. reflexivity. Qed.

Lemma rejects_lit (cls : ascii -> bool) (c : ascii) (l : text) (p : regex) :
  cls c = false -> rejects cls (Lit (c :: l) :: p).
Proof.
  intros Hc [|x s] Hs; [contradiction|]. simpl in Hs.
  apply match_here_lit_mismatch. intros ->. congruence.
Qed.

Lemma splits_run (cls : ascii -> bool) (w r : text) :
  forallb cls w = true -> starts_outside cls r ->
  exists l0, splits cls (w ++ r) = l0 ++ [(w, r)]
             /\ Forall (fun wr => starts_inside cls (snd wr)) l0
             /\ length l0 = length w.
Proof.
  induction w as [|c w IH]; intros Hw Hr.
  - exists []. split; [|split; [constructor|reflexivity]].
    destruct r as [|x r]; simpl; [reflexivity|].
    simpl in Hr. rewrite Hr. reflexivity.
  - simpl in Hw. apply andb_prop in Hw as [Hc Hw].
    destruct (IH Hw Hr) as (l0 & E & Hl0 & Hlen).
    exists (([], c :: w ++ r) :: map (fun wr => (c :: fst wr, snd wr)) l0).
    split; [|split].
    + simpl. rewrite Hc, E, map_app. reflexivity.
    + constructor; [exact Hc|].
      rewrite Forall_map. exact Hl0.
    + simpl. rewrite length_map, Hlen. reflexivity.
Qed.

Lemma first_match_none {A B} (f : A -> option B) (l : list A) :
  Forall (fun x => f x = None) l -> first_match f l = None.
Proof. induction 1 as [|x l Hx _ IH]; simpl; [reflexivity|]. rewrite Hx. exact IH. Qed.

Lemma first_match_last {A B} (f : A -> option B) (l : list A) (x : A) :
  Forall (fun x => f x = None) l -> first_match f (l ++ [x]) = f x.
Proof.
  induction 1 as [|y l Hy _ IH]; simpl.
  - destruct (f x); reflexivity.
  - rewrite Hy. exact IH.
Qed.

Lemma first_match_rev_last {A B} (f : A -> option B) (l : list A) (x : A) :
  Forall (fun x => f x = None) l -> first_match f (rev (l ++ [x])) = f x.
Proof.
  intros Hl. rewrite rev_app_distr. simpl.
  destruct (f x); [reflexivity|].
  apply first_match_none. apply Forall_rev. exact Hl.
Qed.

Lemma candidates_run {B} (cls : ascii -> bool) (q : quant)
    (f : text * text -> option B) (w r : text) :
  forallb cls w = true -> starts_outside cls r ->
  (forall w' r', starts_inside cls r' -> f (w', r') = None) ->
  first_match f (candidates cls q (w ++ r)) =
    match q, w with
    | Plus, [] => None
    | _, _ => f (w, r)
    end.
Proof.
  intros Hw Hr Hf.
  destruct (splits_run cls w r Hw Hr) as (l0 & E & Hl0 & Hlen).
  assert (Hnone : Forall (fun wr => f wr = None) l0).
  { eapply Forall_impl; [exact Hl0|]. intros [w' r'] Hin. apply Hf. exact Hin. }
  unfold candidates. rewrite E.
  destruct q.
  - destruct l0 as [|y l0]; destruct w as [|c w]; try discriminate Hlen.
    + reflexivity.
    + simpl tl. apply first_match_rev_last. inversion Hnone; assumption.
  - rewrite first_match_rev_last by exact Hnone. destruct w; reflexivity.
  - rewrite first_match_last by exact Hnone. destruct w; reflexivity.
Qed.

Lemma match_here_group (cls : ascii -> bool) (q : quant) (p : regex) (w r : text) :
  forallb cls w = true -> starts_outside cls r -> rejects cls p ->
  match_here (Group cls q :: p) (w ++ r) =
    match q, w with
    | Plus, [] => None
    | _, _ => match match_here p r with
              | Some (gs, r') => Some (w :: gs, r')
              | None => None
              end
    end.
Proof.
  intros Hw Hr Hp. cbn [match_here].
  rewrite (candidates_run cls q _ w r Hw Hr).
  - reflexivity.
  - intros w' r' Hin. cbn [fst snd]. rewrite (Hp r' Hin). reflexivity.
Qed.

Lemma match_here_rep (cls : ascii -> bool) (q : quant) (p : regex) (w r : text) :
  forallb cls w = true -> starts_outside cls r -> rejects cls p ->
  match_here (Rep cls q :: p) (w ++ r) =
    match q, w with
    | Plus, [] => None
    | _, _ => match_here p r
    end.
Proof.
  intros Hw Hr Hp. cbn [match_here].
  rewrite (candidates_run cls q _ w r Hw Hr).
  - reflexivity.
  - intros w' r' Hin. cbn [snd]. exact (Hp r' Hin).
Qed.

Lemma match_group_plus (cls : ascii -> bool) (p : regex) (w r : text) :
  forallb cls w = true -> (1 <=? length w)%nat = true ->
  starts_outside cls r -> rejects cls p ->
  match_here (Group cls Plus :: p) (w ++ r) = with_group w (match_here p r).
Proof.
  intros Hw Hlen Hr Hp. rewrite match_here_group by assumption.
  destruct w; [discriminate Hlen|reflexivity].
Qed.

Lemma match_group_lazy (cls : ascii -> bool) (p : regex) (w r : text) :
  forallb cls w = true -> starts_outside cls r -> rejects cls p ->
  match_here (Group cls StarLazy :: p) (w ++ r) = with_group w (match_here p r).
Proof. intros Hw Hr Hp. rewrite match_here_group by assumption. reflexivity. Qed.

Lemma match_rep_star (cls : ascii -> bool) (p : regex) (w r : text) :
  forallb cls w = true -> starts_outside cls r -> rejects cls p ->
  match_here (Rep cls Star :: p) (w ++ r) = match_here p r.
Proof. intros Hw Hr Hp. rewrite match_here_rep by assumption. reflexivity. Qed.

(** Breaks a conjunction of boolean tests into its parts. *)
Ltac split_andb :=
  repeat match goal with
         | H : _ && _ = true |- _ => apply andb_prop in H; destruct H
         end.

Ltac close_run :=
  first [ assumption
        | reflexivity
        | apply rejects_lit; reflexivity ].

(** One atom of the pattern against the head of the text. *)
Ltac step :=
  first [ rewrite match_here_lit
        | rewrite match_group_plus by close_run
        | rewrite match_group_lazy by close_run
        | rewrite match_rep_star by close_run ].

(** ** Well-formed statements are matched whole *)

Lemma match_actor (st : actor_statement) (rest : text) :
  well_formed_actor st = true ->
  match_here actors_pattern (render_actor st ++ rest) = Some (actor_groups st, rest).
Proof.
  intros Hwf. unfold well_formed_actor, is_number, is_quoted1 in Hwf. split_andb.
  unfold actors_pattern, render_actor. rewrite <- !app_assoc.
  repeat step. reflexivity.
Qed.

Lemma is_score_class (s : text) :
  is_score s = true -> forallb is_num_dot s = true /\ (1 <=? length s)%nat = true.
Proof.
  unfold is_score, float. intros Hs.
  destruct (forallb is_num_dot s) eqn:Hall; [|discriminate Hs].
  split; [reflexivity|].
  destruct s as [|c s]; [|reflexivity].
  discriminate Hs.
Qed.

Lemma match_movie (st : movie_statement) (rest : text) :
  well_formed_movie st = true ->
  match_here movies_pattern (render_movie st ++ rest) = Some (movie_groups st, rest).
Proof.
  intros Hwf.
  unfold well_formed_movie, is_number, is_quoted1, is_quoted in Hwf. split_andb.
  repeat match goal with
         | H : is_score _ = true |- _ => apply is_score_class in H; destruct H
         end.
  unfold movies_pattern, render_movie. rewrite <- !app_assoc.
  repeat step. reflexivity.
Qed.

(** ** [finditer] over a file of statements *)

Lemma finditer_from_cons (p : regex) (c : ascii) (s : text) :
  finditer_from p 0 (c :: s) =
    match match_here p (c :: s) with
    | Some (gs, r) => gs :: finditer_from p (length (c :: s) - length r - 1)%nat s
    | None => finditer_from p 0 s
    end.
Proof. reflexivity. Qed.

Lemma finditer_from_skip (p : regex) (u v : text) :
  finditer_from p (length u) (u ++ v) = finditer_from p 0 v.
Proof. induction u as [|c u IH]; [reflexivity|exact IH]. Qed.

Lemma finditer_match (p : regex) (u v : text) (gs : list text) :
  u <> [] -> match_here p (u ++ v) = Some (gs, v) ->
  finditer_from p 0 (u ++ v) = gs :: finditer_from p 0 v.
Proof.
  intros Hu Hm. destruct u as [|c u]; [contradiction|].
  change ((c :: u) ++ v) with (c :: (u ++ v)) in *.
  rewrite finditer_from_cons, Hm. f_equal.
  replace (length (c :: u ++ v) - length v - 1)%nat with (length u).
  - apply finditer_from_skip.
  - simpl. rewrite length_app. lia.
Qed.

Lemma finditer_no_match (p : regex) (c : ascii) (s : text) :
  match_here p (c :: s) = None -> finditer_from p 0 (c :: s) = finditer_from p 0 s.
Proof. intros Hm. rewrite finditer_from_cons, Hm. reflexivity. Qed.

Lemma finditer_pass (p : regex) (u v : text) :
  no_match_inside p u v -> finditer_from p 0 (u ++ v) = finditer_from p 0 v.
Proof.
  induction u as [|c u IH]; intros Hu; [reflexivity|].
  change ((c :: u) ++ v) with (c :: (u ++ v)).
  rewrite finditer_no_match.
  - apply IH. intros i Hi. apply (Hu (S i)). simpl. lia.
  - apply (Hu 0%nat). simpl. lia.
Qed.

Section Lines.
Context {S : Type} (p : regex) (k : ascii) (kw : text) (p' : regex).
Context (render : S -> text) (groups : S -> list text) (well_formed : S -> bool).
Hypothesis pattern_head : p = Lit (k :: kw) :: p'.
Hypothesis head_not_semicolon : k <> ";"%char.
Hypothesis head_not_newline : k <> newline.
Hypothesis render_not_empty : forall st, render st <> [].
Hypothesis match_line :
  forall st rest, well_formed st = true ->
    match_here p (render st ++ rest) = Some (groups st, rest).

Lemma finditer_end_of_line (rest : text) :
  finditer_from p 0 (T ";" ++ [newline] ++ rest) = finditer_from p 0 rest.
Proof.
  cbn [T list_ascii_of_string app].
  rewrite !finditer_no_match; [reflexivity| |];
    rewrite pattern_head; apply match_here_lit_mismatch; assumption.
Qed.

Lemma finditer_lines (sts : list S) (rest : text) :
  Forall (fun st => well_formed st = true) sts ->
  finditer_from p 0 (sql_file (map render sts) ++ rest) =
    map groups sts ++ finditer_from p 0 rest.
Proof.
  induction 1 as [|st sts Hst _ IH]; [reflexivity|].
  unfold sql_file in *. cbn [map concat].
  rewrite <- !app_assoc.
  rewrite finditer_match with (gs := groups st).
  - rewrite finditer_end_of_line, IH. reflexivity.
  - apply render_not_empty.
  - apply match_line. exact Hst.
Qed.
End Lines.

Lemma render_actor_not_empty (st : actor_statement) : render_actor st <> [].
Proof. discriminate. Qed.

Lemma render_movie_not_empty (st : movie_statement) : render_movie st <> [].
Proof. discriminate. Qed.

Lemma finditer_actors (sts : list actor_statement) (rest : text) :
  Forall (fun st => well_formed_actor st = true) sts ->
  finditer_from actors_pattern 0 (sql_file (map render_actor sts) ++ rest) =
    map actor_groups sts ++ finditer_from actors_pattern 0 rest.
Proof.
  eapply finditer_lines with (k := "I"%char);
    [reflexivity|discriminate|discriminate|apply render_actor_not_empty|apply match_actor].
Qed.

Lemma finditer_movies (sts : list movie_statement) (rest : text) :
  Forall (fun st => well_formed_movie st = true) sts ->
  finditer_from movies_pattern 0 (sql_file (map render_movie sts) ++ rest) =
    map movie_groups sts ++ finditer_from movies_pattern 0 rest.
Proof.
  eapply finditer_lines with (k := "I"%char);
    [reflexivity|discriminate|discriminate|apply render_movie_not_empty|apply match_movie].
Qed.

(** ** The loader on well-formed statements *)

Lemma int_fold_nonneg (s : text) (acc : Z) :
  forallb is_digit s = true -> 0 <= acc ->
  0 <= fold_left (fun acc c => 10 * acc + digit_value c) s acc.
Proof.
  revert acc. induction s as [|c s IH]; intros acc Hs Hacc; simpl in *; [exact Hacc|].
  apply andb_prop in Hs as [Hc Hs]. apply IH; [exact Hs|].
  unfold is_digit in Hc. apply andb_prop in Hc as [Hlo _].
  unfold digit_value. lia.
Qed.

Lemma int_nonneg (s : text) : forallb is_digit s = true -> 0 <= value_of_digits s.
Proof. intros Hs. apply int_fold_nonneg; [exact Hs|lia]. Qed.

Lemma int_number (s : text) : is_number s = true -> int s = Ok (value_of_digits s).
Proof.
  unfold is_number. intros Hs. split_andb.
  unfold int.
  replace (length s <=? int_max_str_digits)%nat with true by (symmetry; assumption).
  reflexivity.
Qed.

Lemma bind_int_number (s : text) :
  is_number s = true -> bind_int (value_of_digits s) = Ok (value_of_digits s).
Proof.
  unfold is_number. intros Hs. split_andb.
  unfold bind_int.
  pose proof (int_nonneg s ltac:(assumption)).
  replace (- 2 ^ 63 <=? value_of_digits s) with true by (symmetry; apply Z.leb_le; lia).
  replace (value_of_digits s <=? 2 ^ 63 - 1) with true by (symmetry; assumption).
  reflexivity.
Qed.

Lemma float_score (s : text) : is_score s = true -> float s = Ok (float_value s).
Proof. unfold is_score, float_value. destruct (float s); [reflexivity|discriminate]. Qed.

Lemma actor_parameters_well_formed (st : actor_statement) :
  well_formed_actor st = true ->
  actor_parameters (actor_groups st) = Ok (st_actor_id st, fst (actor_of st), snd (actor_of st)).
Proof.
  unfold well_formed_actor. intros Hwf. split_andb.
  unfold actor_parameters, actor_groups.
  rewrite !int_number by assumption. cbn [mbind outcome_bind].
  rewrite !bind_int_number by assumption. reflexivity.
Qed.

Lemma movie_parameters_well_formed (st : movie_statement) :
  well_formed_movie st = true ->
  movie_parameters (movie_groups st) = Ok (movie_of st).
Proof.
  unfold well_formed_movie. intros Hwf. split_andb.
  unfold movie_parameters, movie_groups.
  rewrite !int_number, !float_score by assumption. cbn [mbind outcome_bind].
  rewrite !bind_int_number by assumption. reflexivity.
Qed.

Lemma keys_map {V} (rows : list (Z * V)) : rows.*1 = map fst rows.
Proof.
  induction rows as [|r rows IH]; [reflexivity|].
  rewrite fmap_cons, IH. reflexivity.
Qed.

Lemma list_to_map_fresh_insert {V} (rows : list (Z * V)) (m : gmap Z V) (i : Z) (x : V) :
  ~ In i (map fst rows) ->
  list_to_map rows ∪ <[i := x]> m = <[i := x]> (list_to_map rows) ∪ m.
Proof.
  intros Hi. rewrite <- insert_union_l. symmetry. apply insert_union_r.
  apply not_elem_of_list_to_map_1. rewrite keys_map, list_elem_of_In. exact Hi.
Qed.

Lemma insert_movie_matches_fresh (sts : list movie_statement) :
  forall (db : database) (out : list event) (n : nat),
    Forall (fun st => well_formed_movie st = true) sts ->
    NoDup (map fst (map movie_of sts)) ->
    (forall i, In i (map fst (map movie_of sts)) -> movies db !! i = None) ->
    insert_movie_matches (map movie_groups sts) db out n =
      (Ok ({| movies := list_to_map (map movie_of sts) ∪ movies db;
              actors := actors db |}, (n + length sts)%nat), out).
Proof.
  induction sts as [|st sts IH]; intros db out n Hwf Hnd Hfresh.
  - simpl. rewrite (left_id_L ∅ (∪)). destruct db. do 3 f_equal. lia.
  - inversion Hwf as [|? ? Hst Hsts]; subst.
    cbn [map] in Hnd, Hfresh. apply NoDup_cons in Hnd as [Hnotin Hnd'].
    rewrite list_elem_of_In in Hnotin.
    cbn [map insert_movie_matches].
    rewrite movie_parameters_well_formed by exact Hst.
    change (movie_of st) with (fst (movie_of st), snd (movie_of st)) at 1.
    cbv beta iota. unfold execute_insert_movie.
    assert (Hnew : movies db !! fst (movie_of st) = None)
      by (apply Hfresh; left; reflexivity).
    rewrite Hnew.
    rewrite IH; [|exact Hsts|exact Hnd'|].
    + cbn [movies actors]. rewrite list_to_map_fresh_insert by exact Hnotin.
      do 3 f_equal. simpl. lia.
    + intros j Hj. cbn [movies]. rewrite lookup_insert_ne.
      * apply Hfresh. right. exact Hj.
      * intros Heq. rewrite <- Heq in Hj. contradiction.
Qed.

Lemma insert_actor_matches_fresh (sts : list actor_statement) :
  forall (db : database) (out : list event) (n : nat),
    Forall (fun st => well_formed_actor st = true) sts ->
    NoDup (map fst (map actor_of sts)) ->
    (forall i, In i (map fst (map actor_of sts)) -> actors db !! i = None) ->
    insert_actor_matches (map actor_groups sts) db out n =
      (Ok ({| movies := movies db;
              actors := list_to_map (map actor_of sts) ∪ actors db |},
           (n + length sts)%nat), out).
Proof.
  induction sts as [|st sts IH]; intros db out n Hwf Hnd Hfresh.
  - simpl. rewrite (left_id_L ∅ (∪)). destruct db. do 3 f_equal. lia.
  - inversion Hwf as [|? ? Hst Hsts]; subst.
    cbn [map] in Hnd, Hfresh. apply NoDup_cons in Hnd as [Hnotin Hnd'].
    rewrite list_elem_of_In in Hnotin.
    cbn [map insert_actor_matches].
    rewrite actor_parameters_well_formed by exact Hst.
    cbv beta iota. unfold execute_insert_actor, default_foreign_keys.
    assert (Hnew : actors db !! fst (actor_of st) = None)
      by (apply Hfresh; left; reflexivity).
    cbn [fst snd]. rewrite Hnew.
    rewrite IH; [|exact Hsts|exact Hnd'|].
    + cbn [movies actors]. rewrite list_to_map_fresh_insert by exact Hnotin.
      do 3 f_equal. simpl. lia.
    + intros j Hj. cbn [actors]. rewrite lookup_insert_ne.
      * apply Hfresh. right. exact Hj.
      * intros Heq. rewrite <- Heq in Hj. contradiction.
Qed.

Lemma finditer_movies_file (sts : list movie_statement) :
  Forall (fun st => well_formed_movie st = true) sts ->
  finditer movies_pattern (sql_file (map render_movie sts)) = map movie_groups sts.
Proof.
  intros Hwf. unfold finditer.
  rewrite <- (app_nil_r (sql_file _)), finditer_movies by exact Hwf.
  apply app_nil_r.
Qed.

Lemma finditer_actors_file (sts : list actor_statement) :
  Forall (fun st => well_formed_actor st = true) sts ->
  finditer actors_pattern (sql_file (map render_actor sts)) = map actor_groups sts.
Proof.
  intros Hwf. unfold finditer.
  rewrite <- (app_nil_r (sql_file _)), finditer_actors by exact Hwf.
  apply app_nil_r.
Qed.

Lemma movie_keys (sts : list movie_statement) :
  map fst (map movie_of sts) = map movie_key sts.
Proof. rewrite map_map. reflexivity. Qed.

Lemma actor_keys (sts : list actor_statement) :
  map fst (map actor_of sts) = map actor_key sts.
Proof. rewrite map_map. reflexivity. Qed.

Lemma size_table {V} (rows : list (Z * V)) :
  NoDup (map fst rows) -> size (list_to_map rows : gmap Z V) = length rows.
Proof. intros Hnd. apply map_size_list_to_map. rewrite keys_map. exact Hnd. Qed.

(** C3: N well-formed movie statements and M well-formed actor statements
    that all name movies of the file, with distinct identifiers: the
    constructor returns, and afterwards the movies table has N rows (the rows
    of the statements) and the actors table has M. *)
Theorem load_counts (ms : list movie_statement) (acs : list actor_statement) (w : world) :
  Forall (fun st => well_formed_movie st = true) ms ->
  Forall (fun st => well_formed_actor st = true) acs ->
  NoDup (map movie_key ms) ->
  NoDup (map actor_key acs) ->
  (forall a, In a acs -> In (value_of_digits (st_movie_id a)) (map movie_key ms)) ->
  movies_sql w = Some (sql_file (map render_movie ms)) ->
  actors_sql w = Some (sql_file (map render_actor acs)) ->
  exists w',
    __init__ w = (Ok tt, w')
    /\ db_file w' = {| movies := list_to_map (map movie_of ms);
                       actors := list_to_map (map actor_of acs) |}
    /\ size (movies (db_file w')) = length ms
    /\ size (actors (db_file w')) = length acs.
Proof.
  intros Hms Hacs Hndm Hnda _ Hmfile Hafile.
  unfold __init__, _parse_and_insert_sql_files, _initialize_database.
  cbn [actors_sql movies_sql set_db]. rewrite Hmfile, Hafile.
  unfold _insert_movies. cbn [read_file db_file stdout set_db].
  rewrite finditer_movies_file by exact Hms.
  rewrite insert_movie_matches_fresh;
    [|exact Hms|rewrite movie_keys; exact Hndm|intros; apply lookup_empty].
  unfold _insert_actors. cbn [db_file stdout set_db actors_sql].
  rewrite Hafile. cbn [read_file].
  rewrite finditer_actors_file by exact Hacs.
  rewrite insert_actor_matches_fresh;
    [|exact Hacs|rewrite actor_keys; exact Hnda|intros; apply lookup_empty].
  cbn [movies actors empty_database db_file set_db].
  rewrite !(right_id_L ∅ (∪)).
  eexists. split; [reflexivity|]. cbn [db_file set_db movies actors].
  split; [reflexivity|].
  split.
  - rewrite size_table, length_map; [reflexivity|rewrite movie_keys; exact Hndm].
  - rewrite size_table, length_map; [reflexivity|rewrite actor_keys; exact Hnda].
Qed.

Lemma execute_insert_movie_new (db : database) (i : Z) (m : movie) :
  movies db !! i = None ->
  execute_insert_movie db i m =
    inr {| movies := <[i := m]> (movies db); actors := actors db |}.
Proof. intros Hi. unfold execute_insert_movie. rewrite Hi. reflexivity. Qed.

Lemma execute_insert_movie_taken (db : database) (i : Z) (m m' : movie) :
  movies db !! i = Some m' ->
  execute_insert_movie db i m = inl (UniqueConstraintFailed "movies.id").
Proof. intros Hi. unfold execute_insert_movie. rewrite Hi. reflexivity. Qed.

(** C2: two well-formed movie statements with the same identifier, not yet
    in the table: the first is stored as written, the second is dropped with
    a warning, and the table grows by exactly one row. *)
Theorem duplicate_movie_dropped (st1 st2 : movie_statement) (w : world) :
  well_formed_movie st1 = true ->
  well_formed_movie st2 = true ->
  movie_key st1 = movie_key st2 ->
  movies (db_file w) !! movie_key st1 = None ->
  exists w',
    _insert_movies (Some (sql_file [render_movie st1; render_movie st2])) w = (Ok tt, w')
    /\ movies (db_file w') = <[movie_key st1 := snd (movie_of st1)]> (movies (db_file w))
    /\ movies (db_file w') !! movie_key st1 = Some (snd (movie_of st1))
    /\ size (movies (db_file w')) = S (size (movies (db_file w)))
    /\ stdout w' = stdout w ++ [MovieWarning (movie_key st2)
                                   (UniqueConstraintFailed "movies.id");
                                 InsertedMovies 1].
Proof.
  intros Hwf1 Hwf2 Hkey Hfresh.
  unfold _insert_movies. cbn [read_file].
  change [render_movie st1; render_movie st2] with (map render_movie [st1; st2]).
  rewrite finditer_movies_file by (repeat constructor; assumption).
  cbn [map insert_movie_matches].
  rewrite !movie_parameters_well_formed by assumption.
  change (movie_of st1) with (movie_key st1, snd (movie_of st1)) at 1.
  cbv beta iota.
  rewrite (execute_insert_movie_new _ _ _ Hfresh).
  change (movie_of st2) with (movie_key st2, snd (movie_of st2)).
  cbv beta iota.
  rewrite (execute_insert_movie_taken _ _ _ (snd (movie_of st1)))
    by (cbn [movies]; rewrite <- Hkey; apply lookup_insert_eq).
  eexists. split; [reflexivity|]. cbn [db_file stdout set_db movies].
  split; [reflexivity|]. split; [apply lookup_insert_eq|].
  split; [apply map_size_insert_None; exact Hfresh|].
  rewrite <- app_assoc. reflexivity.
Qed.

(** ** The constructor *)

(** C10: the tables are dropped and created before the sources are looked
    for. With actors.sql or movies.sql missing, the constructor raises
    FileNotFoundError and leaves both tables of the storage file empty,
    whatever rows it held before. *)
Theorem init_missing_source (w : world) :
  actors_sql w = None \/ movies_sql w = None ->
  exists file w',
    __init__ w = (Raise (FileNotFoundError file), w')
    /\ (file = "actors.sql"%string \/ file = "movies.sql"%string)
    /\ db_file w' = empty_database
    /\ stdout w' = stdout w ++ [TablesCreated].
Proof.
  intros Hmissing.
  unfold __init__, _parse_and_insert_sql_files, _initialize_database.
  cbn [actors_sql movies_sql set_db].
  destruct (actors_sql w) as [a|] eqn:Ha.
  - destruct (movies_sql w) as [m|] eqn:Hm.
    + destruct Hmissing; discriminate.
    + exists "movies.sql"%string. eexists. split; [reflexivity|]. auto.
  - exists "actors.sql"%string. eexists. split; [reflexivity|]. auto.
Qed.

(** With foreign keys checked, an insert keeps every actor pointing at a
    stored movie. *)
Lemma execute_insert_actor_checked (db db' : database) (i : Z) (a : actor) :
  referential_integrity db ->
  execute_insert_actor true db i a = inr db' ->
  referential_integrity db'.
Proof.
  intros Hdb Hins. unfold execute_insert_actor in Hins.
  destruct (actors db !! i) eqn:Hi; [discriminate|].
  destruct (movies db !! movie_id a) eqn:Hm; [|discriminate].
  inversion Hins; subst db'; clear Hins.
  intros j b. cbn [actors movies]. rewrite lookup_insert.
  case_decide.
  - intros [= <-]. rewrite Hm. eauto.
  - apply Hdb.
Qed.

(** C1: the connection never turns foreign keys on, so an actor statement
    that names a movie absent from the movies table is stored, counted and
    not warned about; after the constructor returns the actors table holds a
    row whose movie reference resolves to nothing. *)
Theorem orphan_actor_stored :
  exists w',
    __init__ orphan_actor_world = (Ok tt, w')
    /\ actors (db_file w') !! 1 =
         Some {| movie_id := 99; actor_imdb_id := T "nm0000001"; name := T "Ann Lee" |}
    /\ movies (db_file w') !! 99 = None
    /\ stdout w' = [TablesCreated; InsertedMovies 1; InsertedActors 1; DataInserted]
    /\ ~ referential_integrity (db_file w').
Proof.
  eexists. split; [vm_compute; reflexivity|].
  split; [reflexivity|]. split; [reflexivity|]. split; [reflexivity|].
  intros Hri. specialize (Hri 1 _ eq_refl). destruct Hri as [m Hm].
  vm_compute in Hm. discriminate Hm.
Qed.

(** ** The orders behind ORDER BY *)

Lemma Z_leb_total : leb_total Z.leb.
Proof. intros x y. rewrite !Z.leb_le. lia. Qed.

Lemma Z_leb_transitive : leb_transitive Z.leb.
Proof. intros x y z. rewrite !Z.leb_le. lia. Qed.

Lemma nat_leb_total : leb_total Nat.leb.
Proof. intros x y. rewrite !Nat.leb_le. lia. Qed.

Lemma nat_leb_transitive : leb_transitive Nat.leb.
Proof. intros x y z. rewrite !Nat.leb_le. lia. Qed.

Lemma text_leb_total : leb_total text_leb.
Proof.
  intros x. induction x as [|a x IH]; intros [|b y]; simpl; auto.
  destruct (Z.ltb_spec (code a) (code b)), (Z.ltb_spec (code b) (code a)); auto; lia.
Qed.

Lemma text_leb_transitive : leb_transitive text_leb.
Proof.
  intros x. induction x as [|a x IH]; intros [|b y] [|c z]; simpl; auto; try discriminate.
  destruct (Z.ltb_spec (code a) (code b)), (Z.ltb_spec (code b) (code a)),
    (Z.ltb_spec (code b) (code c)), (Z.ltb_spec (code c) (code b)),
    (Z.ltb_spec (code a) (code c)), (Z.ltb_spec (code c) (code a));
    try lia; try discriminate; auto.
  apply IH.
Qed.

Ltac compare_cases :=
  repeat match goal with
         | |- context [Pos.compare_cont Eq ?a ?b] =>
             change (Pos.compare_cont Eq a b) with (Pos.compare a b)
         end;
  repeat match goal with
         | |- context [Z.compare ?a ?b] => destruct (Z.compare_spec a b)
         | |- context [Pos.compare ?a ?b] => destruct (Pos.compare_spec a b)
         end;
  simpl; auto; try discriminate; try lia.

Lemma float_leb_total : leb_total float_leb.
Proof.
  intros x y. unfold float_leb, SFcompare.
  destruct x as [[]|[]| |[] mx ex], y as [[]|[]| |[] my ey]; auto; compare_cases.
Qed.

Lemma float_leb_transitive : leb_transitive float_leb.
Proof.
  intros x y z. unfold float_leb, SFcompare.
  destruct x as [[]|[]| |[] mx ex], y as [[]|[]| |[] my ey], z as [[]|[]| |[] mz ez];
    try (intros; reflexivity); try (intros; discriminate); compare_cases.
Qed.

Lemma desc_total {A K} (leb : K -> K -> bool) (key : A -> K) :
  leb_total leb -> leb_total (desc leb key).
Proof. intros Ht x y. destruct (Ht (key x) (key y)); auto. Qed.

Lemma desc_transitive {A K} (leb : K -> K -> bool) (key : A -> K) :
  leb_transitive leb -> leb_transitive (desc leb key).
Proof. intros Ht x y z Hxy Hyz. exact (Ht _ _ _ Hyz Hxy). Qed.

Lemma asc_total {A K} (leb : K -> K -> bool) (key : A -> K) :
  leb_total leb -> leb_total (asc leb key).
Proof. intros Ht x y. apply Ht. Qed.

Lemma asc_transitive {A K} (leb : K -> K -> bool) (key : A -> K) :
  leb_transitive leb -> leb_transitive (asc leb key).
Proof. intros Ht x y z. apply Ht. Qed.

(** ** What ORDER BY ... LIMIT 1 returns *)

Section Engine.
Context `{SqlEngine}.

Lemma order_by_nil {A} (le : A -> A -> bool) : order_by le [] = [].
Proof. apply Permutation_nil_r. apply order_by_permutation. Qed.

Lemma order_by_In {A} (le : A -> A -> bool) (rows : list A) (x : A) :
  In x (order_by le rows) <-> In x rows.
Proof.
  rewrite <- !list_elem_of_In. split; intros Hx.
  - rewrite <- (order_by_permutation A le rows). exact Hx.
  - rewrite (order_by_permutation A le rows). exact Hx.
Qed.

Lemma order_by_length {A} (le : A -> A -> bool) (rows : list A) :
  length (order_by le rows) = length rows.
Proof. apply Permutation_length, order_by_permutation. Qed.

(** The first row of a sorted result comes before every row. *)
Lemma order_by_first {A} (le : A -> A -> bool) (rows : list A) (r : A) (rest : list A) :
  leb_total le -> leb_transitive le ->
  order_by le rows = r :: rest ->
  In r rows /\ forall x, In x rows -> le r x = true.
Proof.
  intros Htotal Htrans Hsorted.
  pose proof (order_by_sorted A le rows Htotal Htrans) as Hs.
  rewrite Hsorted in Hs. apply StronglySorted_inv in Hs as [_ Hall].
  split.
  - apply (order_by_In le). rewrite Hsorted. left. reflexivity.
  - intros x Hx. apply (order_by_In le) in Hx. rewrite Hsorted in Hx.
    destruct Hx as [<-|Hx].
    + destruct (Htotal r r); assumption.
    + rewrite List.Forall_forall in Hall. apply Hall. exact Hx.
Qed.

Lemma order_by_not_nil {A} (le : A -> A -> bool) (rows : list A) :
  rows <> [] -> exists r rest, order_by le rows = r :: rest.
Proof.
  intros Hne. destruct (order_by le rows) as [|r rest] eqn:E; [|eauto].
  exfalso. apply Hne. apply Permutation_nil_r.
  rewrite <- E. symmetry. apply order_by_permutation.
Qed.
(** [ORDER BY ... LIMIT 1] over some rows: one of the rows, and it comes
    before all of them. *)
Lemma order_by_limit_one {A} (le : A -> A -> bool) (rows : list A) :
  leb_total le -> leb_transitive le -> rows <> [] ->
  exists r,
    limit 1 (order_by le rows) = [r]
    /\ In r rows
    /\ forall x, In x rows -> le r x = true.
Proof.
  intros Htotal Htrans Hne.
  destruct (order_by_not_nil le rows Hne) as (r & rest & E).
  destruct (order_by_first le rows r rest Htotal Htrans E) as [Hin Hfirst].
  exists r. rewrite E. auto.
Qed.
End Engine.

(** ** The joined rows *)

Lemma In_movies_with_actor_count (db : database) (r : movie_row) :
  In r (movies_with_actor_count db) <->
    movies db !! id r = Some (columns r)
    /\ actor_count r = length (actors_of db (id r)).
Proof.
  unfold movies_with_actor_count. rewrite in_map_iff. split.
  - intros ([i m] & <- & Hin). cbn [id columns actor_count fst snd].
    split; [|reflexivity].
    apply elem_of_map_to_list. apply list_elem_of_In. exact Hin.
  - intros [Hm Hc]. exists (id r, columns r). split.
    + destruct r as [i m c]. cbn in *. rewrite Hc. reflexivity.
    + apply list_elem_of_In. apply elem_of_map_to_list. exact Hm.
Qed.

Lemma movies_with_actor_count_not_nil (db : database) :
  movies db <> ∅ -> movies_with_actor_count db <> [].
Proof.
  intros Hne Hnil. apply Hne. apply map_to_list_empty_iff.
  unfold movies_with_actor_count in Hnil.
  destruct (map_to_list (movies db)); [reflexivity|discriminate Hnil].
Qed.

Lemma movies_with_actor_count_empty (db : database) :
  movies db = ∅ -> movies_with_actor_count db = [].
Proof.
  intros He. unfold movies_with_actor_count. rewrite He, map_to_list_empty. reflexivity.
Qed.

Lemma movies_with_actor_count_ids (db : database) :
  NoDup (map id (movies_with_actor_count db)).
Proof.
  unfold movies_with_actor_count. rewrite map_map. cbn [id].
  rewrite <- keys_map. apply NoDup_fst_map_to_list.
Qed.

Lemma In_actors_of (db : database) (mid j : Z) (a : actor) :
  In (j, a) (actors_of db mid) <-> actors db !! j = Some a /\ movie_id a = mid.
Proof.
  unfold actors_of. rewrite filter_In. cbn [snd].
  rewrite <- list_elem_of_In, elem_of_map_to_list, Z.eqb_eq. reflexivity.
Qed.

Lemma NoDup_map_filter {A B} (f : A -> B) (g : A -> bool) (l : list A) :
  NoDup (map f l) -> NoDup (map f (List.filter g l)).
Proof.
  induction l as [|x l IH]; intros Hnd; [constructor|].
  cbn [map] in Hnd. apply NoDup_cons in Hnd as [Hx Hnd].
  cbn [List.filter]. destruct (g x); [|auto].
  cbn [map]. apply NoDup_cons. split; [|auto].
  intros Hin. apply Hx. apply list_elem_of_In in Hin. apply list_elem_of_In.
  apply in_map_iff in Hin as (y & <- & Hy). apply filter_In in Hy as [Hy _].
  apply in_map. exact Hy.
Qed.

Lemma cast_of_lookup (db : database) (mid j : Z) (a : actor) :
  cast_of db mid !! j = Some a <-> actors db !! j = Some a /\ movie_id a = mid.
Proof. unfold cast_of. rewrite map_lookup_filter_Some. reflexivity. Qed.

Lemma actors_of_ids (db : database) (mid : Z) : NoDup (map fst (actors_of db mid)).
Proof.
  unfold actors_of. apply NoDup_map_filter.
  rewrite <- keys_map. apply NoDup_fst_map_to_list.
Qed.

(** The rows that the join gives a movie are the stored actors that name
    it. *)
Lemma actors_of_cast (db : database) (mid : Z) :
  actors_of db mid ≡ₚ map_to_list (cast_of db mid).
Proof.
  apply NoDup_Permutation.
  - apply (NoDup_fmap_1 fst). rewrite keys_map. apply actors_of_ids.
  - apply NoDup_map_to_list.
  - intros [j a].
    rewrite list_elem_of_In, In_actors_of, elem_of_map_to_list, cast_of_lookup.
    reflexivity.
Qed.

Lemma actors_of_length (db : database) (mid : Z) :
  length (actors_of db mid) = size (cast_of db mid).
Proof. rewrite (Permutation_length (actors_of_cast db mid)). apply length_map_to_list. Qed.

(** ** The report queries *)

(** The row of a stored movie, as the join returns it. *)
Lemma stored_row (db : database) (i : Z) (m : movie) :
  movies db !! i = Some m ->
  In {| id := i; columns := m; actor_count := length (actors_of db i) |}
     (movies_with_actor_count db).
Proof. intros Hm. apply In_movies_with_actor_count. cbn [id columns actor_count]. auto. Qed.

(** C4: on a non-empty movies table the longest-running query returns one
    stored movie, and no stored movie runs longer. *)
Theorem longest_running_is_maximal (engine : SqlEngine) (db : database) :
  movies db <> ∅ ->
  exists r,
    get_longest_running_movie db = Some r
    /\ movies db !! id (longest_full_details r) = Some (columns (longest_full_details r))
    /\ longest_runtime r = runtime (columns (longest_full_details r))
    /\ forall i m, movies db !! i = Some m -> runtime m <= longest_runtime r.
Proof.
  intros Hne. unfold get_longest_running_movie.
  destruct (order_by_limit_one (desc Z.leb (fun r => runtime (columns r)))
              (movies_with_actor_count db)
              (desc_total Z.leb _ Z_leb_total)
              (desc_transitive Z.leb _ Z_leb_transitive)
              (movies_with_actor_count_not_nil db Hne)) as (row & Hlimit & Hin & Hmax).
  rewrite Hlimit. eexists. split; [reflexivity|].
  cbn [longest_full_details longest_runtime].
  split; [apply In_movies_with_actor_count; exact Hin|].
  split; [reflexivity|].
  intros i m Hm. apply Z.leb_le.
  exact (Hmax _ (stored_row db i m Hm)).
Qed.

(** C5, as amended: on a non-empty movies table the most-actors query
    returns one stored movie with the number of stored actors that name it;
    no stored movie is named by more (a movie that no actor names counts
    zero); and the actor list holds exactly the actors that name the movie,
    each once with its identifier, catalog id and name, in the order of the
    code points of the names. *)
Theorem most_actors_is_maximal (engine : SqlEngine) (db : database) :
  movies db <> ∅ ->
  exists r,
    get_movie_with_most_actors db = Some r
    /\ movies db !! id (most_full_details r) = Some (columns (most_full_details r))
    /\ most_title r = title (columns (most_full_details r))
    /\ most_actor_count r = size (cast_of db (id (most_full_details r)))
    /\ (forall i m, movies db !! i = Some m ->
          (size (cast_of db i) <= most_actor_count r)%nat)
    /\ (forall row,
          In row (most_actors r) <->
            exists a,
              cast_of db (id (most_full_details r)) !! actor_id row = Some a
              /\ actor_row_imdb_id row = actor_imdb_id a
              /\ actor_name row = name a)
    /\ NoDup (map actor_id (most_actors r))
    /\ StronglySorted (fun a b => text_leb (actor_name a) (actor_name b) = true)
          (most_actors r)
    /\ length (most_actors r) = most_actor_count r.
Proof.
  intros Hne. unfold get_movie_with_most_actors.
  destruct (order_by_limit_one (desc Nat.leb actor_count)
              (movies_with_actor_count db)
              (desc_total Nat.leb _ nat_leb_total)
              (desc_transitive Nat.leb _ nat_leb_transitive)
              (movies_with_actor_count_not_nil db Hne)) as (row & Hlimit & Hin & Hmax).
  rewrite Hlimit.
  apply In_movies_with_actor_count in Hin as [Hrow Hcount].
  eexists. split; [reflexivity|].
  cbn [most_full_details most_actor_count most_actors most_title].
  split; [exact Hrow|]. split; [reflexivity|].
  split; [rewrite <- actors_of_length; exact Hcount|].
  split; [|split; [|split; [|split]]].
  - intros i m Hm. rewrite <- actors_of_length. apply Nat.leb_le.
    exact (Hmax _ (stored_row db i m Hm)).
  - intros r0. unfold actors_by_name. rewrite order_by_In, in_map_iff. split.
    + intros ([j a] & <- & Hja). apply In_actors_of in Hja.
      exists a. cbn [actor_row_of actor_id actor_row_imdb_id actor_name fst snd].
      split; [apply cast_of_lookup; exact Hja|]. split; reflexivity.
    + intros (a & Hc & Himdb & Hname). exists (actor_id r0, a). split.
      * destruct r0 as [j i0 n0]. cbn in Himdb, Hname |- *. subst. reflexivity.
      * apply In_actors_of, cast_of_lookup. exact Hc.
  - unfold actors_by_name.
    rewrite (Permutation_map actor_id
               (order_by_permutation _ (asc text_leb actor_name)
                  (map actor_row_of (actors_of db (id row))))).
    rewrite map_map. cbn [actor_row_of actor_id]. apply actors_of_ids.
  - apply (order_by_sorted _ (asc text_leb actor_name)).
    + apply asc_total, text_leb_total.
    + apply asc_transitive, text_leb_transitive.
  - unfold actors_by_name. rewrite order_by_length, length_map. symmetry. exact Hcount.
Qed.

(** ** The breakdown by rating *)

Lemma dict_get_set_eq {V} (k : text) (v : V) (d : dict V) :
  dict_get k (dict_set k v d) = Some v.
Proof.
  induction d as [|[k' v'] d IH]; simpl.
  - rewrite decide_True by reflexivity. reflexivity.
  - destruct (decide (k' = k)) as [->|Hne]; simpl.
    + rewrite decide_True by reflexivity. reflexivity.
    + rewrite decide_False by exact Hne. exact IH.
Qed.

Lemma dict_get_set_ne {V} (k k' : text) (v : V) (d : dict V) :
  k <> k' -> dict_get k' (dict_set k v d) = dict_get k' d.
Proof.
  intros Hne. induction d as [|[k0 v0] d IH]; simpl.
  - rewrite decide_False by exact Hne. reflexivity.
  - destruct (decide (k0 = k)) as [->|Hk0]; simpl.
    + rewrite !decide_False by exact Hne. reflexivity.
    + destruct (decide (k0 = k')); [reflexivity|exact IH].
Qed.

Lemma rows_rated_snoc (r : text) (l : list movie_row) (row : movie_row) :
  rows_rated r (l ++ [row]) =
    if decide (rating (columns row) = r) then rows_rated r l ++ [row] else rows_rated r l.
Proof.
  unfold rows_rated. rewrite List.filter_app. simpl.
  destruct (decide (rating (columns row) = r)) as [Heq|Hne].
  - rewrite bool_decide_eq_true_2 by exact Heq. reflexivity.
  - rewrite bool_decide_eq_false_2 by exact Hne. apply app_nil_r.
Qed.

Lemma breakdown_step_spec (l : list movie_row) (row : movie_row)
    (acc : dict (list movie_summary) * dict Z) :
  breakdown_of l acc -> breakdown_of (l ++ [row]) (breakdown_step acc row).
Proof.
  intros Hacc r. destruct acc as [rb rd]. unfold breakdown_step. cbn [fst snd].
  destruct (Hacc (rating (columns row))) as [Hrb Hrd]. cbn [fst snd] in Hrb, Hrd.
  rewrite rows_rated_snoc.
  destruct (decide (rating (columns row) = r)) as [Heq|Hne].
  - subst r.
    destruct (rows_rated (rating (columns row)) l) as [|x xs] eqn:E.
    + rewrite Hrb. cbn [fst snd]. rewrite !dict_get_set_eq. cbn [default].
      rewrite ?dict_get_set_eq. split; reflexivity.
    + rewrite Hrb. cbn [fst snd]. rewrite Hrb, Hrd. cbn [default].
      rewrite !dict_get_set_eq. cbn [app]. split.
      * change (x :: xs ++ [row]) with ((x :: xs) ++ [row]).
        rewrite map_app. reflexivity.
      * f_equal. change (x :: xs ++ [row]) with ((x :: xs) ++ [row]).
        rewrite length_app. simpl. lia.
  - destruct (Hacc r) as [Hrb' Hrd']. cbn [fst snd] in Hrb', Hrd'.
    destruct (dict_get (rating (columns row)) rb); cbn [fst snd];
      rewrite ?dict_get_set_ne by exact Hne; split; assumption.
Qed.

Lemma breakdown_fold (l l0 : list movie_row) (acc : dict (list movie_summary) * dict Z) :
  breakdown_of l0 acc -> breakdown_of (l0 ++ l) (fold_left breakdown_step l acc).
Proof.
  revert l0 acc. induction l as [|row l IH]; intros l0 acc Hacc.
  - rewrite app_nil_r. exact Hacc.
  - cbn [fold_left].
    replace (l0 ++ row :: l) with ((l0 ++ [row]) ++ l) by (rewrite <- app_assoc; reflexivity).
    apply IH. apply breakdown_step_spec. exact Hacc.
Qed.

Lemma breakdown_loop (l : list movie_row) :
  breakdown_of l (fold_left breakdown_step l ([], [])).
Proof. apply (breakdown_fold l []). intros r. split; reflexivity. Qed.

Lemma bind_int_in_range (z : Z) :
  - 2 ^ 63 <= z <= 2 ^ 63 - 1 -> bind_int z = Ok z.
Proof.
  intros Hz. unfold bind_int.
  replace (- 2 ^ 63 <=? z) with true by (symmetry; apply Z.leb_le; lia).
  replace (z <=? 2 ^ 63 - 1) with true by (symmetry; apply Z.leb_le; lia).
  reflexivity.
Qed.

Lemma movies_with_actor_count_length (db : database) :
  length (movies_with_actor_count db) = size (movies db).
Proof. unfold movies_with_actor_count. rewrite length_map. apply length_map_to_list. Qed.

Lemma get_top_unfold (engine : SqlEngine) (db : database) (top_n : Z) :
  - 2 ^ 63 <= top_n <= 2 ^ 63 - 1 ->
  get_top_movies_by_rating_breakdown db top_n =
    Ok match top_rows db top_n with
       | [] => None
       | _ :: _ =>
           Some {| total_movies_in_top := length (top_rows db top_n);
                   rating_categories :=
                     fst (fold_left breakdown_step (top_rows db top_n) ([], []));
                   rating_distribution :=
                     snd (fold_left breakdown_step (top_rows db top_n) ([], [])) |}
       end.
Proof.
  intros Hn. unfold get_top_movies_by_rating_breakdown.
  rewrite bind_int_in_range by exact Hn. unfold mbind, outcome_bind.
  fold (top_rows db top_n).
  destruct (top_rows db top_n) as [|row top]; [reflexivity|].
  destruct (fold_left breakdown_step (row :: top) ([], [])) as [rb rd]. reflexivity.
Qed.

(** With a limit of at least one, the fetched rows are the first rows of the
    sorted table: some rows, as many as the limit allows, none scoring below
    a row left out. *)
Lemma top_rows_spec (engine : SqlEngine) (db : database) (top_n : Z) :
  1 <= top_n ->
  movies db <> ∅ ->
  exists rest,
    top_rows db top_n <> []
    /\ top_rows db top_n ++ rest ≡ₚ movies_with_actor_count db
    /\ length (top_rows db top_n) = Nat.min (Z.to_nat top_n) (size (movies db))
    /\ forall x y, In x (top_rows db top_n) -> In y rest ->
         float_leb (imdb_score (columns y)) (imdb_score (columns x)) = true.
Proof.
  intros Hn Hne. unfold top_rows.
  set (sorted := order_by (desc float_leb (fun r => imdb_score (columns r)))
                          (movies_with_actor_count db)).
  assert (Hlimit : limit top_n sorted = take (Z.to_nat top_n) sorted).
  { unfold limit. destruct (Z.ltb_spec top_n 0); [lia|reflexivity]. }
  rewrite Hlimit.
  exists (drop (Z.to_nat top_n) sorted). split; [|split; [|split]].
  - destruct (order_by_not_nil (desc float_leb (fun r => imdb_score (columns r)))
                (movies_with_actor_count db)
                (movies_with_actor_count_not_nil db Hne)) as (r & rest & E).
    fold sorted in E. rewrite E.
    destruct (Z.to_nat top_n) eqn:En; [lia|discriminate].
  - rewrite take_drop. apply order_by_permutation.
  - rewrite length_take. unfold sorted.
    rewrite order_by_length, movies_with_actor_count_length. reflexivity.
  - pose proof (order_by_sorted _ (desc float_leb (fun r => imdb_score (columns r)))
                  (movies_with_actor_count db)
                  (desc_total float_leb _ float_leb_total)
                  (desc_transitive float_leb _ float_leb_transitive)) as Hsorted.
    fold sorted in Hsorted.
    rewrite <- (take_drop (Z.to_nat top_n) sorted) in Hsorted.
    apply StronglySorted_app in Hsorted as (Hle & _ & _).
    intros x y Hx Hy. apply (Hle x y); apply list_elem_of_In; assumption.
Qed.

(** C6, as amended: for a non-empty movies table and a number N of at least
    one (and within SQLite's INTEGER), the query selects min(N, number of
    movies) rows, none of which scores below a row left out, and returns
    their number, under each rating the summaries of the selected rows of
    that rating, and under each rating their count. *)
Theorem top_movies_breakdown (engine : SqlEngine) (db : database) (top_n : Z) :
  movies db <> ∅ ->
  1 <= top_n <= 2 ^ 63 - 1 ->
  exists top rest result,
    get_top_movies_by_rating_breakdown db top_n = Ok (Some result)
    /\ top ++ rest ≡ₚ movies_with_actor_count db
    /\ length top = Nat.min (Z.to_nat top_n) (size (movies db))
    /\ (forall x y, In x top -> In y rest ->
          float_leb (imdb_score (columns y)) (imdb_score (columns x)) = true)
    /\ total_movies_in_top result = length top
    /\ forall r,
          dict_get r (rating_categories result) =
            match rows_rated r top with
            | [] => None
            | _ :: _ => Some (map summary_of (rows_rated r top))
            end
          /\ dict_get r (rating_distribution result) =
            match rows_rated r top with
            | [] => None
            | _ :: _ => Some (Z.of_nat (length (rows_rated r top)))
            end.
Proof.
  intros Hne Hn.
  destruct (top_rows_spec engine db top_n) as (rest & Hnil & Hperm & Hlen & Hle);
    [lia|exact Hne|].
  exists (top_rows db top_n), rest.
  rewrite get_top_unfold by lia.
  pose proof (breakdown_loop (top_rows db top_n)) as Hloop.
  destruct (top_rows db top_n) as [|row top] eqn:E; [contradiction|].
  eexists. split; [reflexivity|].
  cbn [total_movies_in_top rating_categories rating_distribution].
  split; [exact Hperm|]. split; [exact Hlen|]. split; [exact Hle|].
  split; [reflexivity|].
  exact Hloop.
Qed.

(** C7, as amended: with both tables empty and a [top_n] within SQLite's
    INTEGER, no query raises; each returns its empty result, and the
    statistics are zero counts and zero averages. *)
Theorem empty_tables_queries (engine : SqlEngine) (db : database) (top_n : Z)
    (director_name rating_name : text) :
  movies db = ∅ ->
  actors db = ∅ ->
  - 2 ^ 63 <= top_n <= 2 ^ 63 - 1 ->
  get_longest_running_movie db = None
  /\ get_movie_with_most_actors db = None
  /\ get_top_movies_by_rating_breakdown db top_n = Ok None
  /\ get_all_stats db =
       {| total_movies := 0; total_actors := 0;
          average_runtime := PyInt 0; average_imdb_score := PyInt 0;
          stats_rating_distribution := [];
          year_range_min := None; year_range_max := None |}
  /\ query_movies_by_director db director_name = Ok []
  /\ query_movies_by_rating db rating_name = [].
Proof.
  intros Hm Ha Hn.
  pose proof (movies_with_actor_count_empty db Hm) as Hrows.
  repeat split.
  - unfold get_longest_running_movie. rewrite Hrows, order_by_nil. reflexivity.
  - unfold get_movie_with_most_actors. rewrite Hrows, order_by_nil. reflexivity.
  - unfold get_top_movies_by_rating_breakdown.
    rewrite bind_int_in_range by exact Hn. unfold mbind, outcome_bind.
    rewrite Hrows, order_by_nil.
    unfold limit. destruct (top_n <? 0); [reflexivity|].
    rewrite take_nil. reflexivity.
  - unfold get_all_stats. rewrite Hm, Ha, !map_to_list_empty. cbn [map length].
    rewrite avg_integer_nil, avg_real_nil. cbn [group_count].
    rewrite order_by_nil. reflexivity.
  - unfold query_movies_by_director. rewrite Hrows. cbn [length List.filter].
    rewrite andb_false_r, order_by_nil. reflexivity.
  - unfold query_movies_by_rating. rewrite Hrows. apply order_by_nil.
Qed.

(** C7 as stated fails: with both tables empty the breakdown query raises
    OverflowError when its limit is beyond SQLite's INTEGER. *)
Lemma empty_tables_limit_out_of_range :
  movies empty_database = ∅
  /\ actors empty_database = ∅
  /\ @get_top_movies_by_rating_breakdown reference_engine empty_database (2 ^ 63)
     = Raise OverflowError.
Proof. split; [reflexivity|]. split; [reflexivity|]. vm_compute. reflexivity. Qed.

(** ** LIKE *)

Lemma like_percent_unfold (p s : text) :
  like_chars ("%"%char :: p) s =
    like_chars p s || match s with
                      | [] => false
                      | _ :: s' => like_chars ("%"%char :: p) s'
                      end.
Proof. destruct s; reflexivity. Qed.

Lemma like_percent (p s : text) :
  like_chars ("%"%char :: p) s = true <->
    exists pre post, s = pre ++ post /\ like_chars p post = true.
Proof.
  induction s as [|c s IH]; rewrite like_percent_unfold.
  - rewrite orb_false_r. split.
    + intros Hp. exists [], []. auto.
    + intros (pre & post & E & Hp).
      symmetry in E. apply app_eq_nil in E as [_ ->]. exact Hp.
  - rewrite orb_true_iff, IH. split.
    + intros [Hp|(pre & post & -> & Hp)].
      * exists [], (c :: s). auto.
      * exists (c :: pre), post. auto.
    + intros (pre & post & E & Hp). destruct pre as [|c' pre].
      * left. simpl in E. subst post. exact Hp.
      * right. injection E as _ E. eauto.
Qed.

Lemma like_only_percent (s : text) : like_chars (T "%") s = true.
Proof.
  apply like_percent. exists s, []. split; [symmetry; apply app_nil_r|reflexivity].
Qed.

Lemma like_letter (c : ascii) (p s : text) :
  negb (Ascii.eqb c "%") && negb (Ascii.eqb c "_") = true ->
  like_chars (c :: p) s =
    match s with
    | [] => false
    | d :: s' => Ascii.eqb (lower c) (lower d) && like_chars p s'
    end.
Proof.
  intros Hc. apply andb_prop in Hc as [H1 H2].
  apply negb_true_iff in H1, H2. cbn [like_chars]. rewrite H1.
  destruct s; [reflexivity|]. rewrite H2. reflexivity.
Qed.

Lemma like_letters (q p s : text) :
  plain q = true ->
  like_chars (q ++ p) s = true <->
    exists mid rest,
      s = mid ++ rest /\ map lower mid = map lower q /\ like_chars p rest = true.
Proof.
  revert s. induction q as [|c q IH]; intros s Hq.
  - split.
    + intros Hp. exists [], s. auto.
    + intros (mid & rest & -> & Hmid & Hp).
      destruct mid; [exact Hp|discriminate Hmid].
  - cbn [plain forallb] in Hq. apply andb_prop in Hq as [Hc Hq].
    apply andb_prop in Hc as [Hc _].
    cbn [app]. rewrite (like_letter c _ s Hc). destruct s as [|d s].
    + split; [discriminate|].
      intros (mid & rest & E & Hmid & _).
      destruct mid; [discriminate Hmid|discriminate E].
    + rewrite andb_true_iff, Ascii.eqb_eq, (IH s Hq). split.
      * intros (Hcd & mid & rest & -> & Hmid & Hp).
        exists (d :: mid), rest. cbn [map app]. rewrite Hmid, Hcd. auto.
      * intros (mid & rest & E & Hmid & Hp).
        destruct mid as [|d' mid]; [discriminate Hmid|].
        cbn [map app] in E, Hmid. injection E as -> ->. injection Hmid as Hd Hmid.
        split; [congruence|]. eauto.
Qed.

Lemma c_string_plain (q rest : text) :
  plain q = true -> c_string (q ++ rest) = q ++ c_string rest.
Proof.
  induction q as [|c q IH]; intros Hq; [reflexivity|].
  cbn [plain forallb] in Hq. apply andb_prop in Hq as [Hc Hq].
  apply andb_prop in Hc as [_ Hc]. apply negb_true_iff in Hc.
  cbn [app c_string]. rewrite Hc, (IH Hq). reflexivity.
Qed.

(** A search text without wildcards and NUL matches exactly the texts that
    contain it, before their first NUL, up to the case of ASCII letters. *)
Lemma like_contains (q s : text) :
  plain q = true ->
  like (T "%" ++ q ++ T "%") s = true <-> contains_nocase q (c_string s).
Proof.
  intros Hq. unfold like.
  change (T "%" ++ q ++ T "%") with ("%"%char :: (q ++ T "%")).
  cbn [c_string]. change (Ascii.eqb "%" nul) with false. cbv iota.
  rewrite (c_string_plain q (T "%") Hq). change (c_string (T "%")) with (T "%").
  rewrite like_percent. unfold contains_nocase. split.
  - intros (pre & post & -> & Hp).
    apply (like_letters q _ _ Hq) in Hp as (mid & rest & -> & Hmid & _). eauto.
  - intros (pre & mid & post & -> & Hmid).
    exists pre, (mid ++ post). split; [reflexivity|].
    apply (like_letters q _ _ Hq). exists mid, post.
    split; [reflexivity|]. split; [exact Hmid|apply like_only_percent].
Qed.

Lemma utf8_length_app (a b : text) : utf8_length (a ++ b) = utf8_length a + utf8_length b.
Proof.
  induction a as [|c a IH]; [reflexivity|].
  cbn [app]. unfold utf8_length in *. cbn [fold_right]. rewrite IH. lia.
Qed.

(** ** The filtered lookups *)

Section Lookups.
Context `{SqlEngine}.

(** [WHERE test ... ORDER BY m.imdb_score DESC] over the joined rows. *)
Lemma ordered_selection (db : database) (test : movie_row -> bool) :
  let result := order_by (desc float_leb (fun r => imdb_score (columns r)))
                  (List.filter test (movies_with_actor_count db)) in
  (forall r, In r result <-> In r (movies_with_actor_count db) /\ test r = true)
  /\ NoDup (map id result)
  /\ StronglySorted
       (fun x y => float_leb (imdb_score (columns y)) (imdb_score (columns x)) = true)
       result.
Proof.
  intros result. split; [|split].
  - intros r. unfold result. rewrite order_by_In, filter_In. reflexivity.
  - assert (Hperm : map id result ≡ₚ
                      map id (List.filter test (movies_with_actor_count db))).
    { apply Permutation_map. apply order_by_permutation. }
    rewrite Hperm. apply NoDup_map_filter, movies_with_actor_count_ids.
  - apply (order_by_sorted _ (desc float_leb (fun r => imdb_score (columns r)))).
    + apply desc_total, float_leb_total.
    + apply desc_transitive, float_leb_transitive.
Qed.
End Lookups.

(** C8, as amended: for a search text without the wildcards [%] and [_]
    and without NUL, of at most 49998 bytes, the director lookup returns
    exactly the stored movies whose director contains the text (before the
    director's first NUL, if it has one) up to the case of ASCII letters; the
    rating lookup returns exactly the stored movies whose rating equals the
    given value; each movie appears once, and both lists are in descending
    order of score. *)
Theorem filtered_lookups (engine : SqlEngine) (db : database)
    (director_name rating_name : text) :
  plain director_name = true ->
  utf8_length director_name <= max_like_pattern_length - 2 ->
  (exists found,
     query_movies_by_director db director_name = Ok found
     /\ (forall r, In r found <->
           In r (movies_with_actor_count db)
           /\ contains_nocase director_name (c_string (director (columns r))))
     /\ NoDup (map id found)
     /\ StronglySorted
          (fun x y => float_leb (imdb_score (columns y)) (imdb_score (columns x)) = true)
          found)
  /\
  ((forall r, In r (query_movies_by_rating db rating_name) <->
      In r (movies_with_actor_count db) /\ rating (columns r) = rating_name)
   /\ NoDup (map id (query_movies_by_rating db rating_name))
   /\ StronglySorted
        (fun x y => float_leb (imdb_score (columns y)) (imdb_score (columns x)) = true)
        (query_movies_by_rating db rating_name)).
Proof.
  intros Hq Hlen. split.
  - destruct (ordered_selection db
                (fun r => like (T "%" ++ director_name ++ T "%") (director (columns r))))
      as (Hin & Hnd & Hsorted).
    unfold query_movies_by_director.
    assert (Hfits : (max_like_pattern_length <? utf8_length (T "%" ++ director_name ++ T "%"))
                    = false).
    { apply Z.ltb_ge. rewrite !utf8_length_app.
      change (utf8_length (T "%")) with 1. lia. }
    rewrite Hfits. cbn [andb].
    eexists. split; [reflexivity|]. split; [|split; assumption].
    intros r. rewrite Hin.
    rewrite (like_contains director_name _ Hq). reflexivity.
  - destruct (ordered_selection db
                (fun r => bool_decide (rating (columns r) = rating_name)))
      as (Hin & Hnd & Hsorted).
    split; [|split; assumption].
    intros r. unfold query_movies_by_rating. rewrite Hin.
    rewrite bool_decide_eq_true. reflexivity.
Qed.

(** C8 as stated fails: the search text [N_lan] returns the movie directed by
    Christopher Nolan, whose name does not contain that text. *)
Lemma director_lookup_wildcard :
  exists found row,
    @query_movies_by_director reference_engine nolan_database (T "N_lan") = Ok found
    /\ In row found
    /\ director (columns row) = T "Christopher Nolan"
    /\ ~ contains (T "N_lan") (director (columns row)).
Proof.
  exists [{| id := 1;
             columns := sample_movie "Christopher Nolan" "PG-13" 148 "8.8";
             actor_count := 0 |}].
  eexists. split; [vm_compute; reflexivity|].
  split; [left; reflexivity|]. split; [reflexivity|].
  intros (pre & post & E).
  assert (Hu : In "_"%char (T "Christopher Nolan")).
  { cbn [columns director sample_movie] in E. rewrite E.
    apply in_or_app. right. apply in_or_app. left. vm_compute. tauto. }
  vm_compute in Hu. repeat destruct Hu as [Hu|Hu]; try discriminate Hu; exact Hu.
Qed.

(** ** Statements that are not matched *)

Lemma breaks_split (next : ascii -> bool) (field : text) :
  breaks next field = true ->
  exists u v,
    field = u ++ "'"%char :: v
    /\ forallb not_quote u = true
    /\ match v with
       | [] => True
       | d :: _ => next d = false
       end.
Proof.
  induction field as [|c field IH]; simpl; [discriminate|].
  destruct (Ascii.eqb c "'") eqn:E.
  - apply Ascii.eqb_eq in E. subst c. intros Hb. exists [], field.
    split; [reflexivity|]. split; [reflexivity|].
    destruct field; [trivial|]. apply negb_true_iff. exact Hb.
  - intros Hb. destruct (IH Hb) as (u & v & -> & Hu & Hv). exists (c :: u), v.
    split; [reflexivity|]. split; [|exact Hv].
    simpl. unfold not_quote at 1. rewrite E. exact Hu.
Qed.

Lemma match_group_fails (cls : ascii -> bool) (q : quant) (p : regex) (w r : text) :
  forallb cls w = true -> starts_outside cls r -> rejects cls p ->
  match_here p r = None ->
  match_here (Group cls q :: p) (w ++ r) = None.
Proof.
  intros Hw Hr Hp Hnone. rewrite match_here_group by assumption.
  rewrite Hnone. destruct q, w; reflexivity.
Qed.

Lemma group_breaks (q : quant) (p : regex) (next : ascii -> bool) (field tail : text) :
  breaks next field = true ->
  next "'"%char = false ->
  rejects not_quote p ->
  (forall x, starts_outside next x -> match_here p ("'"%char :: x) = None) ->
  match_here (Group not_quote q :: p) (field ++ "'"%char :: tail) = None.
Proof.
  intros Hb Hq Hp Hnext.
  destruct (breaks_split next field Hb) as (u & v & -> & Hu & Hv).
  rewrite <- app_assoc. apply match_group_fails; [exact Hu|reflexivity|exact Hp|].
  apply Hnext. destruct v; [exact Hq|exact Hv].
Qed.

Lemma group_plus_empty (cls : ascii -> bool) (p : regex) (r : text) :
  starts_outside cls r -> rejects cls p ->
  match_here (Group cls Plus :: p) r = None.
Proof.
  intros Hr Hp. change r with ([] ++ r).
  rewrite match_here_group by (reflexivity || assumption). reflexivity.
Qed.

Lemma lit_second_mismatch (a b d : ascii) (l : text) (p : regex) (x : text) :
  b <> d -> match_here (Lit (a :: b :: l) :: p) (a :: d :: x) = None.
Proof.
  intros Hne. cbn [match_here strip_prefix]. rewrite Ascii.eqb_refl.
  destruct (Ascii.eqb b d) eqn:E; [|reflexivity].
  apply Ascii.eqb_eq in E. contradiction.
Qed.

Lemma lit_second_end (a b : ascii) (l : text) (p : regex) :
  match_here (Lit (a :: b :: l) :: p) [a] = None.
Proof. cbn [match_here strip_prefix]. rewrite Ascii.eqb_refl. reflexivity. Qed.

Lemma after_quote_comma (p : regex) (x : text) :
  starts_outside is_comma x -> match_here (Lit (T "','") :: p) ("'"%char :: x) = None.
Proof.
  intros Hx. destruct x as [|d x]; [apply lit_second_end|].
  apply lit_second_mismatch. intros <-. discriminate Hx.
Qed.

Lemma after_quote_close (p : regex) (x : text) :
  starts_outside is_close x -> match_here (Lit (T "')") :: p) ("'"%char :: x) = None.
Proof.
  intros Hx. destruct x as [|d x]; [apply lit_second_end|].
  apply lit_second_mismatch. intros <-. discriminate Hx.
Qed.

Lemma after_quote_blank (p : regex) (x : text) :
  starts_outside is_space_or_comma x ->
  match_here (Lit (T "'") :: Rep is_space Star :: Lit (T ",") :: p) ("'"%char :: x) = None.
Proof.
  intros Hx. change ("'"%char :: x) with (T "'" ++ x). rewrite match_here_lit.
  change x with ([] ++ x). rewrite match_rep_star.
  - destruct x as [|d x]; [reflexivity|].
    simpl in Hx. unfold is_space_or_comma in Hx. apply orb_false_elim in Hx as [_ Hd].
    apply match_here_lit_mismatch. intros <-. discriminate Hd.
  - reflexivity.
  - destruct x as [|d x]; [exact I|].
    simpl in Hx. unfold is_space_or_comma in Hx. apply orb_false_elim in Hx as [Hd _].
    exact Hd.
  - apply rejects_lit. reflexivity.
Qed.

(** Shows the quote that closes the field at the head of the text. *)
Ltac expose_quote :=
  match goal with
  | |- context [match_here _ (?f ++ T "','" ++ ?x)] =>
      change (f ++ T "','" ++ x) with (f ++ "'"%char :: (T ",'" ++ x))
  | |- context [match_here _ (?f ++ T "')" ++ ?x)] =>
      change (f ++ T "')" ++ x) with (f ++ "'"%char :: (T ")" ++ x))
  | |- context [match_here _ (?f ++ T "'" ++ ?x)] =>
      change (f ++ T "'" ++ x) with (f ++ "'"%char :: x)
  end.

Ltac close_break :=
  first [ assumption
        | reflexivity
        | apply rejects_lit; reflexivity
        | apply after_quote_comma
        | apply after_quote_close
        | apply after_quote_blank ].

(** The atom at the head of the pattern fails on the offending field. *)
Ltac drop_here :=
  first [ rewrite app_nil_l; rewrite group_plus_empty by close_run
        | expose_quote; rewrite (group_breaks _ _ is_comma) by close_break
        | expose_quote; rewrite (group_breaks _ _ is_close) by close_break
        | expose_quote; rewrite (group_breaks _ _ is_space_or_comma) by close_break ].

Ltac split_orb :=
  repeat match goal with
         | H : _ || _ = true |- _ => apply orb_prop in H; destruct H
         | H : or_later _ _ _ = true |- _ => unfold or_later in H
         | H : _ && _ = true |- _ => apply andb_prop in H; destruct H
         | H : is_empty ?f = true |- _ => destruct f; [clear H|discriminate H]
         end.

Lemma malformed_actor_no_match (st : actor_statement) (rest : text) :
  malformed_actor st = true ->
  match_here actors_pattern (render_actor st ++ rest) = None.
Proof.
  unfold malformed_actor, is_digits, is_quoted1. intros Hbad.
  unfold actors_pattern, render_actor. rewrite <- !app_assoc.
  split_orb; repeat step; drop_here; reflexivity.
Qed.

Lemma malformed_movie_no_match (st : movie_statement) (rest : text) :
  malformed_movie st = true ->
  match_here movies_pattern (render_movie st ++ rest) = None.
Proof.
  unfold malformed_movie, is_digits, is_quoted1, is_quoted. intros Hbad.
  unfold movies_pattern, render_movie. rewrite <- !app_assoc.
  split_orb; repeat step; drop_here; reflexivity.
Qed.

(** ** A line that is not matched leaves the scan as it was *)

Lemma strip_prefix_app_inv (kw a b : text) (c : ascii) (x : text) :
  strip_prefix kw (a ++ c :: b) = Some x -> ~ In c kw ->
  exists y, strip_prefix kw a = Some y.
Proof.
  revert a. induction kw as [|k kw IH]; intros a Hs Hc.
  - simpl. eauto.
  - destruct a as [|d a]; simpl in *.
    + destruct (Ascii.eqb k c) eqn:E; [|discriminate Hs].
      apply Ascii.eqb_eq in E. exfalso. apply Hc. left. exact E.
    + destruct (Ascii.eqb k d); [|discriminate Hs].
      apply IH; [exact Hs|]. intros Hin. apply Hc. right. exact Hin.
Qed.

Lemma finditer_pass_line (p : regex) (k : ascii) (kw : text) (p' : regex)
    (line post : text) :
  p = Lit (k :: kw) :: p' ->
  ~ In ";"%char (k :: kw) ->
  k <> newline ->
  match_here p (line ++ T ";" ++ [newline] ++ post) = None ->
  keyword_only_at_start (k :: kw) line = true ->
  finditer_from p 0 (line ++ T ";" ++ [newline] ++ post) = finditer_from p 0 post.
Proof.
  intros Hp Hsemi Hnl Hline Hkw.
  rewrite finditer_pass.
  - apply (finditer_end_of_line p k kw p' Hp); [|exact Hnl].
    intros ->. apply Hsemi. left. reflexivity.
  - intros i Hi. destruct i as [|i]; [exact Hline|].
    unfold keyword_only_at_start in Hkw. rewrite forallb_forall in Hkw.
    specialize (Hkw (S i)). rewrite in_seq in Hkw.
    assert (Hstart : negb (starts_with (k :: kw) (drop (S i) line)) = true)
      by (apply Hkw; lia).
    apply negb_true_iff in Hstart. unfold starts_with in Hstart.
    rewrite Hp. cbn [match_here].
    destruct (strip_prefix (k :: kw) (drop (S i) line ++ T ";" ++ [newline] ++ post))
      as [x|] eqn:E; [|reflexivity].
    apply strip_prefix_app_inv in E as [y Hy]; [|exact Hsemi].
    rewrite Hy in Hstart. discriminate Hstart.
Qed.

Lemma sql_file_one (line post : text) :
  sql_file [line] ++ post = line ++ T ";" ++ [newline] ++ post.
Proof. unfold sql_file. cbn [map concat]. rewrite app_nil_r, <- !app_assoc. reflexivity. Qed.

Lemma finditer_malformed_actor (before : list actor_statement) (bad : actor_statement)
    (after : text) :
  Forall (fun st => well_formed_actor st = true) before ->
  malformed_actor bad = true ->
  keyword_only_at_start actors_keyword (render_actor bad) = true ->
  finditer actors_pattern
    (sql_file (map render_actor before) ++ sql_file [render_actor bad] ++ after) =
  finditer actors_pattern (sql_file (map render_actor before) ++ after).
Proof.
  intros Hwf Hbad Hkw. unfold finditer.
  rewrite !finditer_actors by exact Hwf. f_equal. rewrite sql_file_one.
  eapply finditer_pass_line with (k := "I"%char).
  - reflexivity.
  - vm_compute. intuition discriminate.
  - discriminate.
  - apply malformed_actor_no_match. exact Hbad.
  - exact Hkw.
Qed.

Lemma finditer_malformed_movie (before : list movie_statement) (bad : movie_statement)
    (after : text) :
  Forall (fun st => well_formed_movie st = true) before ->
  malformed_movie bad = true ->
  keyword_only_at_start movies_keyword (render_movie bad) = true ->
  finditer movies_pattern
    (sql_file (map render_movie before) ++ sql_file [render_movie bad] ++ after) =
  finditer movies_pattern (sql_file (map render_movie before) ++ after).
Proof.
  intros Hwf Hbad Hkw. unfold finditer.
  rewrite !finditer_movies by exact Hwf. f_equal. rewrite sql_file_one.
  eapply finditer_pass_line with (k := "I"%char).
  - reflexivity.
  - vm_compute. intuition discriminate.
  - discriminate.
  - apply malformed_movie_no_match. exact Hbad.
  - exact Hkw.
Qed.

(** C9, as amended: an actor statement whose [imdb_id] or [name] is empty,
    or holds a quote that the character after it does not let pass for the
    closing quote, and a movie statement with such a quote in a text field,
    is not matched by its pattern; and where its text holds the statement
    keyword at its start only, loading a file with the statement on a line
    of its own ends in the same tables and prints the same as loading the
    file without that line: no row, no warning, no count. *)
Theorem malformed_statements_dropped
    (actors_before : list actor_statement) (bad_actor : actor_statement) (actors_after : text)
    (movies_before : list movie_statement) (bad_movie : movie_statement) (movies_after : text)
    (w : world) :
  Forall (fun st => well_formed_actor st = true) actors_before ->
  malformed_actor bad_actor = true ->
  keyword_only_at_start actors_keyword (render_actor bad_actor) = true ->
  Forall (fun st => well_formed_movie st = true) movies_before ->
  malformed_movie bad_movie = true ->
  keyword_only_at_start movies_keyword (render_movie bad_movie) = true ->
  (forall rest, match_here actors_pattern (render_actor bad_actor ++ rest) = None)
  /\ _insert_actors
       (Some (sql_file (map render_actor actors_before)
              ++ sql_file [render_actor bad_actor] ++ actors_after)) w
     = _insert_actors (Some (sql_file (map render_actor actors_before) ++ actors_after)) w
  /\ (forall rest, match_here movies_pattern (render_movie bad_movie ++ rest) = None)
  /\ _insert_movies
       (Some (sql_file (map render_movie movies_before)
              ++ sql_file [render_movie bad_movie] ++ movies_after)) w
     = _insert_movies (Some (sql_file (map render_movie movies_before) ++ movies_after)) w.
Proof.
  intros Hwa Hba Hka Hwm Hbm Hkm. split; [|split; [|split]].
  - intros rest. apply malformed_actor_no_match. exact Hba.
  - unfold _insert_actors. cbn [read_file].
    rewrite finditer_malformed_actor by assumption. reflexivity.
  - intros rest. apply malformed_movie_no_match. exact Hbm.
  - unfold _insert_movies. cbn [read_file].
    rewrite finditer_malformed_movie by assumption. reflexivity.
Qed.

(** C9 as stated fails: the name [a')b] holds a quote, yet the statement is
    matched up to that quote; a row with the name cut short is stored and
    counted. *)
Lemma quoted_name_cut_short :
  In "'"%char (st_name cut_short_actor)
  /\ match_here actors_pattern (render_actor cut_short_actor) =
       Some ([T "1"; T "2"; T "nm0000001"; T "a"], T "b')")
  /\ exists w',
       _insert_actors (Some (sql_file [render_actor cut_short_actor]))
         {| actors_sql := None; movies_sql := None;
            db_file := empty_database; stdout := [] |} = (Ok tt, w')
       /\ actors (db_file w') !! 1 =
            Some {| movie_id := 2; actor_imdb_id := T "nm0000001"; name := T "a" |}
       /\ stdout w' = [InsertedActors 1].
Proof.
  split; [vm_compute; tauto|]. split; [vm_compute; reflexivity|].
  eexists. split; [vm_compute; reflexivity|]. split; reflexivity.
Qed.

(** * The examples of the specification, for every engine *)

(** A table written out row by row has a row. *)
Ltac table_not_empty i :=
  let Hempty := fresh in
  intros Hempty; apply (f_equal (fun m => m !! i)) in Hempty;
  vm_compute in Hempty; discriminate Hempty.

(** Splits a lookup in a table written out row by row into its rows. *)
Ltac lookup_cases H :=
  cbn [movies actors list_to_map foldr fst snd] in H;
  rewrite ?lookup_insert, ?lookup_empty in H;
  repeat case_decide; try discriminate H.

(** Runtimes 90, 200 and 45: the movie of 200 minutes is returned. *)
Lemma longest_of_three (engine : SqlEngine) :
  exists r,
    get_longest_running_movie runtimes_database = Some r
    /\ longest_runtime r = 200
    /\ id (longest_full_details r) = 2.
Proof.
  unfold get_longest_running_movie.
  destruct (order_by_limit_one (desc Z.leb (fun r => runtime (columns r)))
              (movies_with_actor_count runtimes_database)
              (desc_total Z.leb _ Z_leb_total)
              (desc_transitive Z.leb _ Z_leb_transitive))
    as (row & Hlimit & Hin & Hmax).
  { apply movies_with_actor_count_not_nil. table_not_empty 2. }
  rewrite Hlimit. eexists. split; [reflexivity|].
  cbn [longest_runtime longest_full_details].
  pose proof (Hmax _ (stored_row runtimes_database 2
                        (sample_movie "Bela Tarr" "R" 200 "8.0") eq_refl)) as Hge.
  unfold desc in Hge. cbn [columns runtime sample_movie] in Hge. apply Z.leb_le in Hge.
  apply In_movies_with_actor_count in Hin as [Hrow _].
  unfold runtimes_database in Hrow. lookup_cases Hrow;
    injection Hrow as Hrow; rewrite <- Hrow in Hge |- *;
    cbn [runtime sample_movie] in Hge |- *; lia.
Qed.

(** No actors against three: the movie with three is returned, with three
    names in order. *)
Lemma most_actors_of_two (engine : SqlEngine) :
  exists r,
    get_movie_with_most_actors cast_database = Some r
    /\ id (most_full_details r) = 2
    /\ most_actor_count r = 3%nat
    /\ length (most_actors r) = 3%nat
    /\ StronglySorted (fun a b => text_leb (actor_name a) (actor_name b) = true)
          (most_actors r).
Proof.
  unfold get_movie_with_most_actors.
  destruct (order_by_limit_one (desc Nat.leb actor_count)
              (movies_with_actor_count cast_database)
              (desc_total Nat.leb _ nat_leb_total)
              (desc_transitive Nat.leb _ nat_leb_transitive))
    as (row & Hlimit & Hin & Hmax).
  { apply movies_with_actor_count_not_nil. table_not_empty 2. }
  rewrite Hlimit. eexists. split; [reflexivity|].
  cbn [most_full_details most_actor_count most_actors].
  pose proof (Hmax _ (stored_row cast_database 2
                        (sample_movie "Bela Tarr" "R" 200 "8.0") eq_refl)) as Hge.
  unfold desc in Hge. cbn [actor_count] in Hge. apply Nat.leb_le in Hge.
  change (length (actors_of cast_database 2)) with 3%nat in Hge.
  apply In_movies_with_actor_count in Hin as [Hrow Hcount].
  assert (Hid : id row = 2).
  { unfold cast_database in Hrow. lookup_cases Hrow; [|congruence].
    exfalso. rewrite Hcount in Hge.
    replace (id row) with 1 in Hge by assumption.
    vm_compute in Hge. lia. }
  rewrite Hid in Hcount |- *.
  change (length (actors_of cast_database 2)) with 3%nat in Hcount.
  split; [reflexivity|]. split; [exact Hcount|]. split.
  - unfold actors_by_name. rewrite order_by_length, length_map. reflexivity.
  - apply (order_by_sorted _ (asc text_leb actor_name)).
    + apply asc_total, text_leb_total.
    + apply asc_transitive, text_leb_transitive.
Qed.

Lemma rows_rated_length (r : text) (l1 l2 : list movie_row) :
  l1 ≡ₚ l2 -> length (rows_rated r l1) = length (rows_rated r l2).
Proof.
  induction 1 as [|x l1 l2 _ IH|x y l|l1 l2 l3 _ IH1 _ IH2]; cbn [rows_rated List.filter].
  - reflexivity.
  - fold (rows_rated r l1). fold (rows_rated r l2).
    destruct (bool_decide (rating (columns x) = r)); simpl; rewrite IH; reflexivity.
  - destruct (bool_decide (rating (columns y) = r)),
      (bool_decide (rating (columns x) = r)); reflexivity.
  - congruence.
Qed.

(** Scores 9.0, 8.5, 8.5 with ratings PG, PG, R, and N = 3: two movies under
    PG, one under R, none under any other rating. *)
Lemma distribution_of_three (engine : SqlEngine) :
  exists result,
    get_top_movies_by_rating_breakdown scores_database 3 = Ok (Some result)
    /\ total_movies_in_top result = 3%nat
    /\ dict_get (T "PG") (rating_distribution result) = Some 2
    /\ dict_get (T "R") (rating_distribution result) = Some 1
    /\ forall r, r <> T "PG" -> r <> T "R" ->
         dict_get r (rating_distribution result) = None.
Proof.
  destruct (top_rows_spec engine scores_database 3)
    as (rest & Hnil & Hperm & Hlen & _).
  { lia. }
  { table_not_empty 2. }
  rewrite get_top_unfold by lia.
  pose proof (breakdown_loop (top_rows scores_database 3)) as Hloop.
  set (top := top_rows scores_database 3) in *.
  change (Nat.min (Z.to_nat 3) (size (movies scores_database))) with 3%nat in Hlen.
  assert (Hrest : rest = []).
  { apply Permutation_length in Hperm. rewrite length_app, Hlen in Hperm.
    rewrite movies_with_actor_count_length in Hperm.
    change (size (movies scores_database)) with 3%nat in Hperm.
    destruct rest; [reflexivity|simpl in Hperm; lia]. }
  subst rest. rewrite app_nil_r in Hperm.
  destruct top as [|row top'] eqn:Etop; [contradiction|]. rewrite <- Etop in *.
  eexists. split; [reflexivity|].
  cbn [total_movies_in_top rating_distribution].
  split; [exact Hlen|].
  assert (Hget_r : forall r (n : nat),
             length (rows_rated r (movies_with_actor_count scores_database)) = n ->
             dict_get r (snd (fold_left breakdown_step top ([], []))) =
               match n with
               | O => None
               | S _ => Some (Z.of_nat n)
               end).
  { intros r n Hn. destruct (Hloop r) as [_ Hd]. rewrite Hd.
    rewrite <- (rows_rated_length r top _ Hperm) in Hn.
    destruct (rows_rated r top); simpl in Hn; subst n; reflexivity. }
  split; [apply (Hget_r (T "PG") 2%nat); vm_compute; reflexivity|].
  split; [apply (Hget_r (T "R") 1%nat); vm_compute; reflexivity|].
  intros r Hpg Hr. apply (Hget_r r 0%nat).
  assert (Hrows : movies_with_actor_count scores_database =
                  map (fun im => {| id := fst im; columns := snd im;
                                    actor_count := 0 |})
                      (map_to_list (movies scores_database)))
    by (vm_compute; reflexivity).
  rewrite Hrows. clear -Hpg Hr.
  assert (Hall : Forall (fun im => rating (snd im) = T "PG" \/ rating (snd im) = T "R")
                   (map_to_list (movies scores_database))).
  { apply Forall_forall. intros [i m] Him.
    apply elem_of_map_to_list in Him. unfold scores_database in Him.
    lookup_cases Him; injection Him as <-; cbn; auto. }
  induction Hall as [|im l Him _ IH]; [reflexivity|].
  cbn [map rows_rated List.filter columns].
  rewrite bool_decide_eq_false_2 by (destruct Him as [-> | ->]; congruence).
  exact IH.
Qed.

(** The same three examples, run on the reference engine. *)
Example longest_of_three_run :
  option_map longest_runtime (@get_longest_running_movie reference_engine runtimes_database)
  = Some 200.
Proof. vm_compute. reflexivity. Qed.

Example most_actors_of_two_run :
  option_map (fun r => (id (most_full_details r), map actor_name (most_actors r)))
    (@get_movie_with_most_actors reference_engine cast_database)
  = Some (2, [T "Alice"; T "Bob"; T "Carol"]).
Proof. vm_compute. reflexivity. Qed.

Example distribution_of_three_run :
  match @get_top_movies_by_rating_breakdown reference_engine scores_database 3 with
  | Ok (Some result) => rating_distribution result = [(T "PG", 2); (T "R", 1)]
  | _ => False
  end.
Proof. vm_compute. reflexivity. Qed.

(** * The theorems at sample inputs *)

(** Two movie statements and two actor statements, loaded over the storage
    file of an earlier run: two rows in each table. *)
Lemma load_counts_witness :
  exists w',
    __init__ two_movies_world = (Ok tt, w')
    /\ db_file w' = {| movies := list_to_map (map movie_of [heat; alien]);
                       actors := list_to_map (map actor_of [pacino; weaver]) |}
    /\ size (movies (db_file w')) = 2%nat
    /\ size (actors (db_file w')) = 2%nat.
Proof.
  apply (load_counts [heat; alien] [pacino; weaver] two_movies_world).
  - repeat constructor.
  - repeat constructor.
  - apply (bool_decide_unpack _). vm_compute. exact I.
  - apply (bool_decide_unpack _). vm_compute. exact I.
  - intros a [<-|[<-|[]]]; vm_compute; tauto.
  - reflexivity.
  - reflexivity.
Defined.

(** [heat] and then [heat_again], which has the same identifier 7. *)
Lemma duplicate_movie_dropped_witness :
  exists w',
    _insert_movies (Some (sql_file [render_movie heat; render_movie heat_again]))
      (_initialize_database two_movies_world) = (Ok tt, w')
    /\ movies (db_file w') = <[7 := snd (movie_of heat)]> ∅
    /\ movies (db_file w') !! 7 = Some (snd (movie_of heat))
    /\ size (movies (db_file w')) = 1%nat
    /\ stdout w' = [TablesCreated;
                    MovieWarning 7 (UniqueConstraintFailed "movies.id");
                    InsertedMovies 1].
Proof.
  apply (duplicate_movie_dropped heat heat_again (_initialize_database two_movies_world)).
  - reflexivity.
  - reflexivity.
  - reflexivity.
  - reflexivity.
Defined.

(** actors.sql is missing: FileNotFoundError, and the movie of the earlier
    run is gone. *)
Lemma init_missing_source_witness :
  movies (db_file no_actors_world) !! 1 <> None
  /\ exists file w',
       __init__ no_actors_world = (Raise (FileNotFoundError file), w')
       /\ (file = "actors.sql"%string \/ file = "movies.sql"%string)
       /\ db_file w' = empty_database
       /\ stdout w' = stdout no_actors_world ++ [TablesCreated].
Proof.
  split; [vm_compute; discriminate|].
  apply (init_missing_source no_actors_world). left. reflexivity.
Defined.

(** Runtimes 90, 200 and 45. *)
Lemma longest_running_witness :
  exists r,
    @get_longest_running_movie reference_engine runtimes_database = Some r
    /\ movies runtimes_database !! id (longest_full_details r)
         = Some (columns (longest_full_details r))
    /\ longest_runtime r = runtime (columns (longest_full_details r))
    /\ forall i m, movies runtimes_database !! i = Some m -> runtime m <= longest_runtime r.
Proof.
  apply (longest_running_is_maximal reference_engine runtimes_database).
  table_not_empty 2.
Defined.

(** A movie without actors and a movie with three: the one with three, the
    count 3, and the names Alice, Bob, Carol. *)
Lemma most_actors_witness :
  (exists r,
     @get_movie_with_most_actors reference_engine cast_database = Some r
     /\ movies cast_database !! id (most_full_details r)
          = Some (columns (most_full_details r))
     /\ most_title r = title (columns (most_full_details r))
     /\ most_actor_count r = size (cast_of cast_database (id (most_full_details r)))
     /\ (forall i m, movies cast_database !! i = Some m ->
           (size (cast_of cast_database i) <= most_actor_count r)%nat)
     /\ (forall row,
           In row (most_actors r) <->
             exists a,
               cast_of cast_database (id (most_full_details r)) !! actor_id row = Some a
               /\ actor_row_imdb_id row = actor_imdb_id a
               /\ actor_name row = name a)
     /\ NoDup (map actor_id (most_actors r))
     /\ StronglySorted (fun a b => text_leb (actor_name a) (actor_name b) = true)
           (most_actors r)
     /\ length (most_actors r) = most_actor_count r)
  /\ match @get_movie_with_most_actors reference_engine cast_database with
     | Some r =>
         id (most_full_details r) = 2
         /\ most_actor_count r = 3%nat
         /\ map actor_name (most_actors r) = [T "Alice"; T "Bob"; T "Carol"]
     | None => False
     end.
Proof.
  split.
  - apply (most_actors_is_maximal reference_engine cast_database).
    table_not_empty 2.
  - vm_compute. repeat split; reflexivity.
Defined.

(** C5 as stated fails: of the actors alice and Zed the query lists Zed
    first, where alphabetical order has alice first. *)
Lemma names_in_code_point_order :
  match @get_movie_with_most_actors reference_engine mixed_case_database with
  | Some r => map actor_name (most_actors r) = [T "Zed"; T "alice"]
  | None => False
  end
  /\ alphabetical_leb (T "alice") (T "Zed") = true
  /\ alphabetical_leb (T "Zed") (T "alice") = false.
Proof. vm_compute. repeat split; reflexivity. Qed.

(** Scores 9.0, 8.5, 8.5 with ratings PG, PG, R, and N = 3. *)
Lemma top_movies_breakdown_witness :
  (exists top rest result,
     @get_top_movies_by_rating_breakdown reference_engine scores_database 3
       = Ok (Some result)
     /\ top ++ rest ≡ₚ movies_with_actor_count scores_database
     /\ length top = Nat.min (Z.to_nat 3) (size (movies scores_database))
     /\ (forall x y, In x top -> In y rest ->
           float_leb (imdb_score (columns y)) (imdb_score (columns x)) = true)
     /\ total_movies_in_top result = length top
     /\ forall r,
           dict_get r (rating_categories result) =
             match rows_rated r top with
             | [] => None
             | _ :: _ => Some (map summary_of (rows_rated r top))
             end
           /\ dict_get r (rating_distribution result) =
             match rows_rated r top with
             | [] => None
             | _ :: _ => Some (Z.of_nat (length (rows_rated r top)))
             end)
  /\ match @get_top_movies_by_rating_breakdown reference_engine scores_database 3 with
     | Ok (Some result) => rating_distribution result = [(T "PG", 2); (T "R", 1)]
     | _ => False
     end.
Proof.
  split.
  - apply (top_movies_breakdown reference_engine scores_database 3).
    + table_not_empty 2.
    + lia.
  - vm_compute. reflexivity.
Defined.

(** C6 as stated fails at N = 0: the table has movies, and the query returns
    the empty result, with no mapping and no counts. *)
Lemma top_zero_is_empty :
  movies scores_database <> ∅
  /\ @get_top_movies_by_rating_breakdown reference_engine scores_database 0 = Ok None.
Proof. split; [table_not_empty 2|reflexivity]. Qed.

(** Freshly created tables. *)
Lemma empty_tables_queries_witness :
  @get_longest_running_movie reference_engine empty_database = None
  /\ @get_movie_with_most_actors reference_engine empty_database = None
  /\ @get_top_movies_by_rating_breakdown reference_engine empty_database 10 = Ok None
  /\ @get_all_stats reference_engine empty_database =
       {| total_movies := 0; total_actors := 0;
          average_runtime := PyInt 0; average_imdb_score := PyInt 0;
          stats_rating_distribution := [];
          year_range_min := None; year_range_max := None |}
  /\ @query_movies_by_director reference_engine empty_database (T "Nolan") = Ok []
  /\ @query_movies_by_rating reference_engine empty_database (T "R") = [].
Proof.
  apply (empty_tables_queries reference_engine empty_database 10 (T "Nolan") (T "R")).
  - reflexivity.
  - reflexivity.
  - lia.
Defined.

(** The search text [nolan] and the rating PG-13 over the one movie of
    Christopher Nolan. *)
Lemma filtered_lookups_witness :
  (exists found,
     @query_movies_by_director reference_engine nolan_database (T "nolan") = Ok found
     /\ (forall r, In r found <->
           In r (movies_with_actor_count nolan_database)
           /\ contains_nocase (T "nolan") (c_string (director (columns r))))
     /\ NoDup (map id found)
     /\ StronglySorted
          (fun x y => float_leb (imdb_score (columns y)) (imdb_score (columns x)) = true)
          found)
  /\
  ((forall r, In r (@query_movies_by_rating reference_engine nolan_database (T "PG-13")) <->
      In r (movies_with_actor_count nolan_database) /\ rating (columns r) = T "PG-13")
   /\ NoDup (map id (@query_movies_by_rating reference_engine nolan_database (T "PG-13")))
   /\ StronglySorted
        (fun x y => float_leb (imdb_score (columns y)) (imdb_score (columns x)) = true)
        (@query_movies_by_rating reference_engine nolan_database (T "PG-13"))).
Proof.
  apply (filtered_lookups reference_engine nolan_database (T "nolan") (T "PG-13")).
  - reflexivity.
  - vm_compute. discriminate.
Defined.

(** The name [Pat O'Brien] among the actors and the title [Ocean's Eleven]
    among the movies. *)
Lemma malformed_statements_dropped_witness :
  (forall rest, match_here actors_pattern (render_actor obrien ++ rest) = None)
  /\ _insert_actors
       (Some (sql_file (map render_actor [pacino])
              ++ sql_file [render_actor obrien] ++ sql_file [render_actor weaver]))
       (_initialize_database two_movies_world)
     = _insert_actors
         (Some (sql_file (map render_actor [pacino]) ++ sql_file [render_actor weaver]))
         (_initialize_database two_movies_world)
  /\ (forall rest, match_here movies_pattern (render_movie oceans_eleven ++ rest) = None)
  /\ _insert_movies
       (Some (sql_file (map render_movie [heat])
              ++ sql_file [render_movie oceans_eleven] ++ sql_file [render_movie alien]))
       (_initialize_database two_movies_world)
     = _insert_movies
         (Some (sql_file (map render_movie [heat]) ++ sql_file [render_movie alien]))
         (_initialize_database two_movies_world).
Proof.
  apply (malformed_statements_dropped
           [pacino] obrien (sql_file [render_actor weaver])
           [heat] oceans_eleven (sql_file [render_movie alien])
           (_initialize_database two_movies_world)).
  - repeat constructor.
  - reflexivity.
  - vm_compute. reflexivity.
  - repeat constructor.
  - reflexivity.
  - vm_compute. reflexivity.
Defined.

(** * More of the loader and the queries *)

(** ** What a match tells about the text *)

Lemma splits_sound (cls : ascii -> bool) (s w r : text) :
  In (w, r) (splits cls s) -> s = w ++ r /\ forallb cls w = true.
Proof.
  revert w r. induction s as [|c s IH]; intros w r Hin; cbn [splits] in Hin.
  - destruct Hin as [[= <- <-]|[]]. auto.
  - destruct Hin as [[= <- <-]|Hin]; [auto|].
    destruct (cls c) eqn:Hc; [|destruct Hin].
    apply in_map_iff in Hin as ([w' r'] & [= <- <-] & Hin).
    destruct (IH _ _ Hin) as [-> Hw]. cbn [fst snd forallb]. rewrite Hc. auto.
Qed.

Lemma splits_tail_not_empty (cls : ascii -> bool) (s w r : text) :
  In (w, r) (tl (splits cls s)) -> In (w, r) (splits cls s) /\ (1 <=? length w)%nat = true.
Proof.
  destruct s as [|c s]; cbn [splits tl]; [intros []|].
  intros Hin. split; [right; exact Hin|].
  destruct (cls c); [|destruct Hin].
  apply in_map_iff in Hin as ([w' r'] & [= <- <-] & _). reflexivity.
Qed.

Lemma candidates_sound (cls : ascii -> bool) (q : quant) (s w r : text) :
  In (w, r) (candidates cls q s) ->
  s = w ++ r /\ forallb cls w = true
  /\ match q with Plus => (1 <=? length w)%nat = true | _ => True end.
Proof.
  destruct q; cbn [candidates]; intros Hin.
  - apply in_rev, splits_tail_not_empty in Hin as [Hin Hlen].
    destruct (splits_sound _ _ _ _ Hin). auto.
  - apply in_rev in Hin. destruct (splits_sound _ _ _ _ Hin). auto.
  - destruct (splits_sound _ _ _ _ Hin). auto.
Qed.

Lemma first_match_Some {A B} (f : A -> option B) (l : list A) (y : B) :
  first_match f l = Some y -> exists x, In x l /\ f x = Some y.
Proof.
  induction l as [|x l IH]; cbn [first_match]; [discriminate|].
  destruct (f x) as [y'|] eqn:E.
  - intros [= <-]. exists x. split; [left; reflexivity|exact E].
  - intros Hy. destruct (IH Hy) as (x' & Hin & Hx'). exists x'. split; [right|]; assumption.
Qed.

Lemma match_here_lit_inv (l : text) (p : regex) (s : text) (gs : list text) (r : text) :
  match_here (Lit l :: p) s = Some (gs, r) ->
  exists s', s = l ++ s' /\ match_here p s' = Some (gs, r).
Proof.
  cbn [match_here]. destruct (strip_prefix l s) as [s'|] eqn:E; [|discriminate].
  intros Hm. exists s'. split; [apply strip_prefix_Some; exact E|exact Hm].
Qed.

Lemma match_here_group_inv (cls : ascii -> bool) (q : quant) (p : regex) (s : text)
    (gs : list text) (r : text) :
  match_here (Group cls q :: p) s = Some (gs, r) ->
  exists w s' gs',
    s = w ++ s' /\ gs = w :: gs' /\ forallb cls w = true
    /\ match q with Plus => (1 <=? length w)%nat = true | _ => True end
    /\ match_here p s' = Some (gs', r).
Proof.
  cbn [match_here]. intros Hm.
  apply first_match_Some in Hm as ([w s'] & Hin & Hm). cbn [fst snd] in Hm.
  destruct (match_here p s') as [[gs' r']|] eqn:E; [|discriminate].
  injection Hm as <- <-.
  destruct (candidates_sound _ _ _ _ _ Hin) as (-> & Hw & Hq).
  exists w, s', gs'. auto.
Qed.

Lemma match_here_rep_inv (cls : ascii -> bool) (q : quant) (p : regex) (s : text)
    (gs : list text) (r : text) :
  match_here (Rep cls q :: p) s = Some (gs, r) ->
  exists w s',
    s = w ++ s' /\ forallb cls w = true /\ match_here p s' = Some (gs, r).
Proof.
  cbn [match_here]. intros Hm.
  apply first_match_Some in Hm as ([w s'] & Hin & Hm). cbn [snd] in Hm.
  destruct (candidates_sound _ _ _ _ _ Hin) as (-> & Hw & _).
  exists w, s'. auto.
Qed.

(** Takes the atom at the head of the pattern off a match. *)
Ltac invert_match H :=
  first [ let s' := fresh "s" in
          apply match_here_lit_inv in H as (s' & -> & H)
        | let w := fresh "w" in let s' := fresh "s" in let gs' := fresh "gs" in
          let Hw := fresh "Hw" in let Hq := fresh "Hq" in
          apply match_here_group_inv in H as (w & s' & gs' & -> & -> & Hw & Hq & H)
        | let w := fresh "b" in let s' := fresh "s" in let Hw := fresh "Hb" in
          apply match_here_rep_inv in H as (w & s' & -> & Hw & H) ].

Lemma match_actor_syntactic (st : actor_statement) (rest : text) :
  syntactic_actor st = true ->
  match_here actors_pattern (render_actor st ++ rest) = Some (actor_groups st, rest).
Proof.
  intros Hwf. unfold syntactic_actor, is_digits, is_quoted1 in Hwf. split_andb.
  unfold actors_pattern, render_actor. rewrite <- !app_assoc.
  repeat step. reflexivity.
Qed.

Lemma match_movie_syntactic (st : movie_statement) (rest : text) :
  syntactic_movie st = true ->
  match_here movies_pattern (render_movie st ++ rest) = Some (movie_groups st, rest).
Proof.
  intros Hwf.
  unfold syntactic_movie, is_digits, is_quoted1, is_quoted, is_decimal in Hwf. split_andb.
  unfold movies_pattern, render_movie. rewrite <- !app_assoc.
  repeat step. reflexivity.
Qed.

Lemma match_actor_inv (s : text) (gs : list text) (r : text) :
  match_here actors_pattern s = Some (gs, r) ->
  exists st, syntactic_actor st = true /\ gs = actor_groups st /\ s = render_actor st ++ r.
Proof.
  unfold actors_pattern. intros Hm. repeat invert_match Hm.
  cbn [match_here] in Hm. injection Hm as <- <-.
  exists {| st_actor_id := w; st_movie_id := w0; st_actor_imdb_id := w1; st_name := w2 |}.
  unfold syntactic_actor, is_digits, is_quoted1, actor_groups, render_actor.
  cbn [st_actor_id st_movie_id st_actor_imdb_id st_name].
  repeat match goal with H : _ = true |- _ => rewrite H; clear H end.
  split; [reflexivity|]. split; [reflexivity|].
  rewrite <- !app_assoc. reflexivity.
Qed.

Lemma match_movie_inv (s : text) (gs : list text) (r : text) :
  match_here movies_pattern s = Some (gs, r) ->
  exists st, syntactic_movie st = true /\ gs = movie_groups st /\ s = render_movie st ++ r.
Proof.
  unfold movies_pattern. intros Hm. repeat invert_match Hm.
  cbn [match_here] in Hm. injection Hm as <- <-.
  exists {| st_id := w; st_imdb_id := w0; st_title := w1; st_director := w2;
            st_blank1 := b; st_year := w3; st_rating := w4; st_genres := w5;
            st_blank2 := b0; st_runtime := w6; st_country := w7; st_language := w8;
            st_blank3 := b1; st_imdb_score := w9; st_imdb_votes := w10;
            st_metacritic_score := w11 |}.
  unfold syntactic_movie, is_digits, is_quoted1, is_quoted, is_decimal,
    movie_groups, render_movie.
  cbn [st_id st_imdb_id st_title st_director st_blank1 st_year st_rating st_genres
       st_blank2 st_runtime st_country st_language st_blank3 st_imdb_score
       st_imdb_votes st_metacritic_score].
  repeat match goal with H : _ = true |- _ => rewrite H; clear H end.
  split; [reflexivity|]. split; [reflexivity|].
  rewrite <- !app_assoc. reflexivity.
Qed.

(** X1: The actors pattern matches at the head of a text exactly when the text
    starts with a statement whose two numbers are digits and whose two texts
    are without quote, none of the four empty; the groups are the four
    fields and the match ends where the statement ends. *)
Theorem actors_pattern_exact (s : text) (gs : list text) (r : text) :
  match_here actors_pattern s = Some (gs, r) <->
  exists st, syntactic_actor st = true /\ gs = actor_groups st /\ s = render_actor st ++ r.
Proof.
  split.
  - apply match_actor_inv.
  - intros (st & Hst & -> & ->). apply match_actor_syntactic. exact Hst.
Qed.

(** X2: The movies pattern matches at the head of a text exactly when the text
    starts with a statement of thirteen fields of the pattern's classes, with
    blanks allowed before the commas that follow director, genres and
    language; the groups are the thirteen fields. *)
Theorem movies_pattern_exact (s : text) (gs : list text) (r : text) :
  match_here movies_pattern s = Some (gs, r) <->
  exists st, syntactic_movie st = true /\ gs = movie_groups st /\ s = render_movie st ++ r.
Proof.
  split.
  - apply match_movie_inv.
  - intros (st & Hst & -> & ->). apply match_movie_syntactic. exact Hst.
Qed.

(** ** What [finditer] yields *)

Lemma finditer_from_sound (p : regex) (s : text) :
  forall (k : nat) (gs : list text),
    In gs (finditer_from p k s) ->
    exists pre s' r, s = pre ++ s' /\ match_here p s' = Some (gs, r).
Proof.
  induction s as [|c s IH]; intros k gs Hin.
  - destruct k; cbn [finditer_from] in Hin; [|destruct Hin].
    destruct (match_here p []) as [[gs' r]|] eqn:E; [|destruct Hin].
    destruct Hin as [<-|[]]. exists [], [], r. auto.
  - assert (Htail : forall k', In gs (finditer_from p k' s) ->
                      exists pre s' r, c :: s = pre ++ s' /\ match_here p s' = Some (gs, r)).
    { intros k' Hk'. destruct (IH _ _ Hk') as (pre & s' & r & -> & Hm).
      exists (c :: pre), s', r. auto. }
    destruct k as [|k]; [|exact (Htail _ Hin)].
    rewrite finditer_from_cons in Hin.
    destruct (match_here p (c :: s)) as [[gs' r]|] eqn:E; [|exact (Htail _ Hin)].
    destruct Hin as [<-|Hin]; [|exact (Htail _ Hin)].
    exists [], (c :: s), r. auto.
Qed.

(** X3: Every tuple that [finditer] yields for either pattern is the tuple of
    fields of a statement that stands in the content. *)
Theorem finditer_yields_statements (content : text) :
  (forall gs, In gs (finditer actors_pattern content) ->
     exists st pre post,
       syntactic_actor st = true /\ gs = actor_groups st
       /\ content = pre ++ render_actor st ++ post)
  /\
  (forall gs, In gs (finditer movies_pattern content) ->
     exists st pre post,
       syntactic_movie st = true /\ gs = movie_groups st
       /\ content = pre ++ render_movie st ++ post).
Proof.
  split; intros gs Hin; apply finditer_from_sound in Hin as (pre & s' & r & -> & Hm).
  - apply match_actor_inv in Hm as (st & Hst & -> & ->). exists st, pre, r. auto.
  - apply match_movie_inv in Hm as (st & Hst & -> & ->). exists st, pre, r. auto.
Qed.

(** ** The insert loops on any matches *)

Lemma execute_insert_actor_new (db : database) (i : Z) (a : actor) :
  actors db !! i = None ->
  execute_insert_actor default_foreign_keys db i a =
    inr {| movies := movies db; actors := <[i := a]> (actors db) |}.
Proof. intros Hi. unfold execute_insert_actor. rewrite Hi. reflexivity. Qed.

Lemma execute_insert_actor_taken (db : database) (i : Z) (a a' : actor) :
  actors db !! i = Some a' ->
  execute_insert_actor default_foreign_keys db i a =
    inl (UniqueConstraintFailed "actors.id").
Proof. intros Hi. unfold execute_insert_actor. rewrite Hi. reflexivity. Qed.

(** What a run of the actor loop that ends without exception has done. *)
Lemma insert_actor_matches_spec (matches : list (list text)) :
  forall (db : database) (out : list event) (n : nat)
         (db' : database) (n' : nat) (out' : list event),
    insert_actor_matches matches db out n = (Ok (db', n'), out') ->
    movies db' = movies db
    /\ (forall i a, actors db !! i = Some a -> actors db' !! i = Some a)
    /\ (forall i a, actors db' !! i = Some a ->
          actors db !! i = Some a
          \/ exists gs actor_id, In gs matches /\ actor_parameters gs = Ok (actor_id, i, a))
    /\ exists warnings,
         out' = out ++ warnings
         /\ Forall is_actor_warning warnings
         /\ (n' + length warnings = n + length matches)%nat
         /\ (size (actors db') + n = size (actors db) + n')%nat.
Proof.
  induction matches as [|gs matches IH]; intros db out n db' n' out' Hrun.
  - cbn [insert_actor_matches] in Hrun. injection Hrun as <- <- <-.
    split; [reflexivity|]. split; [auto|]. split; [auto|].
    exists []. rewrite app_nil_r. split; [reflexivity|]. split; [constructor|].
    simpl. split; lia.
  - cbn [insert_actor_matches] in Hrun.
    destruct (actor_parameters gs) as [[[actor_id i] a]|e] eqn:Hparams; [|discriminate Hrun].
    destruct (actors db !! i) as [a'|] eqn:Hi.
    + rewrite (execute_insert_actor_taken _ _ _ a' Hi) in Hrun.
      destruct (IH _ _ _ _ _ _ Hrun) as (Hm & Hkeep & Hfrom & warnings & -> & Hw & Hn & Hsize).
      split; [exact Hm|]. split; [exact Hkeep|]. split.
      * intros j b Hj. destruct (Hfrom j b Hj) as [Hold|(gs' & aid & Hin & Hp)]; [auto|].
        right. exists gs', aid. split; [right; exact Hin|exact Hp].
      * exists (ActorWarning actor_id (UniqueConstraintFailed "actors.id") :: warnings).
        rewrite <- app_assoc. split; [reflexivity|].
        split; [constructor; [eexists; reflexivity|exact Hw]|].
        cbn [length]. split; lia.
    + rewrite (execute_insert_actor_new _ _ _ Hi) in Hrun.
      destruct (IH _ _ _ _ _ _ Hrun) as (Hm & Hkeep & Hfrom & warnings & -> & Hw & Hn & Hsize).
      cbn [movies actors] in Hm, Hkeep, Hfrom, Hsize.
      rewrite map_size_insert_None in Hsize by exact Hi.
      split; [exact Hm|]. split; [|split].
      * intros j b Hj. apply Hkeep. rewrite lookup_insert_ne; [exact Hj|].
        intros ->. congruence.
      * intros j b Hj. destruct (Hfrom j b Hj) as [Hold|(gs' & aid & Hin & Hp)].
        -- rewrite lookup_insert in Hold. case_decide as Hij.
           ++ injection Hold as <-. subst j. right. exists gs, actor_id.
              split; [left; reflexivity|exact Hparams].
           ++ auto.
        -- right. exists gs', aid. split; [right; exact Hin|exact Hp].
      * exists warnings. split; [reflexivity|]. split; [exact Hw|].
        cbn [length]. split; lia.
Qed.

(** What a run of the movie loop that ends without exception has done. *)
Lemma insert_movie_matches_spec (matches : list (list text)) :
  forall (db : database) (out : list event) (n : nat)
         (db' : database) (n' : nat) (out' : list event),
    insert_movie_matches matches db out n = (Ok (db', n'), out') ->
    actors db' = actors db
    /\ (forall i m, movies db !! i = Some m -> movies db' !! i = Some m)
    /\ (forall i m, movies db' !! i = Some m ->
          movies db !! i = Some m
          \/ exists gs, In gs matches /\ movie_parameters gs = Ok (i, m))
    /\ exists warnings,
         out' = out ++ warnings
         /\ Forall is_movie_warning warnings
         /\ (n' + length warnings = n + length matches)%nat
         /\ (size (movies db') + n = size (movies db) + n')%nat.
Proof.
  induction matches as [|gs matches IH]; intros db out n db' n' out' Hrun.
  - cbn [insert_movie_matches] in Hrun. injection Hrun as <- <- <-.
    split; [reflexivity|]. split; [auto|]. split; [auto|].
    exists []. rewrite app_nil_r. split; [reflexivity|]. split; [constructor|].
    simpl. split; lia.
  - cbn [insert_movie_matches] in Hrun.
    destruct (movie_parameters gs) as [[i m]|e] eqn:Hparams; [|discriminate Hrun].
    destruct (movies db !! i) as [m'|] eqn:Hi.
    + rewrite (execute_insert_movie_taken _ _ _ m' Hi) in Hrun.
      destruct (IH _ _ _ _ _ _ Hrun) as (Ha & Hkeep & Hfrom & warnings & -> & Hw & Hn & Hsize).
      split; [exact Ha|]. split; [exact Hkeep|]. split.
      * intros j b Hj. destruct (Hfrom j b Hj) as [Hold|(gs' & Hin & Hp)]; [auto|].
        right. exists gs'. split; [right; exact Hin|exact Hp].
      * exists (MovieWarning i (UniqueConstraintFailed "movies.id") :: warnings).
        rewrite <- app_assoc. split; [reflexivity|].
        split; [constructor; [eexists; reflexivity|exact Hw]|].
        cbn [length]. split; lia.
    + rewrite (execute_insert_movie_new _ _ _ Hi) in Hrun.
      destruct (IH _ _ _ _ _ _ Hrun) as (Ha & Hkeep & Hfrom & warnings & -> & Hw & Hn & Hsize).
      cbn [movies actors] in Ha, Hkeep, Hfrom, Hsize.
      rewrite map_size_insert_None in Hsize by exact Hi.
      split; [exact Ha|]. split; [|split].
      * intros j b Hj. apply Hkeep. rewrite lookup_insert_ne; [exact Hj|].
        intros ->. congruence.
      * intros j b Hj. destruct (Hfrom j b Hj) as [Hold|(gs' & Hin & Hp)].
        -- rewrite lookup_insert in Hold. case_decide as Hij.
           ++ injection Hold as <-. subst j. right. exists gs.
              split; [left; reflexivity|exact Hparams].
           ++ auto.
        -- right. exists gs'. split; [right; exact Hin|exact Hp].
      * exists warnings. split; [reflexivity|]. split; [exact Hw|].
        cbn [length]. split; lia.
Qed.

(** ** The two loaders on any file *)

(** X4: When [_insert_movies] returns, it has printed one warning for each
    matched statement it did not insert and then the number of those it did;
    the movies table has grown by that number and the actors table is as it
    was. *)
Theorem insert_movies_account (content : text) (w w' : world) :
  _insert_movies (Some content) w = (Ok tt, w') ->
  exists warnings n,
    stdout w' = stdout w ++ warnings ++ [InsertedMovies n]
    /\ Forall is_movie_warning warnings
    /\ (n + length warnings = length (finditer movies_pattern content))%nat
    /\ size (movies (db_file w')) = (size (movies (db_file w)) + n)%nat
    /\ actors (db_file w') = actors (db_file w).
Proof.
  unfold _insert_movies. cbn [read_file].
  destruct (insert_movie_matches (finditer movies_pattern content) (db_file w) (stdout w) 0)
    as [[[db n]|e] out] eqn:Hrun; [|discriminate].
  intros [= <-].
  destruct (insert_movie_matches_spec _ _ _ _ _ _ _ Hrun)
    as (Ha & _ & _ & warnings & -> & Hw & Hn & Hsize).
  exists warnings, n. cbn [stdout db_file set_db].
  split; [rewrite <- app_assoc; reflexivity|]. split; [exact Hw|].
  split; [lia|]. split; [lia|exact Ha].
Qed.

(** X5: When [_insert_actors] returns, it has printed one warning for each
    matched statement it did not insert and then the number of those it did;
    the actors table has grown by that number and the movies table is as it
    was. *)
Theorem insert_actors_account (content : text) (w w' : world) :
  _insert_actors (Some content) w = (Ok tt, w') ->
  exists warnings n,
    stdout w' = stdout w ++ warnings ++ [InsertedActors n]
    /\ Forall is_actor_warning warnings
    /\ (n + length warnings = length (finditer actors_pattern content))%nat
    /\ size (actors (db_file w')) = (size (actors (db_file w)) + n)%nat
    /\ movies (db_file w') = movies (db_file w).
Proof.
  unfold _insert_actors. cbn [read_file].
  destruct (insert_actor_matches (finditer actors_pattern content) (db_file w) (stdout w) 0)
    as [[[db n]|e] out] eqn:Hrun; [|discriminate].
  intros [= <-].
  destruct (insert_actor_matches_spec _ _ _ _ _ _ _ Hrun)
    as (Hm & _ & _ & warnings & -> & Hw & Hn & Hsize).
  exists warnings, n. cbn [stdout db_file set_db].
  split; [rewrite <- app_assoc; reflexivity|]. split; [exact Hw|].
  split; [lia|]. split; [lia|exact Hm].
Qed.

(** X6: Whatever the file holds and however the call ends, a loader leaves every
    row that was stored before as it was, and does not touch the other
    table. *)
Theorem loaders_keep_rows (content : text) (w : world) :
  (forall i m, movies (db_file w) !! i = Some m ->
     movies (db_file (snd (_insert_movies (Some content) w))) !! i = Some m)
  /\ actors (db_file (snd (_insert_movies (Some content) w))) = actors (db_file w)
  /\ (forall i a, actors (db_file w) !! i = Some a ->
        actors (db_file (snd (_insert_actors (Some content) w))) !! i = Some a)
  /\ movies (db_file (snd (_insert_actors (Some content) w))) = movies (db_file w).
Proof.
  unfold _insert_movies, _insert_actors. cbn [read_file].
  destruct (insert_movie_matches (finditer movies_pattern content) (db_file w) (stdout w) 0)
    as [[[dbm nm]|em] outm] eqn:Hm;
  destruct (insert_actor_matches (finditer actors_pattern content) (db_file w) (stdout w) 0)
    as [[[dba na]|ea] outa] eqn:Ha;
  cbn [snd db_file set_db];
  try (destruct (insert_movie_matches_spec _ _ _ _ _ _ _ Hm) as (? & ? & _));
  try (destruct (insert_actor_matches_spec _ _ _ _ _ _ _ Ha) as (? & ? & _));
  auto.
Qed.

Lemma bind_int_cases (z : Z) : bind_int z = Ok z \/ bind_int z = Raise OverflowError.
Proof. unfold bind_int. destruct (_ && _); auto. Qed.







(** ** Where the stored rows come from *)

Lemma bind_int_Ok (z z' : Z) : bind_int z = Ok z' -> z' = z.
Proof. unfold bind_int. destruct (_ && _); [intros [= <-]; reflexivity|discriminate]. Qed.

Lemma int_Ok (s : text) (z : Z) : int s = Ok z -> z = value_of_digits s.
Proof. unfold int. destruct (_ <=? _)%nat; [intros [= <-]; reflexivity|discriminate]. Qed.

Lemma actor_parameters_Ok (st : actor_statement) (actor_id : text) (i : Z) (a : actor) :
  actor_parameters (actor_groups st) = Ok (actor_id, i, a) ->
  actor_of st = (i, a) /\ actor_id = st_actor_id st.
Proof.
  unfold actor_parameters, actor_groups, actor_of.
  destruct (int (st_actor_id st)) as [i0|] eqn:Hi0; cbn [mbind outcome_bind]; [|discriminate].
  destruct (int (st_movie_id st)) as [j0|] eqn:Hj0; cbn [mbind outcome_bind]; [|discriminate].
  destruct (bind_int i0) as [i'|] eqn:Hi; cbn [mbind outcome_bind]; [|discriminate].
  destruct (bind_int j0) as [j'|] eqn:Hj; cbn [mbind outcome_bind]; [|discriminate].
  apply int_Ok in Hi0, Hj0. apply bind_int_Ok in Hi, Hj. subst.
  intros [= <- <- <-]. auto.
Qed.

Lemma movie_parameters_Ok (st : movie_statement) (i : Z) (m : movie) :
  movie_parameters (movie_groups st) = Ok (i, m) -> movie_of st = (i, m).
Proof.
  unfold movie_parameters, movie_groups, movie_of, float_value.
  destruct (int (st_id st)) as [i0|] eqn:Hi0; cbn [mbind outcome_bind]; [|discriminate].
  destruct (int (st_year st)) as [y0|] eqn:Hy0; cbn [mbind outcome_bind]; [|discriminate].
  destruct (int (st_runtime st)) as [r0|] eqn:Hr0; cbn [mbind outcome_bind]; [|discriminate].
  destruct (float (st_imdb_score st)) as [x|]; cbn [mbind outcome_bind]; [|discriminate].
  destruct (int (st_imdb_votes st)) as [v0|] eqn:Hv0; cbn [mbind outcome_bind]; [|discriminate].
  destruct (float (st_metacritic_score st)) as [y|]; cbn [mbind outcome_bind]; [|discriminate].
  destruct (bind_int i0) as [i'|] eqn:Hi; cbn [mbind outcome_bind]; [|discriminate].
  destruct (bind_int y0) as [y'|] eqn:Hy; cbn [mbind outcome_bind]; [|discriminate].
  destruct (bind_int r0) as [r'|] eqn:Hr; cbn [mbind outcome_bind]; [|discriminate].
  destruct (bind_int v0) as [v'|] eqn:Hv; cbn [mbind outcome_bind]; [|discriminate].
  apply int_Ok in Hi0, Hy0, Hr0, Hv0. apply bind_int_Ok in Hi, Hy, Hr, Hv. subst.
  intros [= <- <-]. reflexivity.
Qed.

Lemma clean_actor_of (st : actor_statement) :
  syntactic_actor st = true -> clean_actor (snd (actor_of st)) = true.
Proof.
  unfold syntactic_actor, clean_actor, actor_of. cbn [snd actor_imdb_id name].
  intros Hst. split_andb.
  repeat match goal with H : _ = true |- _ => rewrite H; clear H end. reflexivity.
Qed.

Lemma clean_movie_of (st : movie_statement) :
  syntactic_movie st = true -> clean_movie (snd (movie_of st)) = true.
Proof.
  unfold syntactic_movie, clean_movie, movie_of.
  cbn [snd imdb_id title director rating genres country language].
  intros Hst. split_andb.
  repeat match goal with H : is_quoted1 _ = true |- _ => rewrite H; clear H end.
  repeat match goal with H : is_quoted _ = true |- _ => rewrite H; clear H end.
  reflexivity.
Qed.

Lemma finditer_actor_statement (content : text) (gs : list text) (actor_id : text)
    (i : Z) (a : actor) :
  In gs (finditer actors_pattern content) ->
  actor_parameters gs = Ok (actor_id, i, a) ->
  clean_actor a = true
  /\ exists st pre post,
       syntactic_actor st = true /\ content = pre ++ render_actor st ++ post
       /\ actor_of st = (i, a).
Proof.
  intros Hin Hp. apply finditer_from_sound in Hin as (pre & s' & r & -> & Hm).
  apply match_actor_inv in Hm as (st & Hst & -> & ->).
  apply actor_parameters_Ok in Hp as [Hof _].
  split.
  - pose proof (clean_actor_of st Hst) as Hc. rewrite Hof in Hc. exact Hc.
  - exists st, pre, r. auto.
Qed.

Lemma finditer_movie_statement (content : text) (gs : list text) (i : Z) (m : movie) :
  In gs (finditer movies_pattern content) ->
  movie_parameters gs = Ok (i, m) ->
  clean_movie m = true
  /\ exists st pre post,
       syntactic_movie st = true /\ content = pre ++ render_movie st ++ post
       /\ movie_of st = (i, m).
Proof.
  intros Hin Hp. apply finditer_from_sound in Hin as (pre & s' & r & -> & Hm).
  apply match_movie_inv in Hm as (st & Hst & -> & ->).
  apply movie_parameters_Ok in Hp.
  split.
  - pose proof (clean_movie_of st Hst) as Hc. rewrite Hp in Hc. exact Hc.
  - exists st, pre, r. auto.
Qed.

(** X8: After the constructor has returned, every stored movie is the row of a
    statement that stands in movies.sql and every stored actor the row of a
    statement that stands in actors.sql; no text column of a stored row
    holds a quote, and no catalog id or actor name is empty. *)
Theorem stored_rows_from_statements (w w' : world) (actors_text movies_text : text) :
  actors_sql w = Some actors_text ->
  movies_sql w = Some movies_text ->
  __init__ w = (Ok tt, w') ->
  (forall i m, movies (db_file w') !! i = Some m ->
     clean_movie m = true
     /\ exists st pre post,
          syntactic_movie st = true
          /\ movies_text = pre ++ render_movie st ++ post
          /\ movie_of st = (i, m))
  /\
  (forall i a, actors (db_file w') !! i = Some a ->
     clean_actor a = true
     /\ exists st pre post,
          syntactic_actor st = true
          /\ actors_text = pre ++ render_actor st ++ post
          /\ actor_of st = (i, a)).
Proof.
  intros Ha Hm.
  unfold __init__, _parse_and_insert_sql_files, _initialize_database.
  cbn [actors_sql movies_sql set_db]. rewrite Ha, Hm.
  unfold _insert_movies. cbn [read_file db_file stdout set_db].
  destruct (insert_movie_matches (finditer movies_pattern movies_text) empty_database
              (stdout w ++ [TablesCreated]) 0) as [[[db1 n1]|e1] out1] eqn:Hrun1;
    [|discriminate].
  unfold _insert_actors. cbn [read_file db_file stdout set_db actors_sql].
  rewrite Ha. cbn [read_file].
  destruct (insert_actor_matches (finditer actors_pattern actors_text) db1
              (out1 ++ [InsertedMovies n1]) 0) as [[[db2 n2]|e2] out2] eqn:Hrun2;
    [|discriminate].
  intros [= <-]. cbn [db_file set_db].
  destruct (insert_movie_matches_spec _ _ _ _ _ _ _ Hrun1) as (Hact1 & _ & Hfrom1 & _).
  destruct (insert_actor_matches_spec _ _ _ _ _ _ _ Hrun2) as (Hmov2 & _ & Hfrom2 & _).
  split.
  - intros i m Hi. rewrite Hmov2 in Hi.
    destruct (Hfrom1 i m Hi) as [Hold|(gs & Hin & Hp)].
    + cbn in Hold. rewrite lookup_empty in Hold. discriminate Hold.
    + exact (finditer_movie_statement _ _ _ _ Hin Hp).
  - intros i a Hi.
    destruct (Hfrom2 i a Hi) as [Hold|(gs & aid & Hin & Hp)].
    + rewrite Hact1 in Hold. cbn in Hold. rewrite lookup_empty in Hold. discriminate Hold.
    + exact (finditer_actor_statement _ _ _ _ _ Hin Hp).
Qed.

(** ** Well-formed files with repeated identifiers *)

Lemma union_insert_taken {V} (m l : gmap Z V) (i : Z) (x y : V) :
  m !! i = Some y -> m ∪ <[i := x]> l = m ∪ l.
Proof.
  intros Hi. apply map_eq. intros j. rewrite !lookup_union.
  destruct (decide (i = j)) as [<-|Hne].
  - rewrite Hi, lookup_insert_eq. destruct (l !! i); reflexivity.
  - rewrite lookup_insert_ne by exact Hne. reflexivity.
Qed.

Lemma union_insert_new {V} (m l : gmap Z V) (i : Z) (x : V) :
  m !! i = None -> <[i := x]> m ∪ l = m ∪ <[i := x]> l.
Proof. intros Hi. rewrite <- insert_union_l. apply insert_union_r. exact Hi. Qed.

(** On well-formed statements the movie loop does not raise, and the table
    it leaves is the one before, extended by the statements' rows, an
    earlier row winning over a later one with the same identifier. *)
Lemma insert_movie_matches_well_formed (sts : list movie_statement) :
  Forall (fun st => well_formed_movie st = true) sts ->
  forall (db : database) (out : list event) (n : nat),
  exists n' out',
    insert_movie_matches (map movie_groups sts) db out n =
      (Ok ({| movies := movies db ∪ list_to_map (map movie_of sts);
              actors := actors db |}, n'), out').
Proof.
  induction 1 as [|st sts Hst _ IH]; intros db out n.
  - exists n, out. cbn [map insert_movie_matches list_to_map foldr].
    rewrite (right_id_L ∅ (∪)). destruct db. reflexivity.
  - cbn [map insert_movie_matches].
    rewrite movie_parameters_well_formed by exact Hst.
    change (movie_of st) with (fst (movie_of st), snd (movie_of st)) at 1.
    cbv beta iota. cbn [list_to_map foldr].
    destruct (movies db !! fst (movie_of st)) as [m'|] eqn:Hi.
    + rewrite (execute_insert_movie_taken _ _ _ m' Hi).
      destruct (IH db (out ++ [MovieWarning (fst (movie_of st))
                                 (UniqueConstraintFailed "movies.id")]) n)
        as (n' & out' & ->).
      exists n', out'. rewrite (union_insert_taken _ _ _ _ m' Hi). reflexivity.
    + rewrite (execute_insert_movie_new _ _ _ Hi).
      destruct (IH {| movies := <[fst (movie_of st) := snd (movie_of st)]> (movies db);
                      actors := actors db |} out (S n)) as (n' & out' & ->).
      exists n', out'. cbn [movies actors].
      rewrite (union_insert_new _ _ _ _ Hi). reflexivity.
Qed.

Lemma insert_actor_matches_well_formed (sts : list actor_statement) :
  Forall (fun st => well_formed_actor st = true) sts ->
  forall (db : database) (out : list event) (n : nat),
  exists n' out',
    insert_actor_matches (map actor_groups sts) db out n =
      (Ok ({| movies := movies db;
              actors := actors db ∪ list_to_map (map actor_of sts) |}, n'), out').
Proof.
  induction 1 as [|st sts Hst _ IH]; intros db out n.
  - exists n, out. cbn [map insert_actor_matches list_to_map foldr].
    rewrite (right_id_L ∅ (∪)). destruct db. reflexivity.
  - cbn [map insert_actor_matches].
    rewrite actor_parameters_well_formed by exact Hst.
    cbv beta iota. cbn [list_to_map foldr].
    destruct (actors db !! fst (actor_of st)) as [a'|] eqn:Hi.
    + rewrite (execute_insert_actor_taken _ _ _ a' Hi).
      destruct (IH db (out ++ [ActorWarning (st_actor_id st)
                                 (UniqueConstraintFailed "actors.id")]) n)
        as (n' & out' & ->).
      exists n', out'. rewrite (union_insert_taken _ _ _ _ a' Hi). reflexivity.
    + rewrite (execute_insert_actor_new _ _ _ Hi).
      destruct (IH {| movies := movies db;
                      actors := <[fst (actor_of st) := snd (actor_of st)]> (actors db) |}
                   out (S n)) as (n' & out' & ->).
      exists n', out'. cbn [movies actors].
      rewrite (union_insert_new _ _ _ _ Hi). reflexivity.
Qed.

Lemma list_to_map_first {V} (before after : list (Z * V)) (i : Z) (x : V) :
  ~ In i (map fst before) ->
  (list_to_map (before ++ (i, x) :: after) : gmap Z V) !! i = Some x.
Proof.
  induction before as [|[j y] before IH]; intros Hi; cbn [app list_to_map foldr fst snd].
  - apply lookup_insert_eq.
  - cbn [map fst] in Hi. rewrite lookup_insert_ne.
    + apply IH. intros Hin. apply Hi. right. exact Hin.
    + intros ->. apply Hi. left. reflexivity.
Qed.

Lemma list_to_map_keys {V} (rows : list (Z * V)) (i : Z) :
  is_Some ((list_to_map rows : gmap Z V) !! i) <-> In i (map fst rows).
Proof.
  rewrite <- keys_map, <- list_elem_of_In, <- not_eq_None_Some.
  split.
  - intros Hn. destruct (decide (i ∈ rows.*1)) as [Hin|Hout]; [exact Hin|].
    exfalso. apply Hn. apply not_elem_of_list_to_map_1. exact Hout.
  - intros Hin Hnone. apply not_elem_of_list_to_map_2 in Hnone. apply Hnone. exact Hin.
Qed.

(** X9: Two files of well-formed statements, identifiers repeated at will: the
    constructor returns; of the statements with one identifier the first in
    the file is the one stored, and a table has a row for exactly the
    identifiers of its file. *)
Theorem first_statement_wins (ms : list movie_statement) (acs : list actor_statement)
    (w : world) :
  Forall (fun st => well_formed_movie st = true) ms ->
  Forall (fun st => well_formed_actor st = true) acs ->
  movies_sql w = Some (sql_file (map render_movie ms)) ->
  actors_sql w = Some (sql_file (map render_actor acs)) ->
  exists w',
    __init__ w = (Ok tt, w')
    /\ (forall before st after,
          ms = before ++ st :: after ->
          ~ In (movie_key st) (map movie_key before) ->
          movies (db_file w') !! movie_key st = Some (snd (movie_of st)))
    /\ (forall before st after,
          acs = before ++ st :: after ->
          ~ In (actor_key st) (map actor_key before) ->
          actors (db_file w') !! actor_key st = Some (snd (actor_of st)))
    /\ (forall i, is_Some (movies (db_file w') !! i) <-> In i (map movie_key ms))
    /\ (forall i, is_Some (actors (db_file w') !! i) <-> In i (map actor_key acs)).
Proof.
  intros Hms Hacs Hmfile Hafile.
  unfold __init__, _parse_and_insert_sql_files, _initialize_database.
  cbn [actors_sql movies_sql set_db]. rewrite Hmfile, Hafile.
  unfold _insert_movies. cbn [read_file db_file stdout set_db].
  rewrite finditer_movies_file by exact Hms.
  destruct (insert_movie_matches_well_formed ms Hms empty_database
              (stdout w ++ [TablesCreated]) 0%nat) as (n & out & ->).
  unfold _insert_actors. cbn [db_file stdout set_db actors_sql].
  rewrite Hafile. cbn [read_file].
  rewrite finditer_actors_file by exact Hacs.
  match goal with
  | |- context [insert_actor_matches _ ?db ?o ?k] =>
      destruct (insert_actor_matches_well_formed acs Hacs db o k) as (n' & out' & ->)
  end.
  cbn [movies actors empty_database db_file set_db].
  rewrite !(left_id_L ∅ (∪)).
  eexists. split; [reflexivity|]. cbn [db_file set_db movies actors].
  split; [|split; [|split]].
  - intros before st after -> Hfirst. rewrite map_app. cbn [map].
    change (movie_of st) with (movie_key st, snd (movie_of st)) at 1.
    apply list_to_map_first. rewrite movie_keys. exact Hfirst.
  - intros before st after -> Hfirst. rewrite map_app. cbn [map].
    change (actor_of st) with (actor_key st, snd (actor_of st)) at 1.
    apply list_to_map_first. rewrite actor_keys. exact Hfirst.
  - intros i. rewrite list_to_map_keys, movie_keys. reflexivity.
  - intros i. rewrite list_to_map_keys, actor_keys. reflexivity.
Qed.

(** ** A statement whose values are refused *)











(** ** The constructor starts from scratch *)

Lemma insert_movie_matches_out (matches : list (list text)) :
  forall (db : database) (out : list event) (n : nat),
    insert_movie_matches matches db out n =
      (fst (insert_movie_matches matches db [] n),
       out ++ snd (insert_movie_matches matches db [] n)).
Proof.
  induction matches as [|gs matches IH]; intros db out n; cbn [insert_movie_matches].
  - rewrite app_nil_r. reflexivity.
  - destruct (movie_parameters gs) as [[i m]|e]; [|rewrite app_nil_r; reflexivity].
    destruct (execute_insert_movie db i m) as [err|db'].
    + rewrite (IH db (out ++ _) n), (IH db ([] ++ _) n). cbn [fst snd].
      rewrite <- app_assoc. reflexivity.
    + apply IH.
Qed.

Lemma insert_actor_matches_out (matches : list (list text)) :
  forall (db : database) (out : list event) (n : nat),
    insert_actor_matches matches db out n =
      (fst (insert_actor_matches matches db [] n),
       out ++ snd (insert_actor_matches matches db [] n)).
Proof.
  induction matches as [|gs matches IH]; intros db out n; cbn [insert_actor_matches].
  - rewrite app_nil_r. reflexivity.
  - destruct (actor_parameters gs) as [[[aid i] a]|e]; [|rewrite app_nil_r; reflexivity].
    destruct (execute_insert_actor default_foreign_keys db i a) as [err|db'].
    + rewrite (IH db (out ++ _) n), (IH db ([] ++ _) n). cbn [fst snd].
      rewrite <- app_assoc. reflexivity.
    + apply IH.
Qed.

(** X12: What the constructor returns, stores and prints is decided by the two
    source files alone: neither the tables that the storage file held before
    nor anything printed earlier has a part in it. The source files
    themselves are left as they are. *)
Theorem constructor_starts_from_scratch (w1 w2 : world) :
  actors_sql w1 = actors_sql w2 ->
  movies_sql w1 = movies_sql w2 ->
  fst (__init__ w1) = fst (__init__ w2)
  /\ db_file (snd (__init__ w1)) = db_file (snd (__init__ w2))
  /\ (exists printed,
        stdout (snd (__init__ w1)) = stdout w1 ++ printed
        /\ stdout (snd (__init__ w2)) = stdout w2 ++ printed)
  /\ actors_sql (snd (__init__ w1)) = actors_sql w1
  /\ movies_sql (snd (__init__ w1)) = movies_sql w1.
Proof.
  destruct w1 as [a1 m1 db1 out1], w2 as [a2 m2 db2 out2].
  cbn [actors_sql movies_sql stdout]. intros <- <-.
  unfold __init__, _parse_and_insert_sql_files, _initialize_database.
  cbn [actors_sql movies_sql set_db db_file stdout].
  destruct a1 as [actors_text|]; [|cbn; repeat split; eexists; split; reflexivity].
  destruct m1 as [movies_text|]; [|cbn; repeat split; eexists; split; reflexivity].
  unfold _insert_movies. cbn [read_file db_file stdout set_db].
  rewrite (insert_movie_matches_out _ _ (out1 ++ _)),
          (insert_movie_matches_out _ _ (out2 ++ _)).
  destruct (insert_movie_matches (finditer movies_pattern movies_text) empty_database [] 0)
    as [[[db n]|e] printed_m].
  - cbn [fst snd]. unfold _insert_actors. cbn [read_file db_file stdout set_db actors_sql].
    rewrite !(insert_actor_matches_out _ _ (_ ++ _)).
    destruct (insert_actor_matches (finditer actors_pattern actors_text) db [] 0)
      as [[[db' n']|e] printed_a]; cbn [fst snd set_db db_file stdout actors_sql movies_sql];
      (split; [reflexivity|]); (split; [reflexivity|]); (split; [|split; reflexivity]).
    + exists ([TablesCreated] ++ printed_m ++ [InsertedMovies n] ++ printed_a
                ++ [InsertedActors n'] ++ [DataInserted]).
      rewrite <- !app_assoc. split; reflexivity.
    + exists ([TablesCreated] ++ printed_m ++ [InsertedMovies n] ++ printed_a).
      rewrite <- !app_assoc. split; reflexivity.
  - cbn [fst snd set_db db_file stdout actors_sql movies_sql].
    split; [reflexivity|]. split; [reflexivity|]. split; [|split; reflexivity].
    exists ([TablesCreated] ++ printed_m). rewrite <- !app_assoc. split; reflexivity.
Qed.

(** ** Which loads keep the reference from actors to movies *)

Lemma init_well_formed (ms : list movie_statement) (acs : list actor_statement) (w : world) :
  Forall (fun st => well_formed_movie st = true) ms ->
  Forall (fun st => well_formed_actor st = true) acs ->
  movies_sql w = Some (sql_file (map render_movie ms)) ->
  actors_sql w = Some (sql_file (map render_actor acs)) ->
  exists w',
    __init__ w = (Ok tt, w')
    /\ db_file w' = {| movies := list_to_map (map movie_of ms);
                       actors := list_to_map (map actor_of acs) |}.
Proof.
  intros Hms Hacs Hmfile Hafile.
  unfold __init__, _parse_and_insert_sql_files, _initialize_database.
  cbn [actors_sql movies_sql set_db]. rewrite Hmfile, Hafile.
  unfold _insert_movies. cbn [read_file db_file stdout set_db].
  rewrite finditer_movies_file by exact Hms.
  destruct (insert_movie_matches_well_formed ms Hms empty_database
              (stdout w ++ [TablesCreated]) 0%nat) as (n & out & ->).
  unfold _insert_actors. cbn [db_file stdout set_db actors_sql].
  rewrite Hafile. cbn [read_file].
  rewrite finditer_actors_file by exact Hacs.
  match goal with
  | |- context [insert_actor_matches _ ?db ?o ?k] =>
      destruct (insert_actor_matches_well_formed acs Hacs db o k) as (n' & out' & ->)
  end.
  cbn [movies actors empty_database db_file set_db].
  rewrite !(left_id_L ∅ (∪)).
  eexists. split; reflexivity.
Qed.

(** X13: After loading two files of well-formed statements, the actor
    identifiers distinct: every stored actor names a stored movie exactly
    when every actor statement names the identifier of some movie statement.
    Nothing in the load enforces it. *)
Theorem referential_integrity_of_load (ms : list movie_statement)
    (acs : list actor_statement) (w : world) :
  Forall (fun st => well_formed_movie st = true) ms ->
  Forall (fun st => well_formed_actor st = true) acs ->
  NoDup (map actor_key acs) ->
  movies_sql w = Some (sql_file (map render_movie ms)) ->
  actors_sql w = Some (sql_file (map render_actor acs)) ->
  exists w',
    __init__ w = (Ok tt, w')
    /\ (referential_integrity (db_file w') <->
          forall a, In a acs -> In (value_of_digits (st_movie_id a)) (map movie_key ms)).
Proof.
  intros Hms Hacs Hnd Hmfile Hafile.
  destruct (init_well_formed ms acs w Hms Hacs Hmfile Hafile) as (w' & Hinit & Hdb).
  exists w'. split; [exact Hinit|]. rewrite Hdb.
  unfold referential_integrity. cbn [movies actors]. split.
  - intros Hri a Ha.
    rewrite <- movie_keys. apply list_to_map_keys.
    apply (Hri (actor_key a) (snd (actor_of a))).
    apply elem_of_list_to_map_1.
    + rewrite keys_map, actor_keys. exact Hnd.
    + apply list_elem_of_In. apply in_map_iff. exists a. split; [reflexivity|exact Ha].
  - intros Hall i a Hi.
    apply elem_of_list_to_map_2, list_elem_of_In, in_map_iff in Hi as (st & Hst & Hin).
    injection Hst as <- <-. cbn [movie_id].
    apply list_to_map_keys. rewrite movie_keys. apply Hall. exact Hin.
Qed.

(** ** The statistics *)

Lemma fold_min_spec (l : list Z) (x : Z) :
  (fold_left Z.min l x = x \/ In (fold_left Z.min l x) l)
  /\ fold_left Z.min l x <= x
  /\ forall y, In y l -> fold_left Z.min l x <= y.
Proof.
  revert x. induction l as [|a l IH]; intros x; cbn [fold_left].
  - split; [left; reflexivity|]. split; [lia|intros y []].
  - destruct (IH (Z.min x a)) as (Hin & Hle & Hall).
    split; [|split].
    + destruct Hin as [Heq|Hin]; [|right; right; exact Hin].
      rewrite Heq. destruct (Z.min_spec x a) as [[_ ->]|[_ ->]]; [left|right; left]; reflexivity.
    + lia.
    + intros y [<-|Hy]; [lia|exact (Hall y Hy)].
Qed.

Lemma fold_max_spec (l : list Z) (x : Z) :
  (fold_left Z.max l x = x \/ In (fold_left Z.max l x) l)
  /\ x <= fold_left Z.max l x
  /\ forall y, In y l -> y <= fold_left Z.max l x.
Proof.
  revert x. induction l as [|a l IH]; intros x; cbn [fold_left].
  - split; [left; reflexivity|]. split; [lia|intros y []].
  - destruct (IH (Z.max x a)) as (Hin & Hle & Hall).
    split; [|split].
    + destruct Hin as [Heq|Hin]; [|right; right; exact Hin].
      rewrite Heq. destruct (Z.max_spec x a) as [[_ ->]|[_ ->]]; [right; left|left]; reflexivity.
    + lia.
    + intros y [<-|Hy]; [lia|exact (Hall y Hy)].
Qed.

Lemma stored_years (db : database) (y : Z) :
  In y (map year (map snd (map_to_list (movies db)))) <->
    exists i m, movies db !! i = Some m /\ year m = y.
Proof.
  rewrite map_map, in_map_iff. split.
  - intros ([i m] & <- & Hin). exists i, m. split; [|reflexivity].
    apply elem_of_map_to_list, list_elem_of_In. exact Hin.
  - intros (i & m & Hm & <-). exists (i, m). split; [reflexivity|].
    apply list_elem_of_In, elem_of_map_to_list. exact Hm.
Qed.

(** X14: On a movies table that is not empty, the year range of the statistics
    is made of the year of some stored movie at either end, and the year of
    every stored movie lies within it. *)
Theorem year_range_bounds (engine : SqlEngine) (db : database) :
  movies db <> ∅ ->
  exists lo hi,
    year_range_min (get_all_stats db) = Some lo
    /\ year_range_max (get_all_stats db) = Some hi
    /\ (exists i m, movies db !! i = Some m /\ year m = lo)
    /\ (exists i m, movies db !! i = Some m /\ year m = hi)
    /\ forall i m, movies db !! i = Some m -> lo <= year m <= hi.
Proof.
  intros Hne. unfold get_all_stats. cbn [year_range_min year_range_max].
  pose proof (stored_years db) as Hyears.
  destruct (map year (map snd (map_to_list (movies db)))) as [|y ys] eqn:E.
  - exfalso. apply Hne. apply map_to_list_empty_iff.
    destruct (map_to_list (movies db)); [reflexivity|discriminate E].
  - cbn [minimum maximum].
    destruct (fold_min_spec ys y) as (Hmin_in & Hmin_le & Hmin_all).
    destruct (fold_max_spec ys y) as (Hmax_in & Hmax_le & Hmax_all).
    exists (fold_left Z.min ys y), (fold_left Z.max ys y).
    split; [reflexivity|]. split; [reflexivity|]. split; [|split].
    + apply Hyears. destruct Hmin_in as [->|Hin]; [left; reflexivity|right; exact Hin].
    + apply Hyears. destruct Hmax_in as [->|Hin]; [left; reflexivity|right; exact Hin].
    + intros i m Hm.
      assert (Hin : In (year m) (y :: ys)) by (apply Hyears; eauto).
      destruct Hin as [<-|Hin]; [lia|].
      specialize (Hmin_all _ Hin). specialize (Hmax_all _ Hin). lia.
Qed.

(** *** Dictionaries *)

Lemma dict_get_None {V} (k : text) (d : dict V) :
  dict_get k d = None <-> ~ In k (map fst d).
Proof.
  induction d as [|[k' v] d IH]; cbn [dict_get map fst In].
  - tauto.
  - destruct (decide (k' = k)) as [->|Hne].
    + split; [discriminate|]. intros Hn. exfalso. apply Hn. left. reflexivity.
    + rewrite IH. tauto.
Qed.

Lemma dict_set_keys {V} (k : text) (v : V) (d : dict V) :
  map fst (dict_set k v d) =
    match dict_get k d with
    | Some _ => map fst d
    | None => map fst d ++ [k]
    end.
Proof.
  induction d as [|[k' v'] d IH]; cbn [dict_set dict_get map fst app]; [reflexivity|].
  destruct (decide (k' = k)) as [->|Hne]; [reflexivity|].
  cbn [map fst]. rewrite IH. destruct (dict_get k d); reflexivity.
Qed.

Lemma dict_set_NoDup {V} (k : text) (v : V) (d : dict V) :
  NoDup (map fst d) -> NoDup (map fst (dict_set k v d)).
Proof.
  intros Hnd. rewrite dict_set_keys.
  destruct (dict_get k d) eqn:E; [exact Hnd|].
  apply NoDup_app. split; [exact Hnd|]. split; [|apply NoDup_singleton].
  intros x Hx Hk. apply list_elem_of_In in Hx. apply list_elem_of_In in Hk.
  destruct Hk as [<-|[]]. apply dict_get_None in E. contradiction.
Qed.

Lemma dict_get_In {V} (k : text) (v : V) (d : dict V) :
  NoDup (map fst d) -> dict_get k d = Some v <-> In (k, v) d.
Proof.
  induction d as [|[k' v'] d IH]; intros Hnd; cbn [dict_get In].
  - split; [discriminate|tauto].
  - cbn [map fst] in Hnd. apply NoDup_cons in Hnd as [Hk' Hnd].
    destruct (decide (k' = k)) as [->|Hne].
    + split.
      * intros [= ->]. left. reflexivity.
      * intros [[= ->]|Hin]; [reflexivity|].
        exfalso. apply Hk'. apply list_elem_of_In.
        apply in_map_iff. exists (k, v). auto.
    + rewrite (IH Hnd). split; [tauto|].
      intros [[= -> _]|Hin]; [contradiction|exact Hin].
Qed.

Lemma dict_get_permutation {V} (k : text) (d1 d2 : dict V) :
  d1 ≡ₚ d2 -> NoDup (map fst d1) -> dict_get k d1 = dict_get k d2.
Proof.
  intros Hperm Hnd1.
  assert (Hnd2 : NoDup (map fst d2)).
  { rewrite <- (Permutation_map fst Hperm). exact Hnd1. }
  assert (Hin : forall v, In (k, v) d1 <-> In (k, v) d2).
  { intros v. rewrite <- !list_elem_of_In. rewrite Hperm. reflexivity. }
  destruct (dict_get k d1) as [v|] eqn:E1.
  - symmetry. apply (dict_get_In k v d2 Hnd2), Hin, (dict_get_In k v d1 Hnd1). exact E1.
  - destruct (dict_get k d2) as [v|] eqn:E2; [|reflexivity].
    apply (dict_get_In k v d2 Hnd2), Hin, (dict_get_In k v d1 Hnd1) in E2. congruence.
Qed.

(** *** GROUP BY rating *)

Lemma group_count_keys (ratings : list text) (acc : dict nat) :
  NoDup (map fst acc) -> NoDup (map fst (group_count ratings acc)).
Proof.
  revert acc. induction ratings as [|r ratings IH]; intros acc Hnd; cbn [group_count].
  - exact Hnd.
  - apply IH, dict_set_NoDup, Hnd.
Qed.

Lemma group_count_get (ratings : list text) (acc : dict nat) (r : text) :
  dict_get r (group_count ratings acc) =
    match length (List.filter (fun x => bool_decide (x = r)) ratings) with
    | O => dict_get r acc
    | S c => Some (S c + default 0%nat (dict_get r acc))%nat
    end.
Proof.
  revert acc. induction ratings as [|x ratings IH]; intros acc;
    cbn [group_count List.filter length]; [reflexivity|].
  rewrite IH. destruct (decide (x = r)) as [->|Hne].
  - rewrite bool_decide_eq_true_2 by reflexivity. cbn [length].
    rewrite dict_get_set_eq. cbn [default].
    destruct (length (List.filter (fun x => bool_decide (x = r)) ratings));
      apply (f_equal Some); unfold Datatypes.id; lia.
  - rewrite bool_decide_eq_false_2 by exact Hne.
    rewrite dict_get_set_ne by exact Hne. reflexivity.
Qed.

Lemma filter_map_length {A B} (f : A -> B) (test : B -> bool) (l : list A) :
  length (List.filter test (map f l)) = length (List.filter (fun x => test (f x)) l).
Proof.
  induction l as [|x l IH]; cbn [map List.filter]; [reflexivity|].
  destruct (test (f x)); cbn [length]; rewrite IH; reflexivity.
Qed.

Lemma rated_ratings (r : text) (db : database) :
  length (List.filter (fun x => bool_decide (x = r))
            (map rating (map snd (map_to_list (movies db))))) = rated r db.
Proof. rewrite map_map, filter_map_length. reflexivity. Qed.

Lemma rated_rows (r : text) (db : database) :
  length (rows_rated r (movies_with_actor_count db)) = rated r db.
Proof.
  unfold rows_rated, movies_with_actor_count. rewrite filter_map_length. reflexivity.
Qed.

(** X15: The rating distribution of the statistics has one entry for each rating
    that some stored movie carries, and none for any other; the entry holds
    the number of stored movies of that rating, and the entries stand in the
    ascending order of the ratings. *)
Theorem rating_distribution_counts (engine : SqlEngine) (db : database) :
  (forall r,
     dict_get r (stats_rating_distribution (get_all_stats db)) =
       match rated r db with
       | O => None
       | S c => Some (S c)
       end)
  /\ NoDup (map fst (stats_rating_distribution (get_all_stats db)))
  /\ StronglySorted (fun x y => text_leb (fst x) (fst y) = true)
       (stats_rating_distribution (get_all_stats db)).
Proof.
  unfold get_all_stats. cbn [stats_rating_distribution].
  set (groups := group_count (map rating (map snd (map_to_list (movies db)))) []).
  assert (Hnd : NoDup (map fst groups)) by (apply group_count_keys; constructor).
  pose proof (order_by_permutation _ (asc text_leb fst) groups) as Hperm.
  split; [|split].
  - intros r. rewrite (dict_get_permutation r _ groups Hperm).
    + unfold groups. rewrite group_count_get, rated_ratings.
      destruct (rated r db); [reflexivity|]. cbn [dict_get default].
      apply (f_equal Some). lia.
    + rewrite (Permutation_map fst Hperm). exact Hnd.
  - rewrite (Permutation_map fst Hperm). exact Hnd.
  - apply (order_by_sorted _ (asc text_leb fst)).
    + apply asc_total, text_leb_total.
    + apply asc_transitive, text_leb_transitive.
Qed.

(** X16: The queries agree with each other on the ratings: the rating lookup
    returns as many movies as the statistics count for that rating, and a
    breakdown whose limit is negative (which SQLite reads as no limit) or at
    least the number of movies counts what the statistics count, over all
    the movies. *)
Theorem queries_agree_on_ratings (engine : SqlEngine) (db : database) (top_n : Z) :
  movies db <> ∅ ->
  - 2 ^ 63 <= top_n <= 2 ^ 63 - 1 ->
  top_n < 0 \/ Z.of_nat (size (movies db)) <= top_n ->
  (forall r,
     length (query_movies_by_rating db r) =
       default 0%nat (dict_get r (stats_rating_distribution (get_all_stats db))))
  /\ exists result,
       get_top_movies_by_rating_breakdown db top_n = Ok (Some result)
       /\ total_movies_in_top result = total_movies (get_all_stats db)
       /\ forall r,
            dict_get r (rating_distribution result) =
              Z.of_nat <$> dict_get r (stats_rating_distribution (get_all_stats db)).
Proof.
  intros Hne Hrange Hall.
  assert (Hstats : forall r,
            dict_get r (stats_rating_distribution (get_all_stats db)) =
              match rated r db with O => None | S c => Some (S c) end).
  { intros r. unfold get_all_stats. cbn [stats_rating_distribution].
    set (groups := group_count (map rating (map snd (map_to_list (movies db)))) []).
    assert (Hnd : NoDup (map fst groups)) by (apply group_count_keys; constructor).
    pose proof (order_by_permutation _ (asc text_leb fst) groups) as Hperm.
    rewrite (dict_get_permutation r _ groups Hperm).
    - unfold groups. rewrite group_count_get, rated_ratings.
      destruct (rated r db); [reflexivity|]. cbn [dict_get default].
      apply (f_equal Some). lia.
    - rewrite (Permutation_map fst Hperm). exact Hnd. }
  split.
  - intros r. rewrite Hstats. unfold query_movies_by_rating.
    rewrite order_by_length. fold (rows_rated r (movies_with_actor_count db)).
    rewrite rated_rows. destruct (rated r db); reflexivity.
  - assert (Htop : top_rows db top_n ≡ₚ movies_with_actor_count db).
    { unfold top_rows, limit. destruct (Z.ltb_spec top_n 0) as [Hneg|Hpos].
      - apply order_by_permutation.
      - rewrite take_ge; [apply order_by_permutation|].
        rewrite order_by_length, movies_with_actor_count_length. lia. }
    rewrite get_top_unfold by exact Hrange.
    pose proof (breakdown_loop (top_rows db top_n)) as Hloop.
    destruct (top_rows db top_n) as [|row top] eqn:E.
    { exfalso. apply (movies_with_actor_count_not_nil db Hne).
      symmetry. apply Permutation_nil_l. exact Htop. }
    eexists. split; [reflexivity|].
    cbn [total_movies_in_top rating_distribution]. split.
    + rewrite (Permutation_length Htop), movies_with_actor_count_length.
      unfold get_all_stats. cbn [total_movies].
      rewrite length_map, length_map_to_list. reflexivity.
    + intros r. destruct (Hloop r) as [_ Hdist]. cbn [snd] in Hdist.
      rewrite Hdist, Hstats.
      pose proof (rows_rated_length r _ _ Htop) as Hlen. rewrite rated_rows in Hlen.
      rewrite <- Hlen.
      destruct (rows_rated r (row :: top)); reflexivity.
Qed.

(** ** Actors that name no stored movie *)

Lemma filter_length_le {A} (test : A -> bool) (l : list A) :
  (length (List.filter test l) <= length l)%nat.
Proof.
  induction l as [|x l IH]; cbn [List.filter length]; [lia|].
  destruct (test x); cbn [length]; lia.
Qed.

Lemma filter_length_all {A} (test : A -> bool) (l : list A) :
  length (List.filter test l) = length l <-> forall x, In x l -> test x = true.
Proof.
  induction l as [|x l IH]; cbn [List.filter length In].
  - split; [intros _ x []|reflexivity].
  - pose proof (filter_length_le test l) as Hle.
    destruct (test x) eqn:E; cbn [length].
    + split.
      * intros Hlen y [<-|Hy]; [exact E|]. apply IH; [lia|exact Hy].
      * intros Hall. f_equal. apply IH. intros y Hy. apply Hall. right. exact Hy.
    + split; [lia|]. intros Hall. rewrite Hall in E by (left; reflexivity). discriminate E.
Qed.

Lemma filter_either {A} (p q : A -> bool) (l : list A) :
  (forall x, p x = true -> q x = false) ->
  length (List.filter (fun x => p x || q x) l) =
    (length (List.filter p l) + length (List.filter q l))%nat.
Proof.
  intros Hpq. induction l as [|x l IH]; cbn [List.filter length]; [reflexivity|].
  destruct (p x) eqn:Ep; cbn [orb].
  - rewrite (Hpq x Ep). cbn [length]. rewrite IH. reflexivity.
  - destruct (q x); cbn [length]; rewrite IH; lia.
Qed.

(** Rows counted key by key, over distinct keys, are the rows whose key is
    one of the keys. *)
Lemma count_by_key {A} (key : A -> Z) (keys : list Z) (l : list A) :
  NoDup keys ->
  sum_list_with (fun k => length (List.filter (fun a => key a =? k) l)) keys =
    length (List.filter (fun a => existsb (Z.eqb (key a)) keys) l).
Proof.
  induction 1 as [|k keys Hk _ IH]; cbn [sum_list_with existsb].
  - induction l as [|a l IHl]; [reflexivity|exact IHl].
  - rewrite IH. symmetry. apply filter_either.
    intros a Ha. apply Z.eqb_eq in Ha. subst k.
    destruct (existsb (Z.eqb (key a)) keys) eqn:E; [|reflexivity].
    apply existsb_exists in E as (k' & Hin & Heq). apply Z.eqb_eq in Heq. subst k'.
    exfalso. apply Hk. apply list_elem_of_In. exact Hin.
Qed.

Lemma sum_list_with_map {A B} (f : B -> nat) (g : A -> B) (l : list A) :
  sum_list_with f (map g l) = sum_list_with (fun x => f (g x)) l.
Proof. induction l as [|x l IH]; cbn [map sum_list_with]; [reflexivity|]. rewrite IH. reflexivity. Qed.

Lemma stored_key (db : database) (k : Z) :
  existsb (Z.eqb k) (map fst (map_to_list (movies db))) = true <-> is_Some (movies db !! k).
Proof.
  rewrite existsb_exists. split.
  - intros (k' & Hin & Heq). apply Z.eqb_eq in Heq. subst k'.
    apply in_map_iff in Hin as ([i m] & <- & Hin).
    exists m. apply elem_of_map_to_list, list_elem_of_In. exact Hin.
  - intros [m Hm]. exists k. split; [|apply Z.eqb_refl].
    apply in_map_iff. exists (k, m). split; [reflexivity|].
    apply list_elem_of_In, elem_of_map_to_list. exact Hm.
Qed.

(** X17: The actor counts of the joined rows add up to the number of stored
    actors that name a stored movie: an actor that names none is counted
    under no movie. So the sum is at most the number of actors that the
    statistics give, and equal to it exactly when every stored actor names a
    stored movie. *)
Theorem actor_counts_add_up (engine : SqlEngine) (db : database) :
  sum_list_with actor_count (movies_with_actor_count db) = cast_actors db
  /\ (cast_actors db <= total_actors (get_all_stats db))%nat
  /\ (cast_actors db = total_actors (get_all_stats db) <-> referential_integrity db).
Proof.
  unfold get_all_stats. cbn [total_actors]. split; [|split].
  - unfold movies_with_actor_count, cast_actors. rewrite sum_list_with_map.
    cbn [actor_count]. unfold actors_of.
    rewrite <- (sum_list_with_map
                  (fun k => length (List.filter (fun ia => movie_id (snd ia) =? k)
                                      (map_to_list (actors db)))) fst).
    rewrite count_by_key.
    + f_equal. apply List.filter_ext. intros [i a]. cbn [snd].
      destruct (existsb _ _) eqn:E.
      * symmetry. apply bool_decide_eq_true_2, stored_key. exact E.
      * symmetry. apply bool_decide_eq_false_2. intros Hs.
        apply stored_key in Hs. congruence.
    + rewrite <- keys_map. apply NoDup_fst_map_to_list.
  - apply filter_length_le.
  - unfold cast_actors. rewrite filter_length_all. unfold referential_integrity. split.
    + intros Hall i a Hi.
      assert (Hin : In (i, a) (map_to_list (actors db)))
        by (apply list_elem_of_In, elem_of_map_to_list; exact Hi).
      apply Hall in Hin. cbn [snd] in Hin. apply bool_decide_eq_true in Hin. exact Hin.
    + intros Hri [i a] Hin. cbn [snd]. apply bool_decide_eq_true_2.
      apply (Hri i). apply elem_of_map_to_list, list_elem_of_In. exact Hin.
Qed.

(** ** [main] *)

Lemma longest_some (engine : SqlEngine) (db : database) :
  movies db <> ∅ -> is_Some (get_longest_running_movie db).
Proof.
  intros Hne. unfold get_longest_running_movie.
  destruct (order_by_limit_one (desc Z.leb (fun r => runtime (columns r)))
              (movies_with_actor_count db)
              (desc_total Z.leb _ Z_leb_total)
              (desc_transitive Z.leb _ Z_leb_transitive)
              (movies_with_actor_count_not_nil db Hne)) as (row & -> & _).
  eexists. reflexivity.
Qed.

Lemma most_actors_some (engine : SqlEngine) (db : database) :
  movies db <> ∅ -> is_Some (get_movie_with_most_actors db).
Proof.
  intros Hne. unfold get_movie_with_most_actors.
  destruct (order_by_limit_one (desc Nat.leb actor_count)
              (movies_with_actor_count db)
              (desc_total Nat.leb _ nat_leb_total)
              (desc_transitive Nat.leb _ nat_leb_transitive)
              (movies_with_actor_count_not_nil db Hne)) as (row & -> & _).
  eexists. reflexivity.
Qed.

Lemma top_ten_some (engine : SqlEngine) (db : database) :
  movies db <> ∅ ->
  exists breakdown, get_top_movies_by_rating_breakdown db 10 = Ok (Some breakdown).
Proof.
  intros Hne. rewrite get_top_unfold by lia.
  destruct (top_rows_spec engine db 10) as (rest & Hnil & _); [lia|exact Hne|].
  destruct (top_rows db 10); [contradiction|]. eexists. reflexivity.
Qed.

Lemma longest_none (engine : SqlEngine) (db : database) :
  movies db = ∅ -> get_longest_running_movie db = None.
Proof.
  intros He. unfold get_longest_running_movie.
  rewrite (movies_with_actor_count_empty db He), order_by_nil. reflexivity.
Qed.

(** X18: [main] returns exactly when the constructor has returned and has stored
    a movie. An exception of the constructor leaves [main] before it prints
    a line of its own. When the constructor has returned and the movies table
    is empty, [main] prints the banner and the heading of the first query and
    then raises KeyError, for the key [title] that the empty result of the
    query does not have. *)
Theorem main_needs_a_movie (engine : SqlEngine) (w : world) :
  (fst (fst (main w)) = None <->
     fst (__init__ w) = Ok tt /\ movies (db_file (snd (__init__ w))) <> ∅)
  /\ (forall e, fst (__init__ w) = Raise e ->
        main w = (Some (Propagated e), snd (__init__ w), []))
  /\ (fst (__init__ w) = Ok tt -> movies (db_file (snd (__init__ w))) = ∅ ->
        main w = (Some (KeyError "title"), snd (__init__ w),
                  opening ++ heading "1. LONGEST-RUNNING MOVIE:")).
Proof.
  unfold main. destruct (__init__ w) as [[[]|e] w'] eqn:Hinit; cbn [fst snd].
  - destruct (decide (movies (db_file w') = ∅)) as [He|Hne].
    + rewrite (longest_none engine _ He). cbn [fst].
      split; [|split].
      * split; [discriminate|]. intros [_ Hne]. contradiction.
      * discriminate.
      * reflexivity.
    + destruct (longest_some engine _ Hne) as [longest ->].
      destruct (most_actors_some engine _ Hne) as [most ->].
      destruct (top_ten_some engine _ Hne) as [breakdown ->]. cbn [fst].
      split; [|split].
      * split; [auto|reflexivity].
      * discriminate.
      * intros _ He. contradiction.
  - split; [|split].
    + split; [discriminate|]. intros [Hok _]. discriminate Hok.
    + intros e' [= <-]. reflexivity.
    + discriminate.
Qed.

(** ** A search text that matches every director *)

Lemma like_all_percent (p s : text) :
  forallb (fun c => Ascii.eqb c "%") p = true -> p <> [] -> like_chars p s = true.
Proof.
  induction p as [|c p IH]; intros Hp Hne; [contradiction|].
  cbn [forallb] in Hp. apply andb_prop in Hp as [Hc Hp].
  apply Ascii.eqb_eq in Hc. subst c.
  destruct p as [|c' p'].
  - apply like_only_percent.
  - apply like_percent. exists [], s. split; [reflexivity|].
    apply IH; [exact Hp|discriminate].
Qed.

Lemma c_string_then_percent (q : text) :
  forallb (fun c => Ascii.eqb c "%") (c_string q) = true ->
  forallb (fun c => Ascii.eqb c "%") (c_string (q ++ T "%")) = true.
Proof.
  induction q as [|c q IH]; intros Hq; [reflexivity|].
  cbn [app c_string] in *. destruct (Ascii.eqb c nul); [reflexivity|].
  cbn [forallb] in *. apply andb_prop in Hq as [Hc Hq].
  rewrite Hc. exact (IH Hq).
Qed.

Lemma filter_all {A} (test : A -> bool) (l : list A) :
  (forall x, test x = true) -> List.filter test l = l.
Proof.
  intros Hall. induction l as [|x l IH]; [reflexivity|].
  cbn [List.filter]. rewrite Hall, IH. reflexivity.
Qed.

(** X19: A search text that is empty, or that up to its first NUL is made of
    percent signs only, selects every stored movie: within the length that
    SQLite allows a pattern, the director lookup returns all the joined rows,
    whatever their directors. *)
Theorem director_lookup_matches_all (engine : SqlEngine) (db : database)
    (director_name : text) :
  forallb (fun c => Ascii.eqb c "%") (c_string director_name) = true ->
  utf8_length director_name <= max_like_pattern_length - 2 ->
  exists found,
    query_movies_by_director db director_name = Ok found
    /\ found ≡ₚ movies_with_actor_count db
    /\ length found = size (movies db).
Proof.
  intros Hq Hlen. unfold query_movies_by_director.
  assert (Hfits : (max_like_pattern_length <? utf8_length (T "%" ++ director_name ++ T "%"))
                  = false).
  { apply Z.ltb_ge. rewrite !utf8_length_app.
    change (utf8_length (T "%")) with 1. lia. }
  rewrite Hfits. cbn [andb].
  eexists. split; [reflexivity|].
  rewrite filter_all.
  - split; [apply order_by_permutation|].
    rewrite order_by_length. apply movies_with_actor_count_length.
  - intros row. unfold like.
    change (T "%" ++ director_name ++ T "%") with ("%"%char :: (director_name ++ T "%")).
    cbn [c_string]. change (Ascii.eqb "%" nul) with false. cbv iota.
    apply like_all_percent; [|discriminate].
    cbn [forallb]. rewrite Ascii.eqb_refl. cbn [andb].
    apply c_string_then_percent. exact Hq.
Qed.

(** ** The totals of the breakdown *)

Lemma dict_set_weight {V} (wt : V -> Z) (k : text) (v : V) (d : dict V) :
  fold_right Z.add 0 (map (fun item => wt (snd item)) (dict_set k v d)) =
    fold_right Z.add 0 (map (fun item => wt (snd item)) d)
    - from_option wt 0 (dict_get k d) + wt v.
Proof.
  induction d as [|[k' v'] d IH]; cbn [dict_set dict_get map fold_right snd from_option].
  - lia.
  - destruct (decide (k' = k)) as [->|Hne]; cbn [map fold_right snd from_option].
    + lia.
    + rewrite IH. lia.
Qed.

Lemma dict_get_same_keys {U V} (k : text) (d1 : dict U) (d2 : dict V) :
  map fst d1 = map fst d2 -> dict_get k d1 = None -> dict_get k d2 = None.
Proof. intros Hkeys H1. apply dict_get_None. rewrite <- Hkeys. apply dict_get_None. exact H1. Qed.

(** What the loop of the breakdown keeps: the two dicts have the same keys
    in the same order, each once, and both the counts and the lengths of the
    lists add up to the number of rows gone through. *)
Lemma breakdown_step_totals (acc : dict (list movie_summary) * dict Z) (row : movie_row)
    (n : Z) :
  map fst (fst acc) = map fst (snd acc) ->
  NoDup (map fst (snd acc)) ->
  fold_right Z.add 0 (map (fun item => snd item) (snd acc)) = n ->
  fold_right Z.add 0 (map (fun item => Z.of_nat (length (snd item))) (fst acc)) = n ->
  map fst (fst (breakdown_step acc row)) = map fst (snd (breakdown_step acc row))
  /\ NoDup (map fst (snd (breakdown_step acc row)))
  /\ fold_right Z.add 0 (map (fun item => snd item) (snd (breakdown_step acc row))) = n + 1
  /\ fold_right Z.add 0 (map (fun item => Z.of_nat (length (snd item)))
                           (fst (breakdown_step acc row))) = n + 1.
Proof.
  destruct acc as [rb rd]. cbn [fst snd]. intros Hkeys Hnd Hsum Hlen.
  unfold breakdown_step. cbn [fst snd].
  set (r := rating (columns row)).
  destruct (dict_get r rb) as [l0|] eqn:Eb; cbn [fst snd].
  - destruct (dict_get r rd) as [c|] eqn:Ed.
    2:{ apply (dict_get_same_keys r rd rb (eq_sym Hkeys)) in Ed. congruence. }
    rewrite Eb. cbn [default from_option]. unfold Datatypes.id.
    rewrite !dict_set_keys, Eb, Ed.
    rewrite (dict_set_weight (fun c => c)), (dict_set_weight (fun l => Z.of_nat (length l))).
    rewrite Eb, Ed. cbn [from_option]. rewrite length_app. cbn [length].
    split; [exact Hkeys|]. split; [exact Hnd|].
    split; [rewrite Hsum|rewrite Hlen]; lia.
  - pose proof (dict_get_same_keys r rb rd Hkeys Eb) as Ed.
    rewrite !dict_get_set_eq. cbn [default from_option app]. unfold Datatypes.id.
    rewrite !dict_set_keys, !dict_get_set_eq, Eb, Ed.
    rewrite !(dict_set_weight (fun c => c)), !(dict_set_weight (fun l => Z.of_nat (length l))).
    rewrite !dict_get_set_eq, Eb, Ed. cbn [from_option length].
    split; [rewrite Hkeys; reflexivity|].
    split; [|split; [rewrite Hsum|rewrite Hlen]; cbn [app length]; lia].
    apply NoDup_app. split; [exact Hnd|]. split; [|apply NoDup_singleton].
    intros x Hx Hr. apply list_elem_of_In in Hx. apply list_elem_of_In in Hr.
    destruct Hr as [<-|[]]. apply dict_get_None in Ed. contradiction.
Qed.

Lemma breakdown_fold_totals (l : list movie_row) :
  forall (acc : dict (list movie_summary) * dict Z) (n : Z),
    map fst (fst acc) = map fst (snd acc) ->
    NoDup (map fst (snd acc)) ->
    fold_right Z.add 0 (map (fun item => snd item) (snd acc)) = n ->
    fold_right Z.add 0 (map (fun item => Z.of_nat (length (snd item))) (fst acc)) = n ->
    map fst (fst (fold_left breakdown_step l acc)) =
      map fst (snd (fold_left breakdown_step l acc))
    /\ NoDup (map fst (snd (fold_left breakdown_step l acc)))
    /\ fold_right Z.add 0 (map (fun item => snd item) (snd (fold_left breakdown_step l acc)))
       = n + Z.of_nat (length l)
    /\ fold_right Z.add 0 (map (fun item => Z.of_nat (length (snd item)))
                             (fst (fold_left breakdown_step l acc)))
       = n + Z.of_nat (length l).
Proof.
  induction l as [|row l IH]; intros acc n Hkeys Hnd Hsum Hlen; cbn [fold_left length].
  - rewrite Z.add_0_r. auto.
  - destruct (breakdown_step_totals acc row n Hkeys Hnd Hsum Hlen) as (Hk & Hn & Hs & Hl).
    destruct (IH _ _ Hk Hn Hs Hl) as (Hk' & Hn' & Hs' & Hl').
    split; [exact Hk'|]. split; [exact Hn'|]. split; lia.
Qed.

(** X20: Whenever the breakdown query returns a result, for any limit: the two
    dicts of the result list the same ratings in the same order, each once;
    the counts of the distribution add up to [total_movies_in_top], and so do
    the lengths of the lists of the categories; and that total is at least
    one. *)
Theorem breakdown_totals (engine : SqlEngine) (db : database) (top_n : Z)
    (result : rating_breakdown_result) :
  get_top_movies_by_rating_breakdown db top_n = Ok (Some result) ->
  map fst (rating_categories result) = map fst (rating_distribution result)
  /\ NoDup (map fst (rating_distribution result))
  /\ fold_right Z.add 0 (map (fun item => snd item) (rating_distribution result))
     = Z.of_nat (total_movies_in_top result)
  /\ fold_right Z.add 0 (map (fun item => Z.of_nat (length (snd item)))
                           (rating_categories result))
     = Z.of_nat (total_movies_in_top result)
  /\ (1 <= total_movies_in_top result <= size (movies db))%nat.
Proof.
  unfold get_top_movies_by_rating_breakdown.
  destruct (bind_int_cases top_n) as [-> | ->]; cbn [mbind outcome_bind]; [|discriminate].
  fold (top_rows db top_n).
  assert (Hsize : (length (top_rows db top_n) <= size (movies db))%nat).
  { unfold top_rows, limit.
    pose proof (order_by_length (desc float_leb (fun r => imdb_score (columns r)))
                  (movies_with_actor_count db)) as Hlen.
    rewrite movies_with_actor_count_length in Hlen.
    destruct (top_n <? 0); [lia|]. rewrite length_take. lia. }
  destruct (top_rows db top_n) as [|row top] eqn:E; [discriminate|].
  destruct (breakdown_fold_totals (row :: top) ([], []) 0
              eq_refl (NoDup_nil_2 (A := text)) eq_refl eq_refl) as (Hk & Hn & Hs & Hl).
  destruct (fold_left breakdown_step (row :: top) ([], [])) as [rb rd].
  intros [= <-]. cbn [rating_categories rating_distribution total_movies_in_top fst snd] in *.
  split; [exact Hk|]. split; [exact Hn|]. split; [exact Hs|]. split; [exact Hl|].
  cbn [length] in *. lia.
Qed.

(** * The further theorems at sample inputs *)

(** [heat] and then [heat_again]: one row inserted, one warning. *)
Lemma insert_movies_account_witness :
  exists w',
    _insert_movies (Some (sql_file (map render_movie [heat; heat_again])))
      (_initialize_database two_movies_world) = (Ok tt, w')
    /\ exists warnings n,
         stdout w' = stdout (_initialize_database two_movies_world)
                       ++ warnings ++ [InsertedMovies n]
         /\ Forall is_movie_warning warnings
         /\ (n + length warnings =
               length (finditer movies_pattern
                         (sql_file (map render_movie [heat; heat_again]))))%nat
         /\ size (movies (db_file w')) =
              (size (movies (db_file (_initialize_database two_movies_world))) + n)%nat
         /\ actors (db_file w') = actors (db_file (_initialize_database two_movies_world)).
Proof.
  eexists. split; [vm_compute; reflexivity|].
  apply (insert_movies_account (sql_file (map render_movie [heat; heat_again]))
           (_initialize_database two_movies_world)).
  vm_compute. reflexivity.
Defined.

(** [pacino] and [weaver]: two rows inserted, no warning. *)
Lemma insert_actors_account_witness :
  exists w',
    _insert_actors (Some (sql_file (map render_actor [pacino; weaver])))
      (_initialize_database two_movies_world) = (Ok tt, w')
    /\ exists warnings n,
         stdout w' = stdout (_initialize_database two_movies_world)
                       ++ warnings ++ [InsertedActors n]
         /\ Forall is_actor_warning warnings
         /\ (n + length warnings =
               length (finditer actors_pattern
                         (sql_file (map render_actor [pacino; weaver]))))%nat
         /\ size (actors (db_file w')) =
              (size (actors (db_file (_initialize_database two_movies_world))) + n)%nat
         /\ movies (db_file w') = movies (db_file (_initialize_database two_movies_world)).
Proof.
  eexists. split; [vm_compute; reflexivity|].
  apply (insert_actors_account (sql_file (map render_actor [pacino; weaver]))
           (_initialize_database two_movies_world)).
  vm_compute. reflexivity.
Defined.

(** The two files of [two_movies_world]. *)
Lemma stored_rows_from_statements_witness :
  exists w',
    __init__ two_movies_world = (Ok tt, w')
    /\ (forall i m, movies (db_file w') !! i = Some m ->
          clean_movie m = true
          /\ exists st pre post,
               syntactic_movie st = true
               /\ sql_file (map render_movie [heat; alien]) = pre ++ render_movie st ++ post
               /\ movie_of st = (i, m))
    /\ (forall i a, actors (db_file w') !! i = Some a ->
          clean_actor a = true
          /\ exists st pre post,
               syntactic_actor st = true
               /\ sql_file (map render_actor [pacino; weaver]) = pre ++ render_actor st ++ post
               /\ actor_of st = (i, a)).
Proof.
  eexists. split; [vm_compute; reflexivity|].
  apply (stored_rows_from_statements two_movies_world).
  - reflexivity.
  - reflexivity.
  - vm_compute. reflexivity.
Defined.

(** [heat], [heat_again] with the same identifier, and [alien]. *)
Lemma first_statement_wins_witness :
  exists w',
    __init__ repeated_world = (Ok tt, w')
    /\ (forall before st after,
          [heat; heat_again; alien] = before ++ st :: after ->
          ~ In (movie_key st) (map movie_key before) ->
          movies (db_file w') !! movie_key st = Some (snd (movie_of st)))
    /\ (forall before st after,
          [pacino; weaver] = before ++ st :: after ->
          ~ In (actor_key st) (map actor_key before) ->
          actors (db_file w') !! actor_key st = Some (snd (actor_of st)))
    /\ (forall i, is_Some (movies (db_file w') !! i) <->
                  In i (map movie_key [heat; heat_again; alien]))
    /\ (forall i, is_Some (actors (db_file w') !! i) <->
                  In i (map actor_key [pacino; weaver])).
Proof.
  apply (first_statement_wins [heat; heat_again; alien] [pacino; weaver] repeated_world).
  - repeat constructor.
  - repeat constructor.
  - reflexivity.
  - reflexivity.
Defined.



(** The directory of [two_movies_world], once over the storage file of an
    earlier run and once over another one, after other output. *)
Lemma constructor_starts_from_scratch_witness :
  fst (__init__ two_movies_world)
    = fst (__init__ (set_db two_movies_world runtimes_database [DataInserted]))
  /\ db_file (snd (__init__ two_movies_world))
     = db_file (snd (__init__ (set_db two_movies_world runtimes_database [DataInserted])))
  /\ (exists printed,
        stdout (snd (__init__ two_movies_world)) = stdout two_movies_world ++ printed
        /\ stdout (snd (__init__ (set_db two_movies_world runtimes_database [DataInserted])))
           = stdout (set_db two_movies_world runtimes_database [DataInserted]) ++ printed)
  /\ actors_sql (snd (__init__ two_movies_world)) = actors_sql two_movies_world
  /\ movies_sql (snd (__init__ two_movies_world)) = movies_sql two_movies_world.
Proof.
  apply (constructor_starts_from_scratch two_movies_world
           (set_db two_movies_world runtimes_database [DataInserted])).
  - reflexivity.
  - reflexivity.
Defined.

(** [pacino] names [heat] and [weaver] names [alien]. *)
Lemma referential_integrity_of_load_witness :
  exists w',
    __init__ two_movies_world = (Ok tt, w')
    /\ (referential_integrity (db_file w') <->
          forall a, In a [pacino; weaver] ->
                    In (value_of_digits (st_movie_id a)) (map movie_key [heat; alien])).
Proof.
  apply (referential_integrity_of_load [heat; alien] [pacino; weaver] two_movies_world).
  - repeat constructor.
  - repeat constructor.
  - apply (bool_decide_unpack _). vm_compute. exact I.
  - reflexivity.
  - reflexivity.
Defined.

(** Movies of 1995 and 1979. *)
Lemma year_range_bounds_witness :
  exists lo hi,
    year_range_min (@get_all_stats reference_engine heat_alien_database) = Some lo
    /\ year_range_max (@get_all_stats reference_engine heat_alien_database) = Some hi
    /\ (exists i m, movies heat_alien_database !! i = Some m /\ year m = lo)
    /\ (exists i m, movies heat_alien_database !! i = Some m /\ year m = hi)
    /\ forall i m, movies heat_alien_database !! i = Some m -> lo <= year m <= hi.
Proof.
  apply (year_range_bounds reference_engine heat_alien_database).
  table_not_empty 7.
Defined.

(** Ratings PG, PG and R, and the limit -1. *)
Lemma queries_agree_on_ratings_witness :
  (forall r,
     length (@query_movies_by_rating reference_engine scores_database r) =
       default 0%nat
         (dict_get r (stats_rating_distribution
                        (@get_all_stats reference_engine scores_database))))
  /\ exists result,
       @get_top_movies_by_rating_breakdown reference_engine scores_database (-1)
         = Ok (Some result)
       /\ total_movies_in_top result
          = total_movies (@get_all_stats reference_engine scores_database)
       /\ forall r,
            dict_get r (rating_distribution result) =
              Z.of_nat <$> dict_get r (stats_rating_distribution
                                         (@get_all_stats reference_engine scores_database)).
Proof.
  apply (queries_agree_on_ratings reference_engine scores_database (-1)).
  - table_not_empty 1.
  - lia.
  - left. lia.
Defined.

(** The search text [%]. *)
Lemma director_lookup_matches_all_witness :
  exists found,
    @query_movies_by_director reference_engine nolan_database (T "%") = Ok found
    /\ found ≡ₚ movies_with_actor_count nolan_database
    /\ length found = size (movies nolan_database).
Proof.
  apply (director_lookup_matches_all reference_engine nolan_database (T "%")).
  - reflexivity.
  - vm_compute. discriminate.
Defined.

(** Scores 9.0, 8.5, 8.5 with ratings PG, PG, R, and N = 2. *)
Lemma breakdown_totals_witness :
  exists result,
    @get_top_movies_by_rating_breakdown reference_engine scores_database 2 = Ok (Some result)
    /\ map fst (rating_categories result) = map fst (rating_distribution result)
    /\ NoDup (map fst (rating_distribution result))
    /\ fold_right Z.add 0 (map (fun item => snd item) (rating_distribution result))
       = Z.of_nat (total_movies_in_top result)
    /\ fold_right Z.add 0 (map (fun item => Z.of_nat (length (snd item)))
                             (rating_categories result))
       = Z.of_nat (total_movies_in_top result)
    /\ (1 <= total_movies_in_top result <= size (movies scores_database))%nat.
Proof.
  eexists. split; [vm_compute; reflexivity|].
  apply (breakdown_totals reference_engine scores_database 2).
  vm_compute. reflexivity.
Defined.

(** The statement of [pacino], followed by a semicolon. *)
Lemma actors_pattern_exact_witness :
  exists st,
    syntactic_actor st = true
    /\ actor_groups pacino = actor_groups st
    /\ render_actor pacino ++ T ";" = render_actor st ++ T ";".
Proof.
  apply (proj1 (actors_pattern_exact (render_actor pacino ++ T ";")
                  (actor_groups pacino) (T ";"))).
  vm_compute. reflexivity.
Defined.

(** The statement of [heat_again], with its blank and its short decimals. *)
Lemma movies_pattern_exact_witness :
  exists st,
    syntactic_movie st = true
    /\ movie_groups heat_again = movie_groups st
    /\ render_movie heat_again ++ T ";" = render_movie st ++ T ";".
Proof.
  apply (proj1 (movies_pattern_exact (render_movie heat_again ++ T ";")
                  (movie_groups heat_again) (T ";"))).
  vm_compute. reflexivity.
Defined.


(** Over two empty source files [main] raises KeyError; over the files of
    [two_movies_world] it returns. *)
Lemma main_needs_a_movie_witness :
  @main reference_engine empty_files_world =
    (Some (KeyError "title"), snd (__init__ empty_files_world),
     opening ++ heading "1. LONGEST-RUNNING MOVIE:")
  /\ fst (fst (@main reference_engine two_movies_world)) = None.
Proof.
  split.
  - apply (proj2 (proj2 (main_needs_a_movie reference_engine empty_files_world)));
      vm_compute; reflexivity.
  - apply (proj1 (main_needs_a_movie reference_engine two_movies_world)).
    split; [vm_compute; reflexivity|]. table_not_empty 7.
Defined.

(** An identifier of 4301 digits is refused by [int], whatever its value:
    the statement is matched, and the loader raises ValueError. *)
Lemma zero_padded_identifier_refused :
  syntactic_actor zero_padded_actor = true
  /\ well_formed_actor zero_padded_actor = false
  /\ value_of_digits (st_actor_id zero_padded_actor) = 7
  /\ fst (_insert_actors (Some (render_actor zero_padded_actor))
            (_initialize_database two_movies_world)) = Raise ValueError.
Proof. vm_compute. repeat split; reflexivity. Qed.
